(** * The trace forest of the JIT log: vmprof/log/objects.py

    A shallow embedding of the classes [FlatOp], [MergePoint], [Stage],
    [Trace] and [TraceForest] and of the generator [iter_ranges], followed
    by the properties of the reconstruction engine.

    Conventions of the embedding.
    - The primitives are those of the Python 2 interpreter the module is
      written for: a [str] is a byte string, [range] returns a list, and
      a [raise StopIteration] inside a generator body ends the generator.
      The flag [PY3] of the module is a parameter of the functions whose
      source tests it, and the branch under [PY3] is what Python 3 does
      with the same data.
    - A dict is an association list; the order in which a loop over
      [items()] visits it is a parameter of the functions that loop.
    - Python integers are unbounded: they are values of [Z].
    - Raw data ([str] used as bytes: core dumps, source lines) is a
      [list byte]; symbolic text (names, descriptors, paths) is a [string].
    - A method that can raise returns an [outcome]; a method that mutates
      [self] is a state transformer on the record of [self], and the state
      it leaves behind when it raises is kept.
    - Trace objects live in a store and are named by references: the
      forest's dictionaries hold references, as the Python ones do. *)

From Stdlib Require Import ZArith Lia.
From Stdlib.Strings Require Import Byte String.
From stdpp Require Import base option list gmap strings sorting.

Local Open Scope Z_scope.

(** ** Python values and primitives *)

(** A Python 2 [str] holding raw data. *)
Definition bytes : Type := list byte.

Definition b (s : string) : bytes := String.list_byte_of_string s.

#[global] Instance byte_eq_decision : EqDecision byte := Byte.byte_eq_dec.

(** [len(l)] *)
Definition len {A} (l : list A) : Z := Z.of_nat (length l).

(** How a slice bound is resolved against a sequence of length [n]:
    a negative bound counts from the end, and both are clipped to
    [0..n]. *)
Definition slice_index (n i : Z) : Z :=
  if i <? 0 then Z.max 0 (i + n) else Z.min i n.

(** [l[lo:hi]], either bound possibly omitted. *)
Definition slice {A} (l : list A) (lo hi : option Z) : list A :=
  let n := len l in
  let start := from_option (slice_index n) 0 lo in
  let stop := from_option (slice_index n) n hi in
  take (Z.to_nat (stop - start)) (drop (Z.to_nat start) l).

(** [range(lo, hi)] of Python 2: the list [lo, lo+1, ..., hi-1]. *)
Definition range (lo hi : Z) : list Z :=
  (λ k : nat, lo + Z.of_nat k) <$> seq 0 (Z.to_nat (hi - lo)).

(** ** Exceptions and stateful methods *)

Inductive exn : Type :=
  | KeyError
  | TypeError
  | IndexError
  | AssertionError
  | NotImplementedError
  | IOError
  | AttributeError
  | struct_error
  | ReferenceError
  | UnicodeDecodeError.

Inductive outcome (A : Type) : Type :=
  | Return (a : A)
  | Raise (e : exn).
Arguments Return {A} a.
Arguments Raise {A} e.

(** A method on a mutable object of type [S]: the result or the
    exception, and the object as the call leaves it. *)
Definition M (S A : Type) : Type := S → outcome A * S.

Definition ret {S A} (a : A) : M S A := λ s, (Return a, s).
Definition raise {S A} (e : exn) : M S A := λ s, (Raise e, s).
Definition bind {S A B} (m : M S A) (k : A → M S B) : M S B :=
  λ s, match m s with
       | (Return a, s') => k a s'
       | (Raise e, s') => (Raise e, s')
       end.
Definition get {S} : M S S := λ s, (Return s, s).
Definition modify {S} (f : S → S) : M S unit := λ s, (Return tt, f s).
Definition assert {S} (c : bool) : M S unit :=
  if c then ret tt else raise AssertionError.
Definition lift {S A} (o : outcome A) : M S A := λ s, (o, s).

Notation "'let*' x ':=' m 'in' k" := (bind m (λ x, k))
  (at level 10, x pattern, m at level 100, k at level 200).
Notation "m ';;' k" := (bind m (λ _, k))
  (at level 100, k at level 200, right associativity).

(** [for x in xs: body], left when [body] raises. *)
Fixpoint for_each {S A} (xs : list A) (body : A → M S unit) : M S unit :=
  match xs with
  | [] => ret tt
  | x :: xs' => body x ;; for_each xs' body
  end.

(** ** Protocol constants: vmprof/log/constants.py *)

Definition MARK_TRACE : bytes := [x17].
Definition MARK_TRACE_OPT : bytes := [x18].
Definition MARK_TRACE_ASM : bytes := [x19].
Definition MARK_JITLOG_START : bytes := [x10].
Definition MARK_INPUT_ARGS : bytes := [x11].
Definition MARK_RESOP_META : bytes := [x12].
Definition MARK_RESOP : bytes := [x13].
Definition MARK_RESOP_DESCR : bytes := [x14].
Definition MARK_ASM_ADDR : bytes := [x15].
Definition MARK_ASM : bytes := [x16].
Definition MARK_STITCH_BRIDGE : bytes := [x1a].
Definition MARK_START_TRACE : bytes := [x1b].
Definition MARK_JITLOG_COUNTER : bytes := [x1c].
Definition MARK_INIT_MERGE_POINT : bytes := [x1d].
Definition MARK_JITLOG_HEADER : bytes := [x1e].
Definition MARK_MERGE_POINT : bytes := [x1f].
Definition MARK_COMMON_PREFIX : bytes := [x20].
Definition MARK_ABORT_TRACE : bytes := [x21].
Definition MARK_JITLOG_END : bytes := [x22].

(** The [MARK_*] constants of constants.py, in the order of the
    file. *)
Definition marks : list bytes :=
  [MARK_JITLOG_START; MARK_INPUT_ARGS; MARK_RESOP_META; MARK_RESOP;
   MARK_RESOP_DESCR; MARK_ASM_ADDR; MARK_ASM; MARK_TRACE; MARK_TRACE_OPT;
   MARK_TRACE_ASM; MARK_STITCH_BRIDGE; MARK_START_TRACE;
   MARK_JITLOG_COUNTER; MARK_INIT_MERGE_POINT; MARK_JITLOG_HEADER;
   MARK_MERGE_POINT; MARK_COMMON_PREFIX; MARK_ABORT_TRACE; MARK_JITLOG_END].

(** The names constants.py binds to a marker, in the order of the
    file. The other names of the module are the seven [MP_*] pairs and
    [SEM_TYPE_NAMES]. *)
Definition MARK_NAMES : list (string * bytes) :=
  [("MARK_JITLOG_START"%string, MARK_JITLOG_START);
   ("MARK_INPUT_ARGS"%string, MARK_INPUT_ARGS);
   ("MARK_RESOP_META"%string, MARK_RESOP_META);
   ("MARK_RESOP"%string, MARK_RESOP);
   ("MARK_RESOP_DESCR"%string, MARK_RESOP_DESCR);
   ("MARK_ASM_ADDR"%string, MARK_ASM_ADDR);
   ("MARK_ASM"%string, MARK_ASM);
   ("MARK_TRACE"%string, MARK_TRACE);
   ("MARK_TRACE_OPT"%string, MARK_TRACE_OPT);
   ("MARK_TRACE_ASM"%string, MARK_TRACE_ASM);
   ("MARK_STITCH_BRIDGE"%string, MARK_STITCH_BRIDGE);
   ("MARK_START_TRACE"%string, MARK_START_TRACE);
   ("MARK_JITLOG_COUNTER"%string, MARK_JITLOG_COUNTER);
   ("MARK_INIT_MERGE_POINT"%string, MARK_INIT_MERGE_POINT);
   ("MARK_JITLOG_HEADER"%string, MARK_JITLOG_HEADER);
   ("MARK_MERGE_POINT"%string, MARK_MERGE_POINT);
   ("MARK_COMMON_PREFIX"%string, MARK_COMMON_PREFIX);
   ("MARK_ABORT_TRACE"%string, MARK_ABORT_TRACE);
   ("MARK_JITLOG_END"%string, MARK_JITLOG_END)].

(** The typed semantic tags [MP_*] of a merge point: each constant pairs
    a tag with the type of the value it carries (["s"] or ["i"]). *)
Inductive sem_value : Type :=
  | MP_STR (s : string)
  | MP_INT (i : Z)
  | MP_FILENAME (s : string)
  | MP_LINENO (i : Z)
  | MP_INDEX (i : Z)
  | MP_SCOPE (s : string)
  | MP_OPCODE (s : string).

Definition sem_type (v : sem_value) : Z :=
  match v with
  | MP_STR _ => 0x0
  | MP_INT _ => 0x0
  | MP_FILENAME _ => 0x1
  | MP_LINENO _ => 0x2
  | MP_INDEX _ => 0x4
  | MP_SCOPE _ => 0x8
  | MP_OPCODE _ => 0x10
  end.

Definition value_str (v : sem_value) : option string :=
  match v with
  | MP_STR s | MP_FILENAME s | MP_SCOPE s | MP_OPCODE s => Some s
  | _ => None
  end.

Definition value_int (v : sem_value) : option Z :=
  match v with
  | MP_INT i | MP_LINENO i | MP_INDEX i => Some i
  | _ => None
  end.

Definition SEM_TYPE_NAMES : gmap Z string :=
  <[0x10 := "opcode"%string]>
  (<[0x8 := "scope"%string]>
  (<[0x1 := "filename"%string]>
  (<[0x4 := "index"%string]>
  (<[0x2 := "lineno"%string]> ∅)))).

(** ** Data model *)

(** A memory patch [(timepos, addr, content)]. *)
Definition patch : Type := Z * Z * bytes.

Module FlatOp.

Record t : Type := FlatOp {
  opnum : Z;
  opname : string;
  args : list string;
  result : option string;
  descr : option string;
  descr_number : option Z;
  core_dump : option (Z * bytes)
}.

(** [has_descr(self, descr=None)]; [not descr] holds of [None] and
    of [0]. *)
Definition has_descr (self : t) (d : option Z) : bool :=
  match d with
  | None | Some 0 => bool_decide (descr self ≠ None)
  | Some _ => bool_decide (d = descr_number self)
  end.

Definition set_core_dump (rel_pos : Z) (dump : bytes) (self : t) : t :=
  FlatOp (opnum self) (opname self) (args self) (result self)
         (descr self) (descr_number self) (Some (rel_pos, dump)).

(** One turn of the loop over [patches] in [get_core_dump]. *)
Definition overlay (op_off base_addr timeval : Z)
    (coredump : bytes) (p : patch) : bytes :=
  let '(timepos, addr, content) := p in
  if timeval <? timepos then coredump
  else
    let patch_start := (addr - base_addr) - op_off in
    let patch_end := patch_start + len content in
    let content_end := len content - 1 in
    let '(patch_end, content_end) :=
      if patch_end >=? len coredump
      then (len coredump, len coredump - patch_start)
      else (patch_end, content_end) in
    slice coredump None (Some patch_start)
      ++ slice content None (Some content_end)
      ++ slice coredump (Some patch_end) None.

(** [get_core_dump(self, base_addr, patches, timeval)]; subscripting
    a missing [core_dump] is a [TypeError]. *)
Definition get_core_dump (self : t) (base_addr : Z)
    (patches : list patch) (timeval : Z) : outcome bytes :=
  match core_dump self with
  | None => Raise TypeError
  | Some (op_off, dump) =>
      Return (foldl (overlay op_off base_addr timeval) dump patches)
  end.

End FlatOp.

Module MergePoint.

(** [get_source_line]: the last ["filename"] and ["lineno"] values,
    or [(0, None)] when one is missing; a tag outside
    [SEM_TYPE_NAMES] is a [KeyError]. *)
Fixpoint scan (values : list sem_value)
    (filename : option string) (lineno : option Z)
    : outcome (option string * option Z) :=
  match values with
  | [] => Return (filename, lineno)
  | value :: rest =>
      match SEM_TYPE_NAMES !! sem_type value with
      | None => Raise KeyError
      | Some name =>
          let filename :=
            if bool_decide (name = "filename"%string)
            then value_str value else filename in
          let lineno :=
            if bool_decide (name = "lineno"%string)
            then value_int value else lineno in
          scan rest filename lineno
      end
  end.

Definition get_source_line (values : list sem_value)
    : outcome (Z * option string) :=
  match scan values None None with
  | Raise e => Raise e
  | Return (Some filename, Some lineno) => Return (lineno, Some filename)
  | Return _ => Return (0, None)
  end.

Definition has_descr (d : option Z) : bool := false.

Definition get_core_dump (base_addr : Z) (patches : list patch)
    (timeval : Z) : outcome bytes :=
  Raise NotImplementedError.

End MergePoint.

(** An operation record is a [FlatOp] or its subclass [MergePoint]. *)
Inductive op : Type :=
  | Flat (o : FlatOp.t)
  | Merge (values : list sem_value).

Definition has_descr (o : op) (d : option Z) : bool :=
  match o with
  | Flat f => FlatOp.has_descr f d
  | Merge _ => MergePoint.has_descr d
  end.

Definition get_core_dump (o : op) (base_addr : Z) (patches : list patch)
    (timeval : Z) : outcome bytes :=
  match o with
  | Flat f => FlatOp.get_core_dump f base_addr patches timeval
  | Merge _ => MergePoint.get_core_dump base_addr patches timeval
  end.

Module Stage.

Record t : Type := Stage {
  mark : string;
  ops : list op;
  timeval : Z
}.

Definition get_last_op (self : t) : option op := last (ops self).

Definition get_ops (self : t) : list op := ops self.

(** [self.ops.append(o)] *)
Definition append (o : op) (self : t) : t :=
  Stage (mark self) (ops self ++ [o]) (timeval self).

End Stage.

(** A reference to a [Trace] object of the store. *)
Abbreviation ref := nat (only parsing).

Record TraceForest : Type := mkTraceForest {
  version : Z;
  roots : list ref;
  traces : list (Z * ref);
  addrs : gmap Z ref;
  last_trace : option ref;
  resops : list (Z * string);
  timepos : Z;
  patches : list patch;
  keep : bool;
  source_lines : list (string * list (Z * bytes))
}.

(** [d[key].append(x)] on a [defaultdict(list)]. The association list
    keeps the entries as they were inserted; that is its representation
    only, and a loop over [items()] visits them in an order of its
    own. *)
Fixpoint dd_append {K V} `{EqDecision K} (key : K) (x : V)
    (d : list (K * list V)) : list (K * list V) :=
  match d with
  | [] => [(key, [x])]
  | (k, vs) :: d' =>
      if decide (k = key) then (k, vs ++ [x]) :: d'
      else (k, vs) :: dd_append key x d'
  end.

(** [d.get(key, None)] on a dictionary kept in insertion order. *)
Fixpoint dict_get {K V} `{EqDecision K} (key : K) (d : list (K * V))
    : option V :=
  match d with
  | [] => None
  | (k, v) :: d' => if decide (k = key) then Some v else dict_get key d'
  end.

(** [d[key] = v] *)
Fixpoint dict_set {K V} `{EqDecision K} (key : K) (v : V)
    (d : list (K * V)) : list (K * V) :=
  match d with
  | [] => [(key, v)]
  | (k, v0) :: d' =>
      if decide (k = key) then (k, v) :: d'
      else (k, v0) :: dict_set key v d'
  end.

(** [[f(x) for x in xs]], left at the first exception. *)
Fixpoint collect {A B} (f : A → outcome B) (xs : list A)
    : outcome (list B) :=
  match xs with
  | [] => Return []
  | x :: xs' =>
      match f x with
      | Raise e => Raise e
      | Return y =>
          match collect f xs' with
          | Raise e => Raise e
          | Return ys => Return (y :: ys)
          end
      end
  end.

Module Trace.

Record t : Type := Trace {
  type : string;
  inputargs : list string;
  unique_id : Z;
  stages : gmap string Stage.t;
  last_mark : option string;
  addrs : Z * Z;
  my_patches : option (list patch);
  bridges : list (Z * option Z * Z);
  descr_numbers : gset (option Z);
  counter : Z;
  merge_point_files : list (string * list Z)
}.

Definition set_stages (v : gmap string Stage.t) (self : t) : t :=
  Trace (type self) (inputargs self) (unique_id self) v (last_mark self)
        (addrs self) (my_patches self) (bridges self) (descr_numbers self)
        (counter self) (merge_point_files self).

Definition set_last_mark (v : option string) (self : t) : t :=
  Trace (type self) (inputargs self) (unique_id self) (stages self) v
        (addrs self) (my_patches self) (bridges self) (descr_numbers self)
        (counter self) (merge_point_files self).

Definition set_addrs (v : Z * Z) (self : t) : t :=
  Trace (type self) (inputargs self) (unique_id self) (stages self)
        (last_mark self) v (my_patches self) (bridges self)
        (descr_numbers self) (counter self) (merge_point_files self).

Definition set_my_patches (v : option (list patch)) (self : t) : t :=
  Trace (type self) (inputargs self) (unique_id self) (stages self)
        (last_mark self) (addrs self) v (bridges self)
        (descr_numbers self) (counter self) (merge_point_files self).

Definition set_bridges (v : list (Z * option Z * Z)) (self : t) : t :=
  Trace (type self) (inputargs self) (unique_id self) (stages self)
        (last_mark self) (addrs self) (my_patches self) v
        (descr_numbers self) (counter self) (merge_point_files self).

Definition set_descr_numbers (v : gset (option Z)) (self : t) : t :=
  Trace (type self) (inputargs self) (unique_id self) (stages self)
        (last_mark self) (addrs self) (my_patches self) (bridges self) v
        (counter self) (merge_point_files self).

Definition set_merge_point_files (v : list (string * list Z)) (self : t)
    : t :=
  Trace (type self) (inputargs self) (unique_id self) (stages self)
        (last_mark self) (addrs self) (my_patches self) (bridges self)
        (descr_numbers self) (counter self) v.

Definition set_inputargs_field (v : list string) (self : t) : t :=
  Trace (type self) v (unique_id self) (stages self)
        (last_mark self) (addrs self) (my_patches self) (bridges self)
        (descr_numbers self) (counter self) (merge_point_files self).

(** [Trace(forest, trace_type, tick, unique_id)] *)
Definition init (trace_type : string) (tick unique_id : Z) : outcome t :=
  if bool_decide (trace_type = "loop"%string ∨ trace_type = "bridge"%string)
  then Return (Trace trace_type [] unique_id ∅ None (-1, -1) None [] ∅ 0 [])
  else Raise AssertionError.

(** [get_stage(self, type)]: [self.stages[type]]. *)
Definition get_stage (type : option string) : M t Stage.t :=
  assert (bool_decide (type ≠ None)) ;;
  let* self := get in
  match type ≫= (stages self !!.) with
  | Some stage => ret stage
  | None => raise KeyError
  end.

Definition stitch_bridge (timeval : Z) (descr_number : option Z)
    (addr_to : Z) : M t unit :=
  modify (λ self,
    set_bridges (bridges self ++ [(timeval, descr_number, addr_to)]) self).

(** The tail of [start_mark]: record the phase and open its stage. *)
Definition open_stage (forest : TraceForest) (mark_name : string)
    : M t unit :=
  modify (set_last_mark (Some mark_name)) ;;
  assert (bool_decide (Some mark_name ≠ None)) ;;
  let tick := timepos forest in
  modify (λ self,
    set_stages (<[mark_name := Stage.Stage mark_name [] tick]> (stages self))
               self).

Definition start_mark (forest : TraceForest) (mark : bytes) : M t unit :=
  let mark_name := "noopt"%string in
  if bool_decide (mark = MARK_TRACE_OPT) then
    open_stage forest "opt"
  else if bool_decide (mark = MARK_TRACE_ASM) then
    open_stage forest "asm"
  else
    assert (bool_decide (mark = MARK_TRACE)) ;;
    let* self := get in
    if bool_decide (last_mark self = Some mark_name) then ret tt
    else open_stage forest mark_name.

(** [self.stages.get(self.last_mark, None)] *)
Definition get_last_stage (self : t) : option Stage.t :=
  last_mark self ≫= (stages self !!.).

(** The stage object stored under [type] is mutated in place. *)
Definition update_stage (type : option string) (f : Stage.t → Stage.t)
    : M t unit :=
  modify (λ self,
    match type with
    | Some ty => set_stages (alter f ty (stages self)) self
    | None => self
    end).

(** [set_core_dump_to_last_op]: the last operation of the current
    stage is updated in place. A stage holds its operations by value,
    one object per position: the update is that of the source when the
    object of the last operation is held at no other position, which
    the properties that speak of the other positions assume. *)
Definition set_core_dump_to_last_op (rel_pos : Z) (dump : bytes)
    : M t unit :=
  let* self := get in
  assert (bool_decide (last_mark self ≠ None)) ;;
  let* stage := get_stage (last_mark self) in
  match Stage.get_last_op stage with
  | None => raise AttributeError
  | Some (Merge _) => raise NotImplementedError
  | Some (Flat flatop) =>
      update_stage (last_mark self) (λ stage,
        Stage.Stage (Stage.mark stage)
          (removelast (Stage.ops stage)
             ++ [Flat (FlatOp.set_core_dump rel_pos dump flatop)])
          (Stage.timeval stage))
  end.

(** [op.descr_number], read only after [op.has_descr()] held. *)
Definition op_descr_number (o : op) : option Z :=
  match o with
  | Flat f => FlatOp.descr_number f
  | Merge _ => None
  end.

(** [add_instr(self, op)]: the stage fetched by [get_stage] is the
    object stored under [last_mark], and the append mutates it
    there. *)
Definition add_instr (o : op) : M t unit :=
  (if has_descr o None
   then modify (λ self,
          set_descr_numbers ({[op_descr_number o]} ∪ descr_numbers self) self)
   else ret tt) ;;
  let* self := get in
  let* stage := get_stage (last_mark self) in
  update_stage (last_mark self) (Stage.append o) ;;
  match o with
  | Merge values =>
      let* (lineno, filename) := lift (MergePoint.get_source_line values) in
      match filename with
      | Some f =>
          if bool_decide (f ≠ ""%string)
          then modify (λ self,
                 set_merge_point_files
                   (dd_append f lineno (merge_point_files self)) self)
          else ret tt
      | None => ret tt
      end
  | Flat _ => ret tt
  end.

Definition is_bridge (self : t) : bool :=
  bool_decide (type self = "bridge"%string).

Definition set_inputargs (args : list string) : M t unit :=
  modify (set_inputargs_field args).

Definition set_addr_bounds (a b : Z) : M t unit :=
  modify (set_addrs (a, b)).

Definition contains_addr (self : t) (addr : Z) : bool :=
  bool_decide (fst (addrs self) ≤ addr ≤ snd (addrs self)).

(** [contains_patch]: [addrs] is a pair from construction on, never
    [None]. *)
Definition contains_patch (self : t) (addr : Z) : bool :=
  bool_decide (fst (addrs self) ≤ addr ≤ snd (addrs self)).

(** The truth value of a [Stage] instance: the class defines neither
    [__nonzero__] nor [__len__]. *)
Definition stage_truth (stage : Stage.t) : bool := true.

(** [len(opslice)]: the length of a pair. *)
Definition len_pair {A B} (p : A * B) : Z := 2.

(** [get_core_dump(self, timeval=-1, opslice=(0,-1))]; the result
    [None] is the "no core dump" answer. *)
Definition get_core_dump (forest : TraceForest) (timeval : Z)
    (opslice : Z * Z) : M t (option bytes) :=
  let timeval := if bool_decide (timeval = -1) then 2 ^ 31 - 1 else timeval in
  let* self := get in
  (if bool_decide (my_patches self = None)
   then modify (λ self,
          set_my_patches
            (Some (filter (λ p : patch, contains_patch self p.1.2 = true)
                          (patches forest))) self)
   else ret tt) ;;
  let '(start, end_) := opslice in
  let end_ := if bool_decide (end_ = -1) then len_pair opslice else end_ in
  let* stage := get_stage (Some "asm"%string) in
  if negb (stage_truth stage) then ret None
  else
    let* self := get in
    let* core_dump :=
      lift (collect
              (λ o, get_core_dump o (fst (addrs self))
                                  (default [] (my_patches self)) timeval)
              (slice (Stage.get_ops stage) (Some start) (Some end_))) in
    ret (Some (concat core_dump)).

Definition default_timeval : Z := -1.
Definition default_opslice : Z * Z := (0, -1).

End Trace.

(** ** The generator [iter_ranges] *)

(** [numbers.sort()] *)
Definition sort (numbers : list Z) : list Z := merge_sort Z.le numbers.

(** The loop [for pos, i in enumerate(numbers[1:])] and the final
    [yield]; [n] is [len(numbers)]. *)
Fixpoint iter_ranges_loop (n first last pos : Z) (rest : list Z)
    : list (list Z) :=
  match rest with
  | [] => [range first (last + 1)]
  | i :: rest' =>
      if bool_decide (i - first > 50) then
        range first (last + 1)
          :: (if bool_decide (pos + 1 < n)
              then iter_ranges_loop n i i (pos + 1) rest'
              else [])
      else iter_ranges_loop n first i (pos + 1) rest'
  end.

(** The ranges [iter_ranges(numbers)] yields, in order. *)
Definition iter_ranges (numbers : list Z) : list (list Z) :=
  if bool_decide (len numbers = 0) then []
  else
    let numbers := sort numbers in
    match numbers with
    | first :: rest => iter_ranges_loop (len numbers) first first 0 rest
    | [] => [] (* not reached: sorting keeps the length *)
    end.

(** ** The store and the forest *)

(** The objects a decode session works on: the [Trace] objects by
    reference, the one [TraceForest], and the log of the files read
    from disk so far. *)
Record Store : Type := mkStore {
  objects : list Trace.t;
  forest : TraceForest;
  reads : list string
}.

Definition set_objects (v : list Trace.t) (s : Store) : Store :=
  mkStore v (forest s) (reads s).

Definition set_forest (v : TraceForest) (s : Store) : Store :=
  mkStore (objects s) v (reads s).

Definition set_reads (v : list string) (s : Store) : Store :=
  mkStore (objects s) (forest s) v.

(** The object behind a reference. [ReferenceError] is the model's
    answer for a reference outside the store; no method creates one. *)
Definition deref (r : ref) : M Store Trace.t :=
  λ s, match objects s !! r with
       | Some trace => (Return trace, s)
       | None => (Raise ReferenceError, s)
       end.

(** A method call [trace.m(...)] on the object behind [r]; [m] reads
    [self.forest] as its first argument. *)
Definition call {A} (r : ref) (m : TraceForest → M Trace.t A) : M Store A :=
  λ s, match objects s !! r with
       | Some trace =>
           let '(o, trace') := m (forest s) trace in
           (o, set_objects (<[r := trace']> (objects s)) s)
       | None => (Raise ReferenceError, s)
       end.

(** [str.splitlines()] of Python 2: lines end at ["\n"], ["\r"] or
    ["\r\n"]. *)
Fixpoint splitlines_from (cur : bytes) (data : bytes) : list bytes :=
  match data with
  | [] => match cur with [] => [] | _ => [rev cur] end
  | x0a :: rest => rev cur :: splitlines_from [] rest
  | x0d :: rest =>
      match rest with
      | x0a :: rest' => rev cur :: splitlines_from [] rest'
      | _ => rev cur :: splitlines_from [] rest
      end
  | c :: rest => splitlines_from (c :: cur) rest
  end.

Definition splitlines (data : bytes) : list bytes := splitlines_from [] data.

(** [l[i]] *)
Definition index {A} (l : list A) (i : Z) : outcome A :=
  let i := if i <? 0 then i + len l else i in
  if i <? 0 then Raise IndexError
  else match l !! Z.to_nat i with
       | Some x => Return x
       | None => Raise IndexError
       end.

(** [d[key]] on a [defaultdict(list)]: a missing key is created. *)
Definition dd_touch {K V} `{EqDecision K} (key : K) (d : list (K * list V))
    : list (K * list V) :=
  match dict_get key d with
  | Some _ => d
  | None => d ++ [(key, [])]
  end.

(** ** [struct.pack] *)

(** The byte of value [n mod 256]. *)
Definition byte_of_Z (n : Z) : byte :=
  default x00 (Byte.of_N (Z.to_N (n mod 256))).

(** The [k] low-order bytes of [n], most significant first. *)
Fixpoint big_endian (k : nat) (n : Z) : bytes :=
  match k with
  | O => []
  | S k' => byte_of_Z (Z.shiftr n (8 * Z.of_nat k')) :: big_endian k' n
  end.

(** One unsigned field of [k] bytes in a [">"] format; a value that
    does not fit raises [struct.error]. *)
Definition pack_unsigned (k : nat) (n : Z) : outcome bytes :=
  if bool_decide (0 ≤ n < 2 ^ (8 * Z.of_nat k))
  then Return (big_endian k n)
  else Raise struct_error.

(** [struct.pack('>I', n)] *)
Definition pack_I (n : Z) : outcome bytes := pack_unsigned 4 n.

(** [struct.pack('>HBI', h, b, i)] *)
Definition pack_HBI (h b i : Z) : outcome bytes :=
  match pack_unsigned 2 h, pack_unsigned 1 b, pack_unsigned 4 i with
  | Return x, Return y, Return z => Return (x ++ y ++ z)
  | _, _, _ => Raise struct_error
  end.

(** The characters [str.lstrip()] removes. *)
Definition is_space (c : byte) : bool :=
  bool_decide (c ∈ [x20; x09; x0a; x0d; x0b; x0c]).

(** [line.lstrip()] *)
Fixpoint lstrip (line : bytes) : bytes :=
  match line with
  | c :: rest => if is_space c then lstrip rest else line
  | [] => []
  end.

(** ** Strings of both kinds, and the attributes of [const] *)

(** What the list [marks] of [encode_source_code_lines] holds: byte
    strings, and the text (its code points) that the [decode] of
    Python 3 returns. *)
Inductive chunk : Type :=
  | Bytes (data : bytes)
  | Text (points : list Z).

(** [len(c)] *)
Definition chunk_len (c : chunk) : Z :=
  match c with
  | Bytes data => len data
  | Text points => len points
  end.

Definition chunk_bytes (c : chunk) : option bytes :=
  match c with
  | Bytes data => Some data
  | Text _ => None
  end.

Definition chunk_text (c : chunk) : option (list Z) :=
  match c with
  | Bytes _ => None
  | Text points => Some points
  end.

(** The text a chunk stands for when Python 2 mixes it with text: a
    byte string is decoded as ASCII. *)
Definition chunk_unicode (c : chunk) : option (list Z) :=
  match c with
  | Bytes data =>
      if forallb (λ c, Z.of_N (Byte.to_N c) <? 128) data
      then Some ((λ c, Z.of_N (Byte.to_N c)) <$> data)
      else None
  | Text points => Some points
  end.

(** [const.name] for the name of a marker: the attribute of the module
    constants.py, or [AttributeError] when the module binds no such
    name. *)
Definition const_mark (name : string) : outcome bytes :=
  match dict_get name MARK_NAMES with
  | Some mark => Return mark
  | None => Raise AttributeError
  end.

Module TraceForest.

(** [TraceForest(version, keep_data=True)] *)
Definition init (version : Z) (keep_data : bool) : TraceForest :=
  mkTraceForest version [] [] ∅ None [] 0 [] keep_data [].

Definition set_traces (v : list (Z * ref)) (f : TraceForest) : TraceForest :=
  mkTraceForest (version f) (roots f) v (addrs f) (last_trace f) (resops f)
                (timepos f) (patches f) (keep f) (source_lines f).

Definition set_last_trace (v : option ref) (f : TraceForest) : TraceForest :=
  mkTraceForest (version f) (roots f) (traces f) (addrs f) v (resops f)
                (timepos f) (patches f) (keep f) (source_lines f).

Definition set_timepos (v : Z) (f : TraceForest) : TraceForest :=
  mkTraceForest (version f) (roots f) (traces f) (addrs f) (last_trace f)
                (resops f) v (patches f) (keep f) (source_lines f).

Definition set_patches (v : list patch) (f : TraceForest) : TraceForest :=
  mkTraceForest (version f) (roots f) (traces f) (addrs f) (last_trace f)
                (resops f) (timepos f) v (keep f) (source_lines f).

Definition set_source_lines (v : list (string * list (Z * bytes)))
    (f : TraceForest) : TraceForest :=
  mkTraceForest (version f) (roots f) (traces f) (addrs f) (last_trace f)
                (resops f) (timepos f) (patches f) (keep f) v.

(** The forest [self] of a method is the forest of the store. *)
Definition update (f : TraceForest → TraceForest) : M Store unit :=
  modify (λ s, set_forest (f (forest s)) s).

Definition get_trace (self : TraceForest) (id : Z) : option ref :=
  dict_get id (traces self).

Definition get_trace_by_addr (self : TraceForest) (addr : Z) : option ref :=
  addrs self !! addr.

(** [add_trace]: the new object gets the next free reference. *)
Definition add_trace (trace_type : string) (unique_id : Z) : M Store ref :=
  let* s := get in
  let* trace := lift (Trace.init trace_type (timepos (forest s)) unique_id) in
  let r := length (objects s) in
  modify (set_objects (objects s ++ [trace])) ;;
  update (λ self, set_traces (dict_set unique_id r (traces self)) self) ;;
  update (set_last_trace (Some r)) ;;
  ret r.

(** The [for ... else] of [stitch_bridge] over [self.traces.items()],
    for the items in the order [items] in which the loop meets them. *)
Fixpoint stitch_bridge_loop (items : list (Z * ref))
    (descr_number : option Z) (addr_to : Z) : M Store unit :=
  match items with
  | [] => raise NotImplementedError
  | (tid, r) :: rest =>
      let* trace := deref r in
      if bool_decide (descr_number ∈ Trace.descr_numbers trace) then
        call r (λ forest,
          Trace.stitch_bridge (timepos forest) descr_number addr_to)
      else stitch_bridge_loop rest descr_number addr_to
  end.

Definition stitch_bridge (descr_number : option Z) (addr_to : Z)
    : M Store unit :=
  let* s := get in
  stitch_bridge_loop (traces (forest s)) descr_number addr_to.

Definition patch_memory (addr : Z) (content : bytes) (timeval : Z)
    : M Store unit :=
  update (λ self, set_patches (patches self ++ [(timeval, addr, content)]) self).

Definition time_tick : M Store unit :=
  update (λ self, set_timepos (timepos self + 1) self).

Section SourceCode.

(** The flag of the module, [PY3 = sys.version_info[0] >= 3]. *)
Variable PY3 : bool.

(** The order in which [d.items()] hands out the entries of a dict [d].
    It is left open: Python 2 walks the hash table, later interpreters
    the entries as they were inserted. The properties assume of it
    only that it gives a permutation of the entries. *)
Variable items : ∀ A : Type, list A → list A.

(** The file system: the content [open(file, 'rb').read()] returns,
    or [None] when the file cannot be opened. *)
Variable disk : string → option bytes.

(** The extraction loop carries the local [file_contents] next to the
    store. *)
Definition XS : Type := gmap string (list bytes) * Store.

Definition on_store {A} (m : M Store A) : M XS A :=
  λ '(fc, s), let '(o, s') := m s in (o, (fc, s')).

(** [if file not in file_contents]: the file is opened and read; under
    [PY3] the next statement is [data.encode('utf-8')] on what was
    read in binary mode, and a Python 3 [bytes] has no [encode];
    otherwise the data is split into lines and cached. *)
Definition load_file (file : string) : M XS unit :=
  let* (file_contents, _) := get in
  if bool_decide (file_contents !! file = None) then
    match disk file with
    | None => raise IOError
    | Some data =>
        on_store (modify (λ s, set_reads (reads s ++ [file]) s)) ;;
        if PY3 then raise AttributeError
        else modify (λ '(fc, s), (<[file := splitlines data]> fc, s))
    end
  else ret tt.

(** The rest of the loop body: the lines of the ranges are appended
    to [self.source_lines[file]]; [iter_ranges] sorts the list of the
    trace in place. *)
Definition save_lines (r : ref) (file : string) (lines : list Z)
    : M XS unit :=
  let* (file_contents, _) := get in
  let split_lines := default [] (file_contents !! file) in
  on_store (update (λ self,
    set_source_lines (dd_touch file (source_lines self)) self)) ;;
  on_store (call r (λ _, modify (λ trace,
    Trace.set_merge_point_files
      (dict_set file (sort lines) (Trace.merge_point_files trace)) trace))) ;;
  for_each (iter_ranges lines) (λ range,
    for_each range (λ r,
      let* line := lift (index split_lines (r - 1)) in
      on_store (update (λ self,
        set_source_lines (dd_append file (r, line) (source_lines self))
                         self)))).

(** The body of the loop over [trace.merge_point_files.items()], for
    the trace behind [r]. *)
Definition extract_file (r : ref) (file : string) (lines : list Z)
    : M XS unit :=
  load_file file ;; save_lines r file lines.

Definition extract_trace (item : Z * ref) : M XS unit :=
  let* trace := on_store (deref item.2) in
  for_each (items _ (Trace.merge_point_files trace)) (λ '(file, lines),
    extract_file item.2 file lines).

Definition extract_source_code_lines : M Store unit :=
  λ s, let '(o, (_, s')) :=
         for_each (items _ (traces (forest s))) extract_trace (∅, s) in
       (o, s').

End SourceCode.

Section Encode.

Variable PY3 : bool.
Variable items : ∀ A : Type, list A → list A.

(** [data.decode('utf-8')] of Python 3: the code points of the text,
    or [None] when the bytes are no UTF-8. *)
Variable utf8 : bytes → option (list Z).

(** [if PY3: data = data.decode('utf-8')] *)
Definition decode (data : bytes) : outcome chunk :=
  if PY3 then
    match utf8 data with
    | Some points => Return (Text points)
    | None => Raise UnicodeDecodeError
    end
  else Return (Bytes data).

(** [marks.append(c)] *)
Definition append (c : chunk) : M (list chunk) unit :=
  modify (λ marks, marks ++ [c]).

(** The indentation measure of [line], [diff] being the number of
    characters [lstrip] removed. The test is [line[i] == '\t']: an
    item of a Python 3 [bytes] is an integer and equals no [str]. *)
Definition indentation (line : bytes) (diff : Z) : Z :=
  foldl (λ indent i,
           if negb PY3 && bool_decide (line !! Z.to_nat i = Some x09)
           then indent + 7 else indent)
        diff (range 0 diff).

(** The body of the inner loop, for one line. *)
Definition encode_line (entry : Z * bytes) : M (list chunk) unit :=
  let '(lineno, line) := entry in
  let data := lstrip line in
  let diff := len line - len data in
  let indent := indentation line diff in
  let* data := lift (decode data) in
  let* header := lift (pack_HBI lineno indent (chunk_len data)) in
  append (Bytes header) ;;
  append data.

(** The body of the outer loop, for one file. Its first statement
    reads [const.MARK_SOURCE_CODE]. *)
Definition encode_file (item : string * list (Z * bytes))
    : M (list chunk) unit :=
  let '(filename, lines) := item in
  let* marker := lift (const_mark "MARK_SOURCE_CODE") in
  append (Bytes marker) ;;
  let* data := lift (decode (b filename)) in
  let* name_len := lift (pack_I (chunk_len data)) in
  append (Bytes name_len) ;;
  append data ;;
  let* count := lift (pack_I (len lines)) in
  append (Bytes count) ;;
  for_each lines encode_line.

(** [''.join(marks)]. On Python 3 the separator is text and every
    chunk has to be text. On Python 2 the result is a [str], unless a
    chunk is text: then the byte strings are decoded as ASCII and the
    result is text. *)
Definition join (marks : list chunk) : outcome chunk :=
  if PY3 then
    match mapM chunk_text marks with
    | Some texts => Return (Text (concat texts))
    | None => Raise TypeError
    end
  else
    match mapM chunk_bytes marks with
    | Some parts => Return (Bytes (concat parts))
    | None =>
        match mapM chunk_unicode marks with
        | Some texts => Return (Text (concat texts))
        | None => Raise UnicodeDecodeError
        end
    end.

Definition encode_source_code_lines (self : TraceForest) : outcome chunk :=
  match for_each (items _ (source_lines self)) encode_file [] with
  | (Return _, marks) => join marks
  | (Raise e, _) => Raise e
  end.

End Encode.

End TraceForest.

(** ** Decode sessions used as concrete inputs *)

Definition empty_store : Store := mkStore [] (TraceForest.init 1 true) [].

(** A plain operation without descriptor. *)
Definition plain_op (name : string) : op :=
  Flat (FlatOp.FlatOp 0 name [] None None None None).

(** The events of one assembled loop: the trace is created, its
    assembly stage receives one operation per capture
    [(rel_pos, dump)], and the address bounds are set. *)
Definition assemble (unique_id : Z) (captures : list (Z * bytes))
    (lo hi : Z) : M Store ref :=
  let* r := TraceForest.add_trace "loop" unique_id in
  call r (λ forest, Trace.start_mark forest MARK_TRACE_ASM) ;;
  for_each captures (λ '(rel_pos, dump),
    call r (λ _, Trace.add_instr (plain_op "mov")) ;;
    call r (λ _, Trace.set_core_dump_to_last_op rel_pos dump)) ;;
  call r (λ _, Trace.set_addr_bounds lo hi) ;;
  ret r.

(** [n] clock ticks. *)
Fixpoint ticks (n : nat) : M Store unit :=
  match n with
  | O => ret tt
  | S n' => TraceForest.time_tick ;; ticks n'
  end.

(** The patch is stamped with the clock of the forest. *)
Definition patch_now (addr : Z) (content : bytes) : M Store unit :=
  let* s := get in
  TraceForest.patch_memory addr content (timepos (forest s)).

(** One capture ["AAAAAAAA"] at offset 0 of a trace based at 1000, and
    the patch ["XX"] at 1002 recorded at time 5. *)
Definition patched_session : M Store ref :=
  let* r := assemble 7 [(0, b "AAAAAAAA")] 1000 1007 in
  ticks 5 ;;
  patch_now 1002 (b "XX") ;;
  ret r.

(** Three captures and no patch. *)
Definition three_ops_session : M Store ref :=
  assemble 7 [(0, b "A"); (1, b "B"); (2, b "C")] 1000 1002.

(** A trace aborted before assembly: only its unoptimized stage
    exists. *)
Definition aborted_session : M Store ref :=
  let* r := TraceForest.add_trace "loop" 7 in
  call r (λ forest, Trace.start_mark forest MARK_TRACE) ;;
  call r (λ _, Trace.add_instr (plain_op "int_add")) ;;
  ret r.

(** The query [trace.get_core_dump(timeval, opslice)] after a
    session. *)
Definition core_dump_after (session : M Store ref) (timeval : Z)
    (opslice : Z * Z) : outcome (option bytes) :=
  (bind session (λ r,
     call r (λ forest, Trace.get_core_dump forest timeval opslice))
     empty_store).1.

(** ** Specifications the code is compared with *)

(** The closed range of line numbers [[first, last]]. *)
Definition closed_range (r : Z * Z) : list Z := range r.1 (r.2 + 1).

(** The last element of a run that starts at [first]. *)
Definition run_end (first : Z) (run : list Z) : Z := default first (last run).

(** Range compression, in the words of the design: a run starts at a
    number, extends over the following numbers that are within 50 of
    its start, and is closed by the first number beyond that gap,
    which starts the next run. *)
Inductive runs : list Z → list (Z * Z) → Prop :=
  | runs_nil : runs [] []
  | runs_last first run :
      Forall (λ i, i - first ≤ 50) run →
      runs (first :: run) [(first, run_end first run)]
  | runs_next first run i rest rs :
      Forall (λ i, i - first ≤ 50) run →
      i - first > 50 →
      runs (i :: rest) rs →
      runs (first :: run ++ i :: rest) ((first, run_end first run) :: rs).

(** A trace whose current phase has its stage. *)
Definition current_stage_exists (trace : Trace.t) : Prop :=
  ∀ m, Trace.last_mark trace = Some m → is_Some (Trace.stages trace !! m).

(** An operation whose merge-point tags all have a name. *)
Definition named_tags (o : op) : Prop :=
  match o with
  | Flat _ => True
  | Merge values =>
      Forall (λ v, is_Some (SEM_TYPE_NAMES !! sem_type v)) values
  end.

(** [for op in ops: trace.add_instr(op)] *)
Definition add_instrs (ops : list op) : M Trace.t unit :=
  for_each ops Trace.add_instr.

(** The file is named in the merge-point index of a trace of the
    forest. *)
Definition referenced (s : Store) (file : string) : Prop :=
  ∃ tid r trace lines,
    (tid, r) ∈ traces (forest s)
    ∧ objects s !! r = Some trace
    ∧ (file, lines) ∈ Trace.merge_point_files trace.

(** The trace behind [r] is the only trace of the forest that has
    registered [descr_number]. *)
Definition sole_owner (s : Store) (descr_number : option Z) (r : ref)
    : Prop :=
  (∃ tid, (tid, r) ∈ traces (forest s))
  ∧ ∀ tid' r' trace',
      (tid', r') ∈ traces (forest s) →
      objects s !! r' = Some trace' →
      descr_number ∈ Trace.descr_numbers trace' → r' = r.

(** Two traces, the second of which has registered descriptor 5 through
    a guard operation. *)
Definition guard_op : op :=
  Flat (FlatOp.FlatOp 9 "guard_true" ["i0"%string] None
                      (Some "descr9"%string) (Some 5) None).

Definition two_traces_session : M Store unit :=
  let* r1 := TraceForest.add_trace "loop" 1 in
  call r1 (λ forest, Trace.start_mark forest MARK_TRACE) ;;
  call r1 (λ _, Trace.add_instr (plain_op "int_add")) ;;
  let* r2 := TraceForest.add_trace "loop" 2 in
  call r2 (λ forest, Trace.start_mark forest MARK_TRACE) ;;
  call r2 (λ _, Trace.add_instr guard_op) ;;
  TraceForest.time_tick.

Definition two_traces_store : Store := (two_traces_session empty_store).2.

(** The trace [trace] after [stitch_bridge] appended one record. *)
Definition with_bridge (timeval : Z) (descr_number : option Z) (addr_to : Z)
    (trace : Trace.t) : Trace.t :=
  Trace.set_bridges
    (Trace.bridges trace ++ [(timeval, descr_number, addr_to)]) trace.

(** The phase markers and the stage names [start_mark] gives them. *)
Definition phases : list (bytes * string) :=
  [(MARK_TRACE, "noopt"%string); (MARK_TRACE_OPT, "opt"%string);
   (MARK_TRACE_ASM, "asm"%string)].

(** The trace after [start_mark] opened the stage [name] at [tick]. *)
Definition with_fresh_stage (name : string) (tick : Z) (trace : Trace.t)
    : Trace.t :=
  Trace.set_stages (<[name := Stage.Stage name [] tick]> (Trace.stages trace))
                   (Trace.set_last_mark (Some name) trace).

(** A trace in its optimized phase, and two spans of operations. *)
Definition optimized_trace : Trace.t :=
  Trace.Trace "loop" [] 7 (<["opt"%string := Stage.Stage "opt" [] 0]> ∅)
              (Some "opt"%string) (-1, -1) None [] ∅ 0 [].

Definition forest_at (tick : Z) : TraceForest :=
  TraceForest.set_timepos tick (TraceForest.init 1 true).

Definition preamble_ops : list op :=
  [plain_op "label"; Merge [MP_FILENAME "a.py"; MP_LINENO 3];
   plain_op "int_add"].

Definition loop_ops : list op := [plain_op "label"; plain_op "jump"].

(** An operation with a descriptor number but no descriptor. *)
Definition numbered_op : op :=
  Flat (FlatOp.FlatOp 9 "guard_true" ["i0"%string] None None (Some 5) None).

(** A trace in its unoptimized phase, with an empty stage. *)
Definition unoptimized_trace : Trace.t :=
  with_fresh_stage "noopt" 0 optimized_trace.

(** One assembled trace with the address bounds 1000..1007. *)
Definition bounded_store : Store :=
  (assemble 7 [(0, b "AAAAAAAA")] 1000 1007 empty_store).2.

(** A forest whose source lines hold one file with two lines. *)
Definition forest_with_lines (lineno : Z) : TraceForest :=
  TraceForest.set_source_lines
    [("a.py"%string, [(3, [x20; x09] ++ b "x = 1"); (lineno, b "y")])]
    (TraceForest.init 1 true).

(** What holds of the local [file_contents] and of the store
    throughout an extraction that started in the store [s0]: the files
    read so far are distinct and are the keys of [file_contents], all
    of them readable; no unreadable file has got lines; every file a
    trace referenced at the start is still referenced by it. *)
Definition extraction_invariant (disk : string → option bytes) (s0 : Store)
    (st : gmap string (list bytes) * Store) : Prop :=
  (∃ new,
     reads st.2 = reads s0 ++ new
     ∧ NoDup new
     ∧ ∀ f, f ∈ new ↔ is_Some (st.1 !! f))
  ∧ (∀ f, is_Some (st.1 !! f) → is_Some (disk f))
  ∧ (∀ f, disk f = None →
          dict_get f (source_lines (forest st.2))
          = dict_get f (source_lines (forest s0)))
  ∧ ∀ r trace0 file lines0,
      objects s0 !! r = Some trace0 →
      (file, lines0) ∈ Trace.merge_point_files trace0 →
      ∃ trace lines,
        objects st.2 !! r = Some trace
        ∧ (file, lines) ∈ Trace.merge_point_files trace.

(** What holds of a run: [I] of the state it returns in, [J] of the
    state it raises in. *)
Definition after {S A} (I J : S → Prop) (r : outcome A * S) : Prop :=
  match r.1 with
  | Return _ => I r.2
  | Raise _ => J r.2
  end.

(** What holds of the store when an extraction that started in the
    store [s0] ends, whatever its outcome: the files read are distinct
    and readable, and no unreadable file has got lines. *)
Definition extraction_result (disk : string → option bytes) (s0 : Store)
    (st : gmap string (list bytes) * Store) : Prop :=
  (∃ new,
     reads st.2 = reads s0 ++ new
     ∧ NoDup new
     ∧ ∀ f, f ∈ new → is_Some (disk f))
  ∧ ∀ f, disk f = None →
         dict_get f (source_lines (forest st.2))
         = dict_get f (source_lines (forest s0)).

(** A disk that holds ["ok.py"] only. *)
Definition small_disk (file : string) : option bytes :=
  if bool_decide (file = "ok.py"%string)
  then Some (b "x = 1" ++ [x0a] ++ b "y = 2" ++ [x0a])
  else None.

(** A trace whose merge points refer to ["missing.py"] and then to
    ["ok.py"], and a second trace that refers to ["ok.py"] again. *)
Definition merge_points_session (first_file : string) : M Store unit :=
  let* r1 := TraceForest.add_trace "loop" 1 in
  call r1 (λ forest, Trace.start_mark forest MARK_TRACE) ;;
  call r1 (λ _, Trace.add_instr (Merge [MP_FILENAME first_file; MP_LINENO 1])) ;;
  call r1 (λ _, Trace.add_instr (Merge [MP_FILENAME "ok.py"; MP_LINENO 2])) ;;
  let* r2 := TraceForest.add_trace "bridge" 2 in
  call r2 (λ forest, Trace.start_mark forest MARK_TRACE) ;;
  call r2 (λ _, Trace.add_instr (Merge [MP_FILENAME "ok.py"; MP_LINENO 1])).

Definition merge_points_store (first_file : string) : Store :=
  (merge_points_session first_file empty_store).2.

(** ** Further specifications and concrete inputs *)

(** The value of the last ["filename"] entry of a merge point. *)
Definition last_filename (values : list sem_value) : option string :=
  last (omap (λ v, match v with MP_FILENAME s => Some s | _ => None end)
             values).

(** The value of the last ["lineno"] entry of a merge point. *)
Definition last_lineno (values : list sem_value) : option Z :=
  last (omap (λ v, match v with MP_LINENO i => Some i | _ => None end)
             values).

(** The tag of the entry is a key of [SEM_TYPE_NAMES]. *)
Definition named_tag (v : sem_value) : Prop :=
  is_Some (SEM_TYPE_NAMES !! sem_type v).

#[local] Instance named_tag_dec v : Decision (named_tag v).
Proof. unfold named_tag. apply _. Defined.

(** A trace in its unoptimized phase whose stage holds two plain
    operations. *)
Definition two_op_trace : Trace.t :=
  Trace.set_stages
    (<["noopt"%string :=
         Stage.Stage "noopt" [plain_op "label"; plain_op "int_add"] 0]> ∅)
    unoptimized_trace.

(** A trace as [Trace(forest, 'loop', tick, 7)] creates it. *)
Definition fresh_trace : Trace.t :=
  Trace.Trace "loop" [] 7 ∅ None (-1, -1) None [] ∅ 0 [].

(** The source position a merge point resolves to, when its file name
    is usable as a key of [merge_point_files]. *)
Definition source_position (values : list sem_value) : option (string * Z) :=
  match last_filename values, last_lineno values with
  | Some filename, Some lineno =>
      if bool_decide (filename ≠ ""%string) then Some (filename, lineno)
      else None
  | _, _ => None
  end.

(** ** Marker recognition: [TraceForest.is_jitlog_marker] *)

(** [x <= y] on Python 2 [str]: the order of the byte sequences. *)
Fixpoint str_le (x y : bytes) : bool :=
  match x, y with
  | [], _ => true
  | _ :: _, [] => false
  | c :: x', d :: y' =>
      if (Byte.to_N c <? Byte.to_N d)%N then true
      else if (Byte.to_N c =? Byte.to_N d)%N then str_le x' y'
      else false
  end.

(** [TraceForest.is_jitlog_marker(marker)] *)
Definition is_jitlog_marker (marker : bytes) : outcome bool :=
  if bool_decide (marker = []) then Return false
  else if bool_decide (len marker = 1)
       then Return (str_le MARK_JITLOG_START marker
                    && str_le marker MARK_JITLOG_END)
       else Raise AssertionError.

(** ** Structured serialization: the [_serialize] methods *)

(** The keys the serialized dictionaries use. *)
Inductive key : Type :=
  | KStr (s : string)
  | KInt (i : Z).

#[global] Instance key_eq_decision : EqDecision key.
Proof. solve_decision. Defined.

(** The values the [_serialize] methods build. *)
#[warnings="-register-all"]
Inductive pyvalue : Type :=
  | PInt (i : Z)
  | PStr (s : string)
  | PBytes (s : bytes)
  | PList (l : list pyvalue)
  | PTuple (l : list pyvalue)
  | PDict (d : list (key * pyvalue)).

(** The Python value of a merge-point entry. *)
Definition sem_pyvalue (v : sem_value) : pyvalue :=
  match v with
  | MP_STR s | MP_FILENAME s | MP_SCOPE s | MP_OPCODE s => PStr s
  | MP_INT i | MP_LINENO i | MP_INDEX i => PInt i
  end.

(** [merge_points[index].append(result)] on the [defaultdict(list)];
    the keys this is called with hold lists. *)
Fixpoint append_point (index : key) (result : pyvalue)
    (d : list (key * pyvalue)) : list (key * pyvalue) :=
  match d with
  | [] => [(index, PList [result])]
  | (k, v) :: d' =>
      if decide (k = index)
      then (k, match v with PList l => PList (l ++ [result]) | _ => v end)
             :: d'
      else (k, v) :: append_point index result d'
  end.

Section Serialize.

(** The builtin [hex], whose text for a number depends on the
    interpreter's integer type. *)
Variable hex : Z → string.

(** [FlatOp._serialize] *)
Definition FlatOp_serialize (self : FlatOp.t) : list (key * pyvalue) :=
  let dict := [(KStr "num", PInt (FlatOp.opnum self));
               (KStr "args", PList (PStr <$> FlatOp.args self))] in
  let dict :=
    match FlatOp.result self with
    | Some res =>
        if bool_decide (res ≠ ""%string)
        then dict_set (KStr "res") (PStr res) dict else dict
    | None => dict
    end in
  let dict :=
    match FlatOp.descr self with
    | Some descr =>
        if bool_decide (descr ≠ ""%string)
        then dict_set (KStr "descr") (PStr descr) dict else dict
    | None => dict
    end in
  let dict :=
    match FlatOp.core_dump self with
    | Some (rel_pos, dump) =>
        dict_set (KStr "dump") (PTuple [PInt rel_pos; PBytes dump]) dict
    | None => dict
    end in
  match FlatOp.descr_number self with
  | Some n =>
      if bool_decide (n ≠ 0)
      then dict_set (KStr "descr_number") (PStr (hex n)) dict else dict
  | None => dict
  end.

(** [MergePoint._serialize]: the loop over [self.values]. *)
Fixpoint MergePoint_serialize_loop (values : list sem_value)
    (dict : list (key * pyvalue)) : outcome (list (key * pyvalue)) :=
  match values with
  | [] => Return dict
  | value :: rest =>
      match SEM_TYPE_NAMES !! sem_type value with
      | None => Raise KeyError
      | Some name =>
          MergePoint_serialize_loop rest
            (dict_set (KStr name) (sem_pyvalue value) dict)
      end
  end.

Definition MergePoint_serialize (values : list sem_value)
    : outcome (list (key * pyvalue)) :=
  MergePoint_serialize_loop values [].

(** [op._serialize()] *)
Definition op_serialize (o : op) : outcome pyvalue :=
  match o with
  | Flat f => Return (PDict (FlatOp_serialize f))
  | Merge values =>
      match MergePoint_serialize values with
      | Return d => Return (PDict d)
      | Raise e => Raise e
      end
  end.

(** [Stage._serialize]: the loop over [self.ops], with the list [ops]
    and the dictionary [merge_points] built so far. *)
Fixpoint Stage_serialize_loop (todo : list op) (ops : list pyvalue)
    (merge_points : list (key * pyvalue))
    : outcome (list pyvalue * list (key * pyvalue)) :=
  match todo with
  | [] => Return (ops, merge_points)
  | o :: rest =>
      match op_serialize o with
      | Raise e => Raise e
      | Return result =>
          match o with
          | Merge _ =>
              let index := len ops in
              let merge_points :=
                append_point (KInt index) result merge_points in
              let merge_points :=
                if bool_decide (len merge_points = 1)
                then dict_set (KStr "first") (PInt index) merge_points
                else merge_points in
              Stage_serialize_loop rest ops merge_points
          | Flat _ => Stage_serialize_loop rest (ops ++ [result]) merge_points
          end
      end
  end.

Definition Stage_serialize (self : Stage.t) : outcome pyvalue :=
  match Stage_serialize_loop (Stage.ops self) [] [] with
  | Raise e => Raise e
  | Return (ops, merge_points) =>
      Return (PDict [(KStr "ops", PList ops);
                     (KStr "tick", PInt (Stage.timeval self));
                     (KStr "merge_points", PDict merge_points)])
  end.

(** What an operation serializes to when it does. *)
Definition serialized (o : op) : pyvalue :=
  match op_serialize o with
  | Return v => v
  | Raise _ => PDict []
  end.

End Serialize.

(** The operations of a stage that are no merge points. *)
Fixpoint plain_ops (ops : list op) : list op :=
  match ops with
  | [] => []
  | Flat f :: rest => Flat f :: plain_ops rest
  | Merge _ :: rest => plain_ops rest
  end.

(** The merge points of [ops] that have exactly [k] other operations
    before them, [n] operations having come before [ops]. *)
Fixpoint points_from (n : Z) (ops : list op) (k : Z) : list op :=
  match ops with
  | [] => []
  | Flat _ :: rest => points_from (n + 1) rest k
  | Merge values :: rest =>
      (if bool_decide (n = k) then [Merge values] else [])
        ++ points_from n rest k
  end.

(** The number of other operations before the first merge point of
    [ops], [n] operations having come before [ops]. *)
Fixpoint first_point_from (n : Z) (ops : list op) : option Z :=
  match ops with
  | [] => None
  | Flat _ :: rest => first_point_from (n + 1) rest
  | Merge _ :: _ => Some n
  end.

(** A stage with merge points before the first and after the second
    of its three other operations. *)
Definition annotated_stage : Stage.t :=
  Stage.Stage "noopt"
    [Merge [MP_FILENAME "a.py"; MP_LINENO 1];  plain_op "label";
     plain_op "int_add"; Merge [MP_LINENO 2]; Merge [MP_LINENO 3];
     plain_op "jump"] 4.

(** The list kept under a key of [merge_points] after [new] was
    appended to what [old] held. *)
Definition extended (old : option pyvalue) (new : list pyvalue)
    : option pyvalue :=
  match new with
  | [] => old
  | _ => Some (PList (match old with Some (PList l) => l | _ => [] end
                        ++ new))
  end.

(** The index keys of the dictionary hold lists. *)
Definition holds_lists (d : list (key * pyvalue)) : Prop :=
  Forall (λ e : key * pyvalue,
            match e.1 with
            | KInt _ => ∃ l, e.2 = PList l
            | KStr _ => True
            end) d.

(** ** The lines an extraction saves *)

(** Line [n] of a file split into lines: lines are counted from 1,
    and a number that is not positive counts from the end, 0 being the
    last line. *)
Definition line_of (split_lines : list bytes) (n : Z) : bytes :=
  default []
    (split_lines !! Z.to_nat (if 1 <=? n then n - 1
                              else n - 1 + len split_lines)).

(** The entries one pair (file, line numbers) of a merge-point index
    adds to the source lines of the file: every line of every range,
    with its number. *)
Definition saved_lines (disk : string → option bytes) (file : string)
    (lines : list Z) : list (Z * bytes) :=
  (λ n, (n, line_of (from_option splitlines [] (disk file)) n))
    <$> concat (iter_ranges lines).

(** The source lines after one pair was processed. *)
Definition add_entry (disk : string → option bytes)
    (d : list (string * list (Z * bytes))) (e : string * list Z)
    : list (string * list (Z * bytes)) :=
  foldl (λ d x, dd_append e.1 x d) (dd_touch e.1 d)
        (saved_lines disk e.1 e.2).

(** The pairs (file, line numbers) of the merge-point indexes that the
    traces of [pairs] hold in the store [s], trace after trace, each
    index in the order [items] in which the dict hands out its
    entries. *)
Definition visited (items : ∀ A : Type, list A → list A) (s : Store)
    (pairs : list (Z * ref)) : list (string * list Z) :=
  pairs ≫= λ item,
    from_option (λ trace, items _ (Trace.merge_point_files trace)) []
                (objects s !! item.2).

(** The pairs of the traces of the forest, in the order in which the
    extraction visits them. *)
Definition entries (items : ∀ A : Type, list A → list A) (s : Store)
    : list (string * list Z) :=
  visited items s (items _ (traces (forest s))).

(** The pair can be processed: the module runs with [PY3] false, the
    file of the pair is readable and has all the lines the pair asks
    for, counted from the start or from the end. *)
Definition valid_entry (PY3 : bool) (disk : string → option bytes)
    (e : string * list Z) : Prop :=
  PY3 = false
  ∧ ∃ data,
      disk e.1 = Some data
      ∧ Forall (λ n, 1 - len (splitlines data) ≤ n ≤ len (splitlines data))
               e.2.

(** The cached contents are the lines of the files on disk, and
    nothing is cached under [PY3]. *)
Definition cache_of (PY3 : bool) (disk : string → option bytes)
    (fc : gmap string (list bytes)) : Prop :=
  ∀ file split_lines,
    fc !! file = Some split_lines →
    PY3 = false
    ∧ ∃ data, disk file = Some data ∧ split_lines = splitlines data.

(** The store with other source lines. *)
Definition with_lines (v : list (string * list (Z * bytes))) (s : Store)
    : Store :=
  set_forest (TraceForest.set_source_lines v (forest s)) s.

(** The trace after [iter_ranges] sorted the line numbers of one of
    its files. *)
Definition sorted_entry (file : string) (lines : list Z) (trace : Trace.t)
    : Trace.t :=
  Trace.set_merge_point_files
    (dict_set file (sort lines) (Trace.merge_point_files trace)) trace.

#[local] Instance valid_entry_dec PY3 disk e :
  Decision (valid_entry PY3 disk e).
Proof.
  unfold valid_entry. destruct PY3.
  - right. by intros [[=] _].
  - destruct (disk e.1) as [data |].
    + destruct (decide (Forall (λ n, 1 - len (splitlines data) ≤ n
                                     ≤ len (splitlines data)) e.2))
        as [Hyes | Hno].
      * left. split; [reflexivity |]. by exists data.
      * right. intros (_ & data' & [= <-] & Hlines). by apply Hno.
    + right. by intros (_ & data' & [=] & _).
Defined.

(** The orders a dict can hand its entries out in that the concrete
    inputs are run with: as inserted, and reversed. *)
Definition as_inserted (A : Type) (l : list A) : list A := l.

Definition reversed (A : Type) (l : list A) : list A := reverse l.

(** One trace whose merge points refer to ["missing.py"] and then to
    ["ok.py"]: the only dict with more than one entry is the
    merge-point index of the trace, which has two. *)
Definition two_files_session : M Store unit :=
  let* r := TraceForest.add_trace "loop" 1 in
  call r (λ forest, Trace.start_mark forest MARK_TRACE) ;;
  call r (λ _, Trace.add_instr (Merge [MP_FILENAME "missing.py"; MP_LINENO 1])) ;;
  call r (λ _, Trace.add_instr (Merge [MP_FILENAME "ok.py"; MP_LINENO 2])).

Definition two_files_store : Store := (two_files_session empty_store).2.

(** ** The calls a decoder makes on the engine *)

(** The methods of a [Trace] that change it. *)
Inductive trace_call : Type :=
  | StartMark (mark : bytes)
  | AddInstr (o : op)
  | SetCoreDumpToLastOp (rel_pos : Z) (dump : bytes)
  | SetInputargs (args : list string)
  | SetAddrBounds (a b : Z)
  | TraceStitchBridge (timeval : Z) (descr_number : option Z) (addr_to : Z)
  | GetCoreDump (timeval : Z) (opslice : Z * Z).

(** The methods of the [TraceForest] that change it or its traces, and
    the calls on a trace the forest has created. *)
Inductive engine_call : Type :=
  | AddTrace (trace_type : string) (unique_id : Z)
  | StitchBridge (descr_number : option Z) (addr_to : Z)
  | PatchMemory (addr : Z) (content : bytes) (timeval : Z)
  | TimeTick
  | ExtractSourceCodeLines
  | OnTrace (r : ref) (c : trace_call).

Definition run_trace_call (c : trace_call) (forest : TraceForest)
    : M Trace.t unit :=
  match c with
  | StartMark mark => Trace.start_mark forest mark
  | AddInstr o => Trace.add_instr o
  | SetCoreDumpToLastOp rel_pos dump =>
      Trace.set_core_dump_to_last_op rel_pos dump
  | SetInputargs args => Trace.set_inputargs args
  | SetAddrBounds a b => Trace.set_addr_bounds a b
  | TraceStitchBridge timeval descr_number addr_to =>
      Trace.stitch_bridge timeval descr_number addr_to
  | GetCoreDump timeval opslice =>
      Trace.get_core_dump forest timeval opslice ;; ret tt
  end.

Section Sessions.

Variable PY3 : bool.
Variable items : ∀ A : Type, list A → list A.
Variable disk : string → option bytes.

Definition run_call (c : engine_call) : M Store unit :=
  match c with
  | AddTrace trace_type unique_id =>
      TraceForest.add_trace trace_type unique_id ;; ret tt
  | StitchBridge descr_number addr_to =>
      TraceForest.stitch_bridge descr_number addr_to
  | PatchMemory addr content timeval =>
      TraceForest.patch_memory addr content timeval
  | TimeTick => TraceForest.time_tick
  | ExtractSourceCodeLines =>
      TraceForest.extract_source_code_lines PY3 items disk
  | OnTrace r c => call r (run_trace_call c)
  end.

(** The store after the calls, one after the other. A call that
    raises leaves the store as it is at that point, and the decoder
    may go on with the next call. *)
Definition session (calls : list engine_call) (s : Store) : Store :=
  foldl (λ s c, (run_call c s).2) s calls.

End Sessions.

(** The store of a forest as [TraceForest(version, keep_data)] creates
    it. *)
Definition new_store (version : Z) (keep_data : bool) : Store :=
  mkStore [] (TraceForest.init version keep_data) [].

(** * Properties *)

(** ** Lengths *)

Lemma len_nonneg {A} (l : list A) : 0 ≤ len l.
Proof. unfold len. lia. Qed.

Lemma len_app {A} (l k : list A) : len (l ++ k) = len l + len k.
Proof. unfold len. rewrite length_app. lia. Qed.

(** ** Core dumps *)

(** C1: with the capture ["AAAAAAAA"] at offset 0 of a trace based at
    1000 and the patch ["XX"] at 1002 recorded at time 5, the query
    at time 4 returns the capture unchanged, but the query at time 5
    (and the default query, at the latest time) returns the seven
    bytes ["AAXAAAA"]: the overlay drops the last byte of the patch
    content, so the result is not ["AAXXAAAA"]. *)
Theorem patch_overlay_drops_last_byte :
  core_dump_after patched_session 4 Trace.default_opslice
    = Return (Some (b "AAAAAAAA"))
  ∧ core_dump_after patched_session 5 Trace.default_opslice
    = Return (Some (b "AAXAAAA"))
  ∧ core_dump_after patched_session Trace.default_timeval
      Trace.default_opslice
    = Return (Some (b "AAXAAAA"))
  ∧ core_dump_after patched_session 5 Trace.default_opslice
    ≠ Return (Some (b "AAXXAAAA")).
Proof.
  repeat split; try (vm_compute; reflexivity).
  vm_compute. discriminate.
Qed.

(** A patch that starts past the end of a capture makes the overlay
    longer than the capture: the negative [content_end] keeps all but
    the last byte of the content. *)
Lemma patch_overlay_can_grow :
  FlatOp.overlay 0 1000 5 (b "AAAA") (5, 1005, b "XYZ") = b "AAAAXY".
Proof. vm_compute. reflexivity. Qed.

Lemma len_slice_prefix {A} (l : list A) (stop : Z) :
  0 ≤ stop ≤ len l → len (slice l None (Some stop)) = stop.
Proof.
  intros Hstop. unfold slice, slice_index, len in *. cbn [from_option].
  destruct (Z.ltb_spec stop 0) as [Hneg | _]; [lia |].
  rewrite drop_0, length_take. lia.
Qed.

Lemma len_slice_suffix {A} (l : list A) (start : Z) :
  0 ≤ start ≤ len l → len (slice l (Some start) None) = len l - start.
Proof.
  intros Hstart. unfold slice, slice_index, len in *. cbn [from_option].
  destruct (Z.ltb_spec start 0) as [Hneg | _]; [lia |].
  rewrite length_take, length_drop. lia.
Qed.

(** Every applied patch that lies inside the capture makes the dump
    one byte shorter: the last byte of its content is left out. *)
Lemma overlay_inner_patch_shrinks op_off base_addr timeval coredump timepos
    addr content :
  timepos ≤ timeval →
  0 ≤ (addr - base_addr) - op_off →
  0 < len content →
  (addr - base_addr) - op_off + len content < len coredump →
  len (FlatOp.overlay op_off base_addr timeval coredump
         (timepos, addr, content))
  = len coredump - 1.
Proof.
  intros Htime Hstart Hcontent Hend. unfold FlatOp.overlay.
  destruct (Z.ltb_spec timeval timepos) as [Hlt | _]; [lia |].
  destruct (Z.geb_spec (addr - base_addr - op_off + len content)
              (len coredump)) as [Hge | _]; [lia |].
  rewrite !len_app, !len_slice_prefix, len_slice_suffix by lia. lia.
Qed.

(** A patch recorded after the requested time leaves the dump as it
    is. *)
Lemma overlay_later_patch op_off base_addr timeval coredump timepos addr
    content :
  timeval < timepos →
  FlatOp.overlay op_off base_addr timeval coredump (timepos, addr, content)
  = coredump.
Proof.
  intros Hlt. unfold FlatOp.overlay.
  destruct (Z.ltb_spec timeval timepos) as [_ | Hge]; [reflexivity | lia].
Qed.

Lemma slice_from_start {A} (l : list A) (stop : Z) :
  0 ≤ stop → slice l (Some 0) (Some stop) = take (Z.to_nat stop) l.
Proof.
  intros Hstop. unfold slice, slice_index. cbn [from_option].
  change (0 <? 0) with false.
  destruct (Z.ltb_spec stop 0) as [Hneg | _]; [lia |].
  assert (0 ≤ len l) by (unfold len; lia).
  replace (Z.to_nat (Z.min 0 (len l))) with 0%nat by lia.
  rewrite drop_0.
  destruct (Z.min_spec stop (len l)) as [[Hlt ->] | [Hge ->]].
  - f_equal. lia.
  - replace (Z.min 0 (len l)) with 0 by lia. rewrite Z.sub_0_r.
    unfold len in *. rewrite Nat2Z.id, firstn_all. symmetry.
    apply take_ge. lia.
Qed.

Lemma slice_all {A} (l : list A) : slice l (Some 0) (Some (len l)) = l.
Proof.
  rewrite slice_from_start by (unfold len; lia).
  unfold len. rewrite Nat2Z.id. apply firstn_all.
Qed.

Lemma slice_first_two {A} (l : list A) : slice l (Some 0) (Some 2) = take 2 l.
Proof. by rewrite slice_from_start. Qed.

(** Without patches every operation that carries a core dump returns
    its capture. *)
Lemma collect_captures base_addr timeval ops dumps :
  Forall2 (λ o dump, ∃ f op_off,
             o = Flat f ∧ FlatOp.core_dump f = Some (op_off, dump))
          ops dumps →
  collect (λ o, get_core_dump o base_addr [] timeval) ops = Return dumps.
Proof.
  induction 1 as [| o dump ops dumps (f & op_off & -> & Hdump) _ IH].
  - reflexivity.
  - cbn [collect get_core_dump]. unfold FlatOp.get_core_dump.
    rewrite Hdump. cbn [foldl]. by rewrite IH.
Qed.

(** The core dump of a trace without patches, for an arbitrary slice:
    the concatenation of the captures of the operations in the
    slice. *)
Lemma get_core_dump_unpatched forest timeval opslice trace stage dumps :
  patches forest = [] →
  Trace.my_patches trace = None →
  Trace.stages trace !! "asm"%string = Some stage →
  Forall2 (λ o dump, ∃ f op_off,
             o = Flat f ∧ FlatOp.core_dump f = Some (op_off, dump))
          (slice (Stage.ops stage) (Some opslice.1)
                 (Some (if bool_decide (opslice.2 = -1) then 2 else opslice.2)))
          dumps →
  (Trace.get_core_dump forest timeval opslice trace).1
  = Return (Some (concat dumps)).
Proof.
  intros Hpatches Hmine Hstage Hdumps. destruct opslice as [start end_].
  unfold Trace.get_core_dump, bind, get, modify, ret, lift, Trace.get_stage,
    assert.
  rewrite Hmine, Hpatches. cbn. rewrite Hstage. cbn.
  cbn [fst snd] in Hdumps. unfold Stage.get_ops.
  by rewrite (collect_captures _ _ _ dumps Hdumps).
Qed.

(** Asked with the explicit slice [(0, n)] over its [n] operations, a
    trace without patches returns the concatenation of all
    captures. *)
Lemma get_core_dump_explicit_full_slice forest timeval trace stage dumps :
  patches forest = [] →
  Trace.my_patches trace = None →
  Trace.stages trace !! "asm"%string = Some stage →
  Forall2 (λ o dump, ∃ f op_off,
             o = Flat f ∧ FlatOp.core_dump f = Some (op_off, dump))
          (Stage.ops stage) dumps →
  (Trace.get_core_dump forest timeval (0, len (Stage.ops stage)) trace).1
  = Return (Some (concat dumps)).
Proof.
  intros Hpatches Hmine Hstage Hdumps.
  apply (get_core_dump_unpatched _ _ _ _ stage); try assumption.
  cbn [fst snd]. rewrite bool_decide_false by (unfold len; lia).
  by rewrite slice_all.
Qed.

(** Asked with the default slice, it returns the captures of the first
    two operations only. *)
Lemma get_core_dump_default_slice forest timeval trace stage dumps :
  patches forest = [] →
  Trace.my_patches trace = None →
  Trace.stages trace !! "asm"%string = Some stage →
  Forall2 (λ o dump, ∃ f op_off,
             o = Flat f ∧ FlatOp.core_dump f = Some (op_off, dump))
          (Stage.ops stage) dumps →
  (Trace.get_core_dump forest timeval Trace.default_opslice trace).1
  = Return (Some (concat (take 2 dumps))).
Proof.
  intros Hpatches Hmine Hstage Hdumps.
  apply (get_core_dump_unpatched _ _ _ _ stage); try assumption.
  cbn [fst snd Trace.default_opslice]. rewrite bool_decide_true by reflexivity.
  rewrite slice_first_two. by apply Forall2_take.
Qed.

(** C2: three operations carry the captures ["A"], ["B"] and ["C"] and
    no patch is recorded; the default slice [(0, -1)] takes its end
    from the length of the slice pair, so the dump is ["AB"] and not
    the concatenation ["ABC"] of all captures. *)
Theorem default_slice_stops_after_two_ops :
  core_dump_after three_ops_session Trace.default_timeval
    Trace.default_opslice
  = Return (Some (b "AB"))
  ∧ core_dump_after three_ops_session Trace.default_timeval
      Trace.default_opslice
    ≠ Return (Some (b "A" ++ b "B" ++ b "C")).
Proof.
  split; [vm_compute; reflexivity | vm_compute; discriminate].
Qed.

(** Whatever the trace, the query without an ["asm"] stage raises
    [KeyError], and no query returns the "no core dump" answer. *)
Lemma get_core_dump_no_asm_stage forest timeval opslice trace :
  Trace.stages trace !! "asm"%string = None →
  (Trace.get_core_dump forest timeval opslice trace).1 = Raise KeyError.
Proof.
  intros Hstage. destruct opslice as [start end_].
  unfold Trace.get_core_dump, bind, get, modify, ret, raise, Trace.get_stage,
    assert.
  destruct (bool_decide (Trace.my_patches trace = None)); cbn;
    by rewrite Hstage.
Qed.

Lemma get_core_dump_never_none forest timeval opslice trace :
  (Trace.get_core_dump forest timeval opslice trace).1 ≠ Return None.
Proof.
  destruct opslice as [start end_].
  unfold Trace.get_core_dump, bind, get, modify, ret, raise, lift,
    Trace.get_stage, assert.
  destruct (bool_decide (Trace.my_patches trace = None)); cbn;
    (destruct (Trace.stages trace !! "asm"%string); cbn; [| discriminate];
     match goal with
     | |- context [collect ?f ?l] => destruct (collect f l)
     end; discriminate).
Qed.

(** C3: a trace that has only its unoptimized stage has no ["asm"]
    entry, and the core dump query raises [KeyError] from [get_stage]
    before the "no core dump" branch is reached. *)
Theorem core_dump_without_asm_stage_raises :
  core_dump_after aborted_session Trace.default_timeval
    Trace.default_opslice
  = Raise KeyError.
Proof. vm_compute. reflexivity. Qed.

(** ** Bridge stitching *)

Lemma stitch_bridge_loop_found items d addr_to s r trace :
  (∀ item, item ∈ items → is_Some (objects s !! item.2)) →
  r ∈ items.*2 →
  objects s !! r = Some trace →
  d ∈ Trace.descr_numbers trace →
  (∀ item trace', item ∈ items → objects s !! item.2 = Some trace' →
     d ∈ Trace.descr_numbers trace' → item.2 = r) →
  TraceForest.stitch_bridge_loop items d addr_to s
  = (Return tt,
     set_objects
       (<[r := with_bridge (timepos (forest s)) d addr_to trace]> (objects s))
       s).
Proof.
  induction items as [| [tid r0] rest IH]; intros Hvalid Hin Hr Hd Huniq.
  - inversion Hin.
  - destruct (Hvalid (tid, r0)) as [t0 Ht0]; [left |].
    cbn [TraceForest.stitch_bridge_loop]. unfold bind, deref. cbn in Ht0.
    rewrite Ht0. case_bool_decide as Hd0.
    + assert (r0 = r) as -> by exact (Huniq (tid, r0) t0 ltac:(left) Ht0 Hd0).
      assert (t0 = trace) as -> by congruence.
      unfold call. rewrite Hr. reflexivity.
    + apply IH; try assumption.
      * intros item Hitem. apply Hvalid. by right.
      * cbn in Hin. apply elem_of_cons in Hin as [-> | Hin]; [| assumption].
        exfalso. apply Hd0. by assert (t0 = trace) as -> by congruence.
      * intros item trace' Hitem. apply Huniq. by right.
Qed.

Lemma stitch_bridge_loop_not_found items d addr_to s :
  (∀ item, item ∈ items → is_Some (objects s !! item.2)) →
  (∀ item trace, item ∈ items → objects s !! item.2 = Some trace →
     d ∉ Trace.descr_numbers trace) →
  TraceForest.stitch_bridge_loop items d addr_to s
  = (Raise NotImplementedError, s).
Proof.
  induction items as [| [tid r0] rest IH]; intros Hvalid Hnone.
  - reflexivity.
  - destruct (Hvalid (tid, r0)) as [t0 Ht0]; [left |].
    cbn [TraceForest.stitch_bridge_loop]. unfold bind, deref. cbn in Ht0.
    rewrite Ht0. case_bool_decide as Hd0.
    + exfalso. exact (Hnone (tid, r0) t0 ltac:(left) Ht0 Hd0).
    + apply IH.
      * intros item Hitem. apply Hvalid. by right.
      * intros item trace Hitem. apply Hnone. by right.
Qed.

(** C4: when the trace behind [r] is the only trace of the forest that
    has registered the descriptor number, [stitch_bridge] succeeds,
    appends the record (current timepos, descriptor number, target) to
    the bridges of that trace, and leaves the forest record and every
    other trace object as they were; when no trace of the forest has
    registered it, [stitch_bridge] raises [NotImplementedError] and
    changes nothing. *)
Theorem stitch_bridge_owner (s : Store) (d : option Z) (addr_to : Z) :
  (∀ item, item ∈ traces (forest s) → is_Some (objects s !! item.2)) →
  (∀ r trace,
     objects s !! r = Some trace →
     d ∈ Trace.descr_numbers trace →
     sole_owner s d r →
     ∃ s',
       TraceForest.stitch_bridge d addr_to s = (Return tt, s')
       ∧ forest s' = forest s
       ∧ objects s' !! r
         = Some (with_bridge (timepos (forest s)) d addr_to trace)
       ∧ ∀ r', r' ≠ r → objects s' !! r' = objects s !! r')
  ∧ ((∀ item trace,
        item ∈ traces (forest s) →
        objects s !! item.2 = Some trace →
        d ∉ Trace.descr_numbers trace) →
     TraceForest.stitch_bridge d addr_to s = (Raise NotImplementedError, s)).
Proof.
  intros Hvalid. split.
  - intros r trace Hr Hd [[tid Htid] Huniq].
    eexists. split; [| split; [| split]].
    + unfold TraceForest.stitch_bridge, bind, get.
      apply (stitch_bridge_loop_found _ d addr_to s r trace); try assumption.
      * apply list_elem_of_fmap. by exists (tid, r).
      * intros [tid' r'] trace' Hitem. by apply (Huniq tid' r' trace').
    + reflexivity.
    + cbn. apply list_lookup_insert_eq. by eapply lookup_lt_Some.
    + intros r' Hne. cbn. by apply list_lookup_insert_ne.
  - intros Hnone. unfold TraceForest.stitch_bridge, bind, get.
    by apply stitch_bridge_loop_not_found.
Qed.

Lemma stitch_bridge_owner_witness :
  (∃ s',
     TraceForest.stitch_bridge (Some 5) 2000 two_traces_store = (Return tt, s')
     ∧ forest s' = forest two_traces_store
     ∧ Trace.bridges <$> objects s' !! 1%nat = Some [(1, Some 5, 2000)]
     ∧ objects s' !! 0%nat = objects two_traces_store !! 0%nat)
  ∧ TraceForest.stitch_bridge (Some 6) 2000 two_traces_store
    = (Raise NotImplementedError, two_traces_store).
Proof.
  assert (traces (forest two_traces_store) = [(1, 0%nat); (2, 1%nat)])
    as Htraces by (vm_compute; reflexivity).
  assert (∀ item, item ∈ traces (forest two_traces_store) →
                  is_Some (objects two_traces_store !! item.2)) as Hvalid.
  { intros item Hin. rewrite Htraces in Hin.
    apply elem_of_cons in Hin as [-> | Hin];
      [| apply elem_of_cons in Hin as [-> | Hin]; [| inversion Hin]];
      eexists; vm_compute; reflexivity. }
  split.
  - destruct (stitch_bridge_owner two_traces_store (Some 5) 2000 Hvalid)
      as [Hfound _].
    edestruct (Hfound 1%nat) as (s' & Hrun & Hforest & Hr & Hother).
    + vm_compute. reflexivity.
    + refine (bool_decide_unpack _ _). vm_compute. exact I.
    + split.
      * exists 2. rewrite Htraces. right. left.
      * intros tid' r' trace' Hin Hobj Hd. rewrite Htraces in Hin.
        apply elem_of_cons in Hin as [Heq | Hin].
        -- injection Heq as -> ->. vm_compute in Hobj.
           injection Hobj as <-. apply (bool_decide_pack _) in Hd.
           vm_compute in Hd. destruct Hd.
        -- apply elem_of_cons in Hin as [Heq | Hin]; [| inversion Hin].
           by injection Heq as -> ->.
    + exists s'. split; [exact Hrun |]. split; [exact Hforest |].
      split; [rewrite Hr; vm_compute; reflexivity |].
      by apply Hother.
  - destruct (stitch_bridge_owner two_traces_store (Some 6) 2000 Hvalid)
      as [_ Hmissing].
    apply Hmissing. intros item trace Hin Hobj Hd. rewrite Htraces in Hin.
    apply (bool_decide_pack _) in Hd.
    apply elem_of_cons in Hin as [-> | Hin];
      [| apply elem_of_cons in Hin as [-> | Hin]; [| inversion Hin]];
      vm_compute in Hobj; injection Hobj as <-; vm_compute in Hd;
      destruct Hd.
Defined.

(** ** Range compression *)

Lemma elem_of_range x lo hi : x ∈ range lo hi ↔ lo ≤ x < hi.
Proof.
  unfold range. rewrite list_elem_of_fmap. split.
  - intros (k & -> & Hk). apply elem_of_seq in Hk. lia.
  - intros Hx. exists (Z.to_nat (x - lo)). split; [lia |].
    apply elem_of_seq. lia.
Qed.

Lemma elem_of_closed_range x first last :
  x ∈ closed_range (first, last) ↔ first ≤ x ≤ last.
Proof. unfold closed_range. rewrite elem_of_range. cbn. lia. Qed.

Lemma run_end_snoc first run i : run_end first (run ++ [i]) = i.
Proof. unfold run_end. by rewrite last_snoc. Qed.

Lemma sort_sorted numbers : Sorted Z.le (sort numbers).
Proof. apply (Sorted_merge_sort Z.le). Qed.

Lemma sort_permutation numbers : sort numbers ≡ₚ numbers.
Proof. apply merge_sort_Permutation. Qed.

(** The loop of [iter_ranges], entered with the run [first :: run]
    open, yields the runs of what it has seen and of what is left. *)
Lemma iter_ranges_loop_runs n rest :
  ∀ first run pos,
    Forall (λ i, i - first ≤ 50) run →
    pos + len rest = n - 1 →
    ∃ rs,
      runs (first :: run ++ rest) rs
      ∧ iter_ranges_loop n first (run_end first run) pos rest
        = closed_range <$> rs.
Proof.
  induction rest as [| i rest IH]; intros first run pos Hrun Hpos.
  - exists [(first, run_end first run)]. rewrite app_nil_r.
    split; [by constructor | reflexivity].
  - unfold len in Hpos. cbn [length] in Hpos.
    cbn [iter_ranges_loop]. case_bool_decide as Hgap.
    + rewrite bool_decide_true by lia.
      destruct (IH i [] (pos + 1)) as (rs & Hrs & Heq);
        [constructor | unfold len; lia |].
      exists ((first, run_end first run) :: rs).
      split; [by apply runs_next |].
      cbn [fmap list_fmap]. f_equal. exact Heq.
    + destruct (IH first (run ++ [i]) (pos + 1)) as (rs & Hrs & Heq).
      * apply Forall_app. split; [assumption |]. constructor; [lia | constructor].
      * unfold len. lia.
      * exists rs. rewrite <- app_assoc in Hrs. rewrite run_end_snoc in Heq.
        by split.
Qed.

(** A decomposition into runs is determined by the list. *)
Lemma run_prefix_unique (P : Z → Prop) run1 :
  ∀ run2 tail1 tail2,
    Forall P run1 → Forall P run2 →
    (∀ i r, tail1 = i :: r → ¬ P i) →
    (∀ i r, tail2 = i :: r → ¬ P i) →
    run1 ++ tail1 = run2 ++ tail2 →
    run1 = run2 ∧ tail1 = tail2.
Proof.
  induction run1 as [| x run1 IH]; intros run2 tail1 tail2 H1 H2 Ht1 Ht2 Heq.
  - destruct run2 as [| y run2]; [by split |].
    cbn in Heq. exfalso. apply (Ht1 y (run2 ++ tail2) Heq).
    by inversion H2.
  - destruct run2 as [| y run2].
    + cbn in Heq. exfalso. apply (Ht2 x (run1 ++ tail1)); [done |].
      by inversion H1.
    + cbn in Heq. injection Heq as -> Heq.
      inversion H1; inversion H2; subst.
      destruct (IH run2 tail1 tail2) as [-> ->]; auto.
Qed.

Lemma runs_functional l rs1 :
  runs l rs1 → ∀ rs2, runs l rs2 → rs1 = rs2.
Proof.
  induction 1 as [| first run Hrun | first run i rest rs Hrun Hgap Hrest IH];
    intros rs2 H2.
  - by inversion H2.
  - inversion H2 as [| first' run' Hrun' [Hf Hl] | first' run' i' rest' rs'
                       Hrun' Hgap' Hrest' [Hf Hl]].
    + by subst.
    + exfalso. subst. apply Forall_app in Hrun as [_ Hrun].
      inversion Hrun. lia.
  - inversion H2 as [| first' run' Hrun' [Hf Hl] | first' run' i' rest' rs'
                       Hrun' Hgap' Hrest' [Hf Hl]].
    + exfalso. subst. apply Forall_app in Hrun' as [_ Hrun'].
      inversion Hrun'. lia.
    + subst first'.
      destruct (run_prefix_unique (λ j, j - first ≤ 50) run' run
                  (i' :: rest') (i :: rest)) as [-> Htail]; try assumption.
      * intros j r Hj. injection Hj as -> _. lia.
      * intros j r Hj. injection Hj as -> _. lia.
      * injection Htail as -> ->. f_equal. by apply IH.
Qed.

(** C5: [iter_ranges] sorts the numbers and yields the closed ranges
    of their runs, a run extending while the next number is within 50
    of its start and a number beyond that gap closing it and starting
    the next one; on 1, 2, 3, 60, 61, 200 it yields [1,3], [60,61] and
    [200,200], and on the empty list it yields nothing. *)
Theorem iter_ranges_yields_runs :
  (∀ numbers,
     Sorted Z.le (sort numbers)
     ∧ sort numbers ≡ₚ numbers
     ∧ ∃ rs,
         runs (sort numbers) rs
         ∧ iter_ranges numbers = closed_range <$> rs)
  ∧ iter_ranges [1; 2; 3; 60; 61; 200]
    = [closed_range (1, 3); closed_range (60, 61); closed_range (200, 200)]
  ∧ closed_range (1, 3) = [1; 2; 3]
  ∧ iter_ranges [] = [].
Proof.
  split; [| repeat split; vm_compute; reflexivity].
  intros numbers.
  split; [apply sort_sorted |]. split; [apply sort_permutation |].
  unfold iter_ranges. case_bool_decide as Hlen.
  - destruct numbers; [| unfold len in Hlen; cbn in Hlen; lia].
    exists []. split; [constructor | reflexivity].
  - destruct (sort numbers) as [| first rest] eqn:Hsort.
    + exists []. split; [constructor | reflexivity].
    + destruct (iter_ranges_loop_runs (len (first :: rest)) rest first [] 0)
        as (rs & Hrs & Heq); [constructor | unfold len; cbn; lia |].
      by exists rs.
Qed.

(** ** Markers and operations of a trace *)

Lemma scan_named_tags values :
  ∀ filename lineno,
    Forall (λ v, is_Some (SEM_TYPE_NAMES !! sem_type v)) values →
    ∃ found, MergePoint.scan values filename lineno = Return found.
Proof.
  induction values as [| v values IH]; intros filename lineno Hnamed.
  - by eexists.
  - inversion Hnamed as [| ? ? [name Hname] Hrest]; subst.
    cbn [MergePoint.scan]. rewrite Hname. by apply IH.
Qed.

(** [add_instr] on a trace whose current stage exists: the operation
    is appended to that stage, no other stage changes, and the
    descriptor number is registered exactly when [has_descr()]
    holds. *)
Lemma add_instr_current_stage o trace m stage :
  Trace.last_mark trace = Some m →
  Trace.stages trace !! m = Some stage →
  ∃ out trace',
    Trace.add_instr o trace = (out, trace')
    ∧ Trace.last_mark trace' = Some m
    ∧ Trace.stages trace' !! m = Some (Stage.append o stage)
    ∧ (∀ m', m' ≠ m → Trace.stages trace' !! m' = Trace.stages trace !! m')
    ∧ Trace.descr_numbers trace'
      = (if has_descr o None
         then {[Trace.op_descr_number o]} ∪ Trace.descr_numbers trace
         else Trace.descr_numbers trace)
    ∧ Trace.bridges trace' = Trace.bridges trace
    ∧ (named_tags o → out = Return tt).
Proof.
  intros Hm Hstage.
  unfold Trace.add_instr, bind, get, modify, ret, raise, lift,
    Trace.get_stage, Trace.update_stage, assert.
  assert (∀ (out : outcome unit) trace0 dn,
            Trace.last_mark trace0 = Some m →
            Trace.stages trace0 = alter (Stage.append o) m (Trace.stages trace) →
            Trace.descr_numbers trace0 = dn →
            Trace.bridges trace0 = Trace.bridges trace →
            (named_tags o → out = Return tt) →
            ∃ out' trace',
              (out, trace0) = (out', trace')
              ∧ Trace.last_mark trace' = Some m
              ∧ Trace.stages trace' !! m = Some (Stage.append o stage)
              ∧ (∀ m', m' ≠ m →
                   Trace.stages trace' !! m' = Trace.stages trace !! m')
              ∧ Trace.descr_numbers trace' = dn
              ∧ Trace.bridges trace' = Trace.bridges trace
              ∧ (named_tags o → out' = Return tt)) as Hfinish.
  { intros out trace0 dn Hl Hs Hd Hb Hout. exists out, trace0.
    repeat split; try assumption.
    - by rewrite Hs, lookup_alter_eq, Hstage.
    - intros m' Hne. by rewrite Hs, lookup_alter_ne. }
  destruct (has_descr o None); cbn; rewrite Hm; cbn; rewrite Hstage; cbn;
    (destruct o as [f | values];
     [by apply Hfinish |
      destruct (MergePoint.get_source_line values) as [[lineno [f |]] | e]
        eqn:Hline;
      [case_bool_decide | |]; try (by apply Hfinish);
      apply Hfinish; try done;
      intros Hnamed; exfalso; unfold MergePoint.get_source_line in Hline;
      destruct (scan_named_tags values None None Hnamed) as [found Hfound];
      rewrite Hfound in Hline; by destruct found as [[?|] [?|]]]).
Qed.

Lemma add_instrs_current_stage ops :
  ∀ trace m stage,
    Trace.last_mark trace = Some m →
    Trace.stages trace !! m = Some stage →
    Forall named_tags ops →
    ∃ trace',
      add_instrs ops trace = (Return tt, trace')
      ∧ Trace.last_mark trace' = Some m
      ∧ Trace.stages trace' !! m
        = Some (Stage.Stage (Stage.mark stage) (Stage.ops stage ++ ops)
                            (Stage.timeval stage))
      ∧ ∀ m', m' ≠ m → Trace.stages trace' !! m' = Trace.stages trace !! m'.
Proof.
  induction ops as [| o ops IH]; intros trace m stage Hm Hstage Hnamed.
  - exists trace. rewrite app_nil_r. by destruct stage.
  - inversion Hnamed as [| ? ? Ho Hops]; subst.
    destruct (add_instr_current_stage o trace m stage Hm Hstage)
      as (out & trace1 & Hrun & Hm1 & Hstage1 & Hother1 & _ & _ & Hout).
    rewrite (Hout Ho) in Hrun.
    destruct (IH trace1 m _ Hm1 Hstage1 Hops)
      as (trace' & Hrun' & Hm' & Hstage' & Hother').
    exists trace'. unfold add_instrs in *. cbn [for_each]. unfold bind at 1.
    rewrite Hrun. split; [exact Hrun' |]. split; [exact Hm' |].
    split.
    + rewrite Hstage'. cbn. by rewrite <- app_assoc.
    + intros m' Hne. rewrite Hother', Hother1; done.
Qed.

Lemma start_mark_opens forest trace mark name :
  (mark, name) ∈ phases →
  ¬ (mark = MARK_TRACE ∧ Trace.last_mark trace = Some "noopt"%string) →
  Trace.start_mark forest mark trace
  = (Return tt, with_fresh_stage name (timepos forest) trace).
Proof.
  intros Hphase Hnew. unfold phases in Hphase.
  repeat (apply elem_of_cons in Hphase as [Heq | Hphase];
          [injection Heq as -> -> |]); [| | | inversion Hphase].
  - unfold Trace.start_mark.
    rewrite (bool_decide_false (MARK_TRACE = MARK_TRACE_OPT)) by discriminate.
    rewrite (bool_decide_false (MARK_TRACE = MARK_TRACE_ASM)) by discriminate.
    rewrite (bool_decide_true (MARK_TRACE = MARK_TRACE)) by reflexivity.
    unfold bind, assert, ret, get.
    rewrite bool_decide_false by (intros Hlast; by apply Hnew).
    reflexivity.
  - unfold Trace.start_mark.
    rewrite (bool_decide_true (MARK_TRACE_OPT = MARK_TRACE_OPT)) by reflexivity.
    reflexivity.
  - unfold Trace.start_mark.
    rewrite (bool_decide_false (MARK_TRACE_ASM = MARK_TRACE_OPT)) by discriminate.
    rewrite (bool_decide_true (MARK_TRACE_ASM = MARK_TRACE_ASM)) by reflexivity.
    reflexivity.
Qed.

Lemma start_mark_repeated forest trace :
  Trace.last_mark trace = Some "noopt"%string →
  Trace.start_mark forest MARK_TRACE trace = (Return tt, trace).
Proof.
  intros Hlast. unfold Trace.start_mark.
  rewrite (bool_decide_false (MARK_TRACE = MARK_TRACE_OPT)) by discriminate.
  rewrite (bool_decide_false (MARK_TRACE = MARK_TRACE_ASM)) by discriminate.
  rewrite (bool_decide_true (MARK_TRACE = MARK_TRACE)) by reflexivity.
  unfold bind, assert, ret, get.
  by rewrite bool_decide_true.
Qed.

(** C6: after an unoptimized-phase marker the trace has its ["noopt"]
    stage (a fresh one, stamped with the clock of the forest, unless
    the trace was in that phase already); a second unoptimized-phase
    marker with only operations in between leaves the trace as it is,
    so the operations of both spans end up in that one stage, in the
    order they were added, and no other stage changes. Every other
    transition between the three phase markers opens a fresh, empty
    stage stamped with the clock of the forest. *)
Theorem consecutive_unoptimized_markers :
  (∀ forest1 forest2 trace ops1 ops2,
     current_stage_exists trace →
     Forall named_tags ops1 →
     Forall named_tags ops2 →
     ∃ trace1 trace2 trace3 stage1,
       Trace.start_mark forest1 MARK_TRACE trace = (Return tt, trace1)
       ∧ Trace.stages trace1 !! "noopt"%string = Some stage1
       ∧ (Trace.last_mark trace ≠ Some "noopt"%string →
          stage1 = Stage.Stage "noopt" [] (timepos forest1))
       ∧ add_instrs ops1 trace1 = (Return tt, trace2)
       ∧ Trace.start_mark forest2 MARK_TRACE trace2 = (Return tt, trace2)
       ∧ add_instrs ops2 trace2 = (Return tt, trace3)
       ∧ Trace.stages trace3 !! "noopt"%string
         = Some (Stage.Stage (Stage.mark stage1)
                             (Stage.ops stage1 ++ ops1 ++ ops2)
                             (Stage.timeval stage1))
       ∧ ∀ m, m ≠ "noopt"%string →
              Trace.stages trace3 !! m = Trace.stages trace !! m)
  ∧ (∀ forest trace mark name,
       (mark, name) ∈ phases →
       ¬ (mark = MARK_TRACE ∧ Trace.last_mark trace = Some "noopt"%string) →
       ∃ trace',
         Trace.start_mark forest mark trace = (Return tt, trace')
         ∧ Trace.last_mark trace' = Some name
         ∧ Trace.stages trace' !! name
           = Some (Stage.Stage name [] (timepos forest))
         ∧ ∀ m, m ≠ name → Trace.stages trace' !! m = Trace.stages trace !! m).
Proof.
  split.
  - intros forest1 forest2 trace ops1 ops2 Hwf Hops1 Hops2.
    assert (∃ trace1 stage1,
              Trace.start_mark forest1 MARK_TRACE trace = (Return tt, trace1)
              ∧ Trace.last_mark trace1 = Some "noopt"%string
              ∧ Trace.stages trace1 !! "noopt"%string = Some stage1
              ∧ (Trace.last_mark trace ≠ Some "noopt"%string →
                 stage1 = Stage.Stage "noopt" [] (timepos forest1))
              ∧ ∀ m, m ≠ "noopt"%string →
                     Trace.stages trace1 !! m = Trace.stages trace !! m)
      as (trace1 & stage1 & Hmark1 & Hlast1 & Hstage1 & Hfresh & Hother1).
    { destruct (decide (Trace.last_mark trace = Some "noopt"%string))
        as [Hlast | Hlast].
      - destruct (Hwf _ Hlast) as [stage1 Hstage1].
        exists trace, stage1. rewrite start_mark_repeated by done.
        repeat split; done.
      - eexists _, _.
        rewrite (start_mark_opens forest1 trace MARK_TRACE "noopt");
          [| left | by intros [_ ?]].
        split; [reflexivity |]. split; [reflexivity |].
        split; [apply lookup_insert_eq |]. split; [done |].
        intros m Hne. cbn. by rewrite lookup_insert_ne. }
    destruct (add_instrs_current_stage ops1 trace1 _ stage1 Hlast1 Hstage1 Hops1)
      as (trace2 & Hrun2 & Hlast2 & Hstage2 & Hother2).
    destruct (add_instrs_current_stage ops2 trace2 _ _ Hlast2 Hstage2 Hops2)
      as (trace3 & Hrun3 & Hlast3 & Hstage3 & Hother3).
    exists trace1, trace2, trace3, stage1.
    repeat split; try assumption.
    + by apply start_mark_repeated.
    + rewrite Hstage3. cbn. by rewrite <- app_assoc.
    + intros m Hne. by rewrite Hother3, Hother2, Hother1.
  - intros forest trace mark name Hphase Hnew.
    exists (with_fresh_stage name (timepos forest) trace).
    split; [by apply start_mark_opens |]. split; [reflexivity |].
    split; [apply lookup_insert_eq |].
    intros m Hne. cbn. by rewrite lookup_insert_ne.
Qed.

Lemma consecutive_unoptimized_markers_witness :
  (∃ trace3,
     (bind (Trace.start_mark (forest_at 3) MARK_TRACE) (λ _,
      bind (add_instrs preamble_ops) (λ _,
      bind (Trace.start_mark (forest_at 4) MARK_TRACE) (λ _,
      add_instrs loop_ops)))) optimized_trace = (Return tt, trace3)
     ∧ Trace.stages trace3 !! "noopt"%string
       = Some (Stage.Stage "noopt" (preamble_ops ++ loop_ops) 3))
  ∧ ∃ trace',
      Trace.start_mark (forest_at 4) MARK_TRACE_OPT optimized_trace
      = (Return tt, trace')
      ∧ Trace.stages trace' !! "opt"%string = Some (Stage.Stage "opt" [] 4).
Proof.
  destruct consecutive_unoptimized_markers as [Hmerge Hfresh].
  split.
  - destruct (Hmerge (forest_at 3) (forest_at 4) optimized_trace
                     preamble_ops loop_ops)
      as (trace1 & trace2 & trace3 & stage1 & Hmark1 & Hstage1 & Hnew
          & Hrun2 & Hmark2 & Hrun3 & Hstage3 & _).
    + intros m Hm. injection Hm as <-. eexists. vm_compute. reflexivity.
    + repeat constructor; cbn; eexists; vm_compute; reflexivity.
    + repeat constructor.
    + exists trace3. unfold bind. rewrite Hmark1, Hrun2, Hmark2, Hrun3.
      split; [reflexivity |]. rewrite Hstage3.
      rewrite (Hnew ltac:(discriminate)). reflexivity.
  - destruct (Hfresh (forest_at 4) optimized_trace MARK_TRACE_OPT "opt"%string)
      as (trace' & Hmark & _ & Hstage & _).
    + right. left.
    + intros [Hmark _]. discriminate.
    + by exists trace'.
Defined.

(** C7, as stated, fails: an operation that carries the descriptor
    number 5 but no descriptor is appended to the current stage, yet
    5 is not registered in [descr_numbers]. *)
Lemma descr_number_without_descr_not_registered :
  Trace.op_descr_number numbered_op = Some 5
  ∧ (Trace.add_instr numbered_op unoptimized_trace).1 = Return tt
  ∧ Stage.ops
      <$> Trace.stages (Trace.add_instr numbered_op unoptimized_trace).2
            !! "noopt"%string
    = Some [numbered_op]
  ∧ Some 5 ∉ Trace.descr_numbers
               (Trace.add_instr numbered_op unoptimized_trace).2.
Proof.
  split; [reflexivity |]. split; [vm_compute; reflexivity |].
  split; [vm_compute; reflexivity |].
  intros Hin. apply (bool_decide_pack _) in Hin. vm_compute in Hin.
  destruct Hin.
Qed.

(** C7, amended: on a trace whose current stage exists, [add_instr]
    appends the operation to that stage and changes no other stage;
    the descriptor number of the operation is registered exactly when
    the operation is a [FlatOp] that carries a descriptor ([descr] is
    set), and [descr_numbers] is unchanged otherwise; the call returns
    when the tags of a merge point all have a name. *)
Theorem add_instr_registers_descr (o : op) (trace : Trace.t) (m : string)
    (stage : Stage.t) :
  Trace.last_mark trace = Some m →
  Trace.stages trace !! m = Some stage →
  ∃ out trace',
    Trace.add_instr o trace = (out, trace')
    ∧ Trace.stages trace' !! m = Some (Stage.append o stage)
    ∧ (∀ m', m' ≠ m → Trace.stages trace' !! m' = Trace.stages trace !! m')
    ∧ Trace.descr_numbers trace'
      = match o with
        | Flat f =>
            if bool_decide (FlatOp.descr f ≠ None)
            then {[FlatOp.descr_number f]} ∪ Trace.descr_numbers trace
            else Trace.descr_numbers trace
        | Merge _ => Trace.descr_numbers trace
        end
    ∧ (named_tags o → out = Return tt).
Proof.
  intros Hm Hstage.
  destruct (add_instr_current_stage o trace m stage Hm Hstage)
    as (out & trace' & Hrun & _ & Hstage' & Hother & Hdescr & _ & Hout).
  exists out, trace'. repeat split; try assumption.
  rewrite Hdescr. by destruct o.
Qed.

Lemma add_instr_registers_descr_witness :
  ∃ trace',
    Trace.add_instr guard_op unoptimized_trace = (Return tt, trace')
    ∧ Stage.ops <$> Trace.stages trace' !! "noopt"%string = Some [guard_op]
    ∧ Trace.descr_numbers trace' = {[Some 5]} ∪ ∅.
Proof.
  destruct (add_instr_registers_descr guard_op unoptimized_trace
              "noopt"%string (Stage.Stage "noopt" [] 0))
    as (out & trace' & Hrun & Hstage & _ & Hdescr & Hout).
  - reflexivity.
  - vm_compute. reflexivity.
  - exists trace'. rewrite Hrun, (Hout I), Hstage. repeat split.
    rewrite Hdescr. reflexivity.
Defined.

(** ** Loops and dictionaries *)

Lemma bind_preserves {S A B} (I : S → Prop) (m : M S A) (k : A → M S B) st :
  I (m st).2 →
  (∀ a st', I st' → I (k a st').2) →
  I (bind m k st).2.
Proof.
  intros Hm Hk. unfold bind. destruct (m st) as [[a | e] st']; cbn in *.
  - by apply Hk.
  - exact Hm.
Qed.

Lemma for_each_preserves {S A} (I : S → Prop) (xs : list A)
    (body : A → M S unit) :
  (∀ x st, x ∈ xs → I st → I (body x st).2) →
  ∀ st, I st → I (for_each xs body st).2.
Proof.
  induction xs as [| x xs IH]; intros Hbody st Hst; [exact Hst |].
  cbn [for_each]. apply bind_preserves.
  - apply Hbody; [left | exact Hst].
  - intros _ st' Hst'. apply IH; [| exact Hst'].
    intros y st'' Hy. apply Hbody. by right.
Qed.

Lemma for_each_raises {S A} (I : S → Prop) (xs : list A)
    (body : A → M S unit) x :
  x ∈ xs →
  (∀ y st, y ∈ xs → I st → I (body y st).2) →
  (∀ st, I st → ∃ e, (body x st).1 = Raise e) →
  ∀ st, I st → ∃ e, (for_each xs body st).1 = Raise e.
Proof.
  induction xs as [| y xs IH]; intros Hx Hbody Hraise st Hst;
    [inversion Hx |].
  cbn [for_each]. unfold bind.
  destruct (body y st) as [[[] | e] st'] eqn:Hy; [| by exists e].
  apply elem_of_cons in Hx as [-> | Hx].
  - destruct (Hraise st Hst) as [e He]. rewrite Hy in He. discriminate.
  - apply IH; try assumption.
    + intros z st'' Hz. apply Hbody. by right.
    + pose proof (Hbody y st ltac:(left) Hst) as Hst'. by rewrite Hy in Hst'.
Qed.

Lemma dict_get_dd_touch {V} (key f : string) (d : list (string * list V)) :
  f ≠ key → dict_get f (dd_touch key d) = dict_get f d.
Proof.
  intros Hne. unfold dd_touch. destruct (dict_get key d); [reflexivity |].
  induction d as [| [k v] d IH]; cbn.
  - by rewrite decide_False.
  - destruct (decide (k = f)); [reflexivity | exact IH].
Qed.

Lemma dict_get_dd_append {V} (key f : string) (x : V)
    (d : list (string * list V)) :
  f ≠ key → dict_get f (dd_append key x d) = dict_get f d.
Proof.
  intros Hne. induction d as [| [k v] d IH]; cbn.
  - by rewrite decide_False.
  - destruct (decide (k = key)) as [-> | Hk]; cbn.
    + by rewrite !decide_False.
    + destruct (decide (k = f)); [reflexivity | exact IH].
Qed.

Lemma dict_set_keeps_keys {V} (key f : string) (v x : V)
    (d : list (string * V)) :
  (f, x) ∈ d → ∃ x', (f, x') ∈ dict_set key v d.
Proof.
  induction d as [| [k y] d IH]; intros Hin; [inversion Hin |].
  cbn. apply elem_of_cons in Hin as [[= <- <-] | Hin].
  - destruct (decide (f = key)); eexists; left.
  - destruct (decide (k = key)).
    + exists x. by right.
    + destruct (IH Hin) as [x' Hx']. exists x'. by right.
Qed.

(** ** The address index *)

(** C10, as stated, fails: after [set_addr_bounds(1000, 1007)] the
    trace contains the address 1000 and is found by its id, but the
    address index of the forest has no entry for it. *)
Lemma address_index_not_populated :
  Trace.addrs <$> objects bounded_store !! 0%nat = Some (1000, 1007)
  ∧ (λ trace, Trace.contains_addr trace 1000)
      <$> objects bounded_store !! 0%nat = Some true
  ∧ TraceForest.get_trace (forest bounded_store) 7 = Some 0%nat
  ∧ TraceForest.get_trace_by_addr (forest bounded_store) 1000 = None
  ∧ TraceForest.get_trace_by_addr (forest bounded_store) 1000
    ≠ TraceForest.get_trace (forest bounded_store) 7.
Proof. repeat split; try (vm_compute; reflexivity). vm_compute. discriminate. Qed.

(** A method of a trace leaves the forest as it is. *)
Lemma call_forest {A} (r : ref) (m : TraceForest → M Trace.t A) s :
  forest (call r m s).2 = forest s.
Proof.
  unfold call. destruct (objects s !! r) as [trace |]; [| reflexivity].
  by destruct (m (forest s) trace).
Qed.

Lemma stitch_bridge_loop_addrs items descr_number addr_to :
  ∀ s,
    addrs (forest (TraceForest.stitch_bridge_loop items descr_number addr_to
                     s).2)
    = addrs (forest s).
Proof.
  induction items as [| [tid r] items IH]; intros s; [reflexivity |].
  cbn [TraceForest.stitch_bridge_loop]. unfold bind, deref.
  destruct (objects s !! r) as [trace |] eqn:Hr; [| reflexivity].
  case_bool_decide; [| apply IH].
  by rewrite call_forest.
Qed.

Section ExtractionIndex.

Variable PY3 : bool.
Variable items : ∀ A : Type, list A → list A.
Variable disk : string → option bytes.

(** No step of the extraction writes the address index. *)
Lemma extract_file_addrs (index : gmap Z ref) r file lines st :
  addrs (forest st.2) = index →
  addrs (forest (TraceForest.extract_file PY3 disk r file lines st).2.2)
  = index.
Proof.
  intros Hst. unfold TraceForest.extract_file.
  apply (bind_preserves (λ st, addrs (forest st.2) = index)).
  - unfold TraceForest.load_file.
    apply (bind_preserves (λ st, addrs (forest st.2) = index));
      [exact Hst |].
    clear st Hst. intros [fc seen] st Hst.
    case_bool_decide; [| exact Hst].
    destruct (disk file) as [data |]; [| exact Hst].
    apply (bind_preserves (λ st, addrs (forest st.2) = index)).
    + by destruct st.
    + clear st Hst. intros _ st Hst.
      destruct PY3; [exact Hst | by destruct st].
  - clear st Hst. intros _ st Hst. unfold TraceForest.save_lines.
    apply (bind_preserves (λ st, addrs (forest st.2) = index));
      [exact Hst |].
    clear st Hst. intros [fc seen] st Hst.
    apply (bind_preserves (λ st, addrs (forest st.2) = index));
      [by destruct st |].
    clear st Hst. intros _ st Hst.
    apply (bind_preserves (λ st, addrs (forest st.2) = index)).
    { destruct st as [fc' s]. cbn.
      pose proof (call_forest r (λ _, modify (λ trace,
        Trace.set_merge_point_files
          (dict_set file (sort lines) (Trace.merge_point_files trace)) trace))
        s) as Hcall.
      destruct (call r _ s) as [o s']. cbn in *. by rewrite Hcall. }
    clear st Hst. intros _ st Hst.
    apply (for_each_preserves (λ st, addrs (forest st.2) = index));
      [| exact Hst].
    clear st Hst. intros range st _ Hst.
    apply (for_each_preserves (λ st, addrs (forest st.2) = index));
      [| exact Hst].
    clear st Hst. intros n st _ Hst.
    apply (bind_preserves (λ st, addrs (forest st.2) = index));
      [exact Hst |].
    clear st Hst. intros line [fc' s] Hst. exact Hst.
Qed.

Lemma extract_source_code_lines_addrs s :
  addrs (forest (TraceForest.extract_source_code_lines PY3 items disk s).2)
  = addrs (forest s).
Proof.
  unfold TraceForest.extract_source_code_lines.
  assert (addrs (forest (for_each (items _ (traces (forest s)))
                           (TraceForest.extract_trace PY3 items disk)
                           (∅, s)).2.2)
          = addrs (forest s)) as Hloop.
  { apply (for_each_preserves
             (λ st : TraceForest.XS,
                addrs (forest st.2) = addrs (forest s))); [| reflexivity].
    intros item st _ Hst. unfold TraceForest.extract_trace.
    apply (bind_preserves (λ st, addrs (forest st.2) = addrs (forest s))).
    - destruct st as [fc1 s1]. cbn. unfold deref.
      by destruct (objects s1 !! item.2).
    - clear st Hst. intros trace st Hst.
      apply (for_each_preserves
               (λ st, addrs (forest st.2) = addrs (forest s)));
        [| exact Hst].
      intros [file lines] st' _ Hst'. by apply extract_file_addrs. }
  by destruct (for_each (items _ (traces (forest s)))
                 (TraceForest.extract_trace PY3 items disk) (∅, s))
    as [o [fc s']].
Qed.

(** No call of the engine writes the address index. *)
Lemma run_call_addrs c s :
  addrs (forest (run_call PY3 items disk c s).2) = addrs (forest s).
Proof.
  destruct c as [trace_type unique_id | descr_number addr_to
                 | addr content timeval | | | r c]; cbn [run_call].
  - unfold bind, TraceForest.add_trace, bind, get, lift.
    destruct (Trace.init trace_type (timepos (forest s)) unique_id);
      reflexivity.
  - apply stitch_bridge_loop_addrs.
  - reflexivity.
  - reflexivity.
  - apply extract_source_code_lines_addrs.
  - by rewrite call_forest.
Qed.

Lemma session_addrs calls :
  ∀ s, addrs (forest (session PY3 items disk calls s)) = addrs (forest s).
Proof.
  unfold session.
  induction calls as [| c calls IH]; intros s; [reflexivity |].
  cbn [foldl]. by rewrite IH, run_call_addrs.
Qed.

End ExtractionIndex.

(** C10, amended: [set_addr_bounds] records the bounds on the trace
    only, and neither it nor any other call of the engine enters a
    trace in the address index of the forest: in the store that any
    sequence of calls on a new forest leaves, whether the calls return
    or raise, [get_trace_by_addr] gives the absent result for every
    address; and a further [set_addr_bounds(a, b)] on a trace of that
    store returns, makes the trace contain exactly the addresses from
    [a] to [b], and still leaves every address absent from the
    index. *)
Theorem address_index_stays_empty (PY3 : bool)
    (items : ∀ A : Type, list A → list A) (disk : string → option bytes)
    (version : Z) (keep_data : bool) (calls : list engine_call) :
  (∀ addr,
     TraceForest.get_trace_by_addr
       (forest (session PY3 items disk calls (new_store version keep_data)))
       addr = None)
  ∧ ∀ r trace a b,
      objects (session PY3 items disk calls (new_store version keep_data))
        !! r = Some trace →
      ∃ s',
        call r (λ _, Trace.set_addr_bounds a b)
             (session PY3 items disk calls (new_store version keep_data))
        = (Return tt, s')
        ∧ objects s' !! r = Some (Trace.set_addrs (a, b) trace)
        ∧ (∀ addr,
             Trace.contains_addr (Trace.set_addrs (a, b) trace) addr = true
             ↔ a ≤ addr ≤ b)
        ∧ ∀ addr, TraceForest.get_trace_by_addr (forest s') addr = None.
Proof.
  assert (∀ addr,
            TraceForest.get_trace_by_addr
              (forest (session PY3 items disk calls
                         (new_store version keep_data))) addr = None)
    as Hempty.
  { intros addr. unfold TraceForest.get_trace_by_addr.
    rewrite session_addrs. apply lookup_empty. }
  split; [exact Hempty |].
  intros r trace a b Hr. unfold call. rewrite Hr. cbn.
  eexists. split; [reflexivity |]. cbn.
  split; [apply list_lookup_insert_eq; by eapply lookup_lt_Some |].
  split; [| exact Hempty].
  intros addr. unfold Trace.contains_addr. cbn.
  by rewrite bool_decide_eq_true.
Qed.

Lemma address_index_stays_empty_witness :
  Trace.addrs
    <$> objects
          (session false as_inserted small_disk
             [AddTrace "loop" 7;
              OnTrace 0 (StartMark MARK_TRACE_ASM);
              OnTrace 0 (AddInstr (plain_op "mov"));
              OnTrace 0 (SetAddrBounds 1000 1007);
              ExtractSourceCodeLines]
             (new_store 1 true)) !! 0%nat
  = Some (1000, 1007)
  ∧ TraceForest.get_trace_by_addr
      (forest
         (session false as_inserted small_disk
            [AddTrace "loop" 7;
             OnTrace 0 (StartMark MARK_TRACE_ASM);
             OnTrace 0 (AddInstr (plain_op "mov"));
             OnTrace 0 (SetAddrBounds 1000 1007);
             ExtractSourceCodeLines]
            (new_store 1 true)))
      1000 = None.
Proof.
  split; [vm_compute; reflexivity |].
  apply (address_index_stays_empty false as_inserted small_disk 1 true).
Defined.

(** ** The wire encoding of source lines *)

(** The table of names lists the markers of the module. *)
Lemma MARK_NAMES_marks : MARK_NAMES.*2 = marks.
Proof. reflexivity. Qed.

(** constants.py binds no [MARK_SOURCE_CODE]. *)
Lemma const_mark_source_code :
  const_mark "MARK_SOURCE_CODE" = Raise AttributeError.
Proof. reflexivity. Qed.

(** The body of the loop over the files raises at its first
    statement, before anything is appended. *)
Lemma encode_file_raises PY3 utf8 item marks :
  TraceForest.encode_file PY3 utf8 item marks = (Raise AttributeError, marks).
Proof. by destruct item. Qed.

(** C9: [encode_source_code_lines] does not produce the layout: the
    loop over the files starts with [const.MARK_SOURCE_CODE], a name
    that constants.py does not define, so for every forest that has
    source lines the call raises [AttributeError], whatever the flag
    [PY3], the order of the dict and the lines are; only for a forest
    without source lines it returns, the empty string. *)
Theorem encode_source_code_lines_missing_marker (PY3 : bool)
    (items : ∀ A : Type, list A → list A) (utf8 : bytes → option (list Z))
    (self : TraceForest) :
  (∀ A (l : list A), items A l ≡ₚ l) →
  (source_lines self ≠ [] →
   TraceForest.encode_source_code_lines PY3 items utf8 self
   = Raise AttributeError)
  ∧ (source_lines self = [] →
     TraceForest.encode_source_code_lines PY3 items utf8 self
     = Return (if PY3 then Text [] else Bytes [])).
Proof.
  intros Hitems. unfold TraceForest.encode_source_code_lines.
  specialize (Hitems _ (source_lines self)).
  destruct (items _ (source_lines self)) as [| item rest] eqn:Hvisit.
  - apply Permutation_nil_l in Hitems. split; [by intros [] |].
    intros _. cbn. unfold TraceForest.join. by destruct PY3.
  - split.
    + intros _. cbn [for_each]. unfold bind.
      by rewrite encode_file_raises.
    + intros Hnil. rewrite Hnil in Hitems.
      by apply Permutation_nil_r in Hitems.
Qed.

Lemma encode_source_code_lines_missing_marker_witness :
  TraceForest.encode_source_code_lines false as_inserted (λ _, None)
    (forest_with_lines 4)
  = Raise AttributeError.
Proof.
  apply (encode_source_code_lines_missing_marker false as_inserted).
  - intros A l. reflexivity.
  - discriminate.
Defined.

(** * Further properties of the engine *)

(** ** Merge points *)

Lemma sem_type_name v :
  SEM_TYPE_NAMES !! sem_type v
  = match v with
    | MP_STR _ | MP_INT _ => None
    | MP_FILENAME _ => Some "filename"%string
    | MP_LINENO _ => Some "lineno"%string
    | MP_INDEX _ => Some "index"%string
    | MP_SCOPE _ => Some "scope"%string
    | MP_OPCODE _ => Some "opcode"%string
    end.
Proof. destruct v; vm_compute; reflexivity. Qed.

Lemma scan_last_entries values :
  ∀ filename lineno,
    Forall named_tag values →
    MergePoint.scan values filename lineno
    = Return (from_option Some filename (last_filename values),
              from_option Some lineno (last_lineno values)).
Proof.
  unfold last_filename, last_lineno.
  induction values as [| v values IH]; intros filename lineno Hnamed.
  - reflexivity.
  - inversion Hnamed as [| ? ? Hv Hrest]; subst.
    unfold named_tag in Hv. cbn [MergePoint.scan].
    rewrite sem_type_name in Hv |- *.
    destruct v; try (by destruct Hv as [? ?]);
      rewrite IH by assumption; cbn [omap list_omap option_bind mbind];
      rewrite ?last_cons;
      repeat match goal with
             | |- context [last ?l] => destruct (last l)
             end; reflexivity.
Qed.

Lemma scan_unnamed_tag values :
  ∀ filename lineno,
    ¬ Forall named_tag values →
    MergePoint.scan values filename lineno = Raise KeyError.
Proof.
  induction values as [| v values IH]; intros filename lineno Hnamed.
  - exfalso. apply Hnamed. constructor.
  - cbn [MergePoint.scan].
    destruct (SEM_TYPE_NAMES !! sem_type v) as [name |] eqn:Hname;
      [| reflexivity].
    apply IH. intros Hrest. apply Hnamed. constructor; [| exact Hrest].
    unfold named_tag. by rewrite Hname.
Qed.

(** X1: [get_source_line] returns the values of the last ["lineno"]
    and the last ["filename"] entry when every tag of the merge point
    is a key of [SEM_TYPE_NAMES] and both entries exist, and [(0, None)]
    when one of the two is missing; a tag that is no key (the generic
    tags 0x0 of [MP_STR] and [MP_INT]) makes it raise [KeyError], also
    when file name and line number are there. *)
Theorem get_source_line_last_entries (values : list sem_value) :
  (Forall named_tag values →
   MergePoint.get_source_line values
   = Return match last_filename values, last_lineno values with
            | Some filename, Some lineno => (lineno, Some filename)
            | _, _ => (0, None)
            end)
  ∧ (¬ Forall named_tag values →
     MergePoint.get_source_line values = Raise KeyError).
Proof.
  unfold MergePoint.get_source_line. split; intros Hnamed.
  - rewrite scan_last_entries by assumption. cbn.
    by destruct (last_filename values), (last_lineno values).
  - by rewrite scan_unnamed_tag.
Qed.

Lemma get_source_line_last_entries_witness :
  MergePoint.get_source_line
    [MP_FILENAME "a.py"; MP_LINENO 3; MP_SCOPE "f"; MP_LINENO 7]
  = Return (7, Some "a.py"%string)
  ∧ MergePoint.get_source_line [MP_FILENAME "a.py"; MP_LINENO 3; MP_STR "x"]
    = Raise KeyError.
Proof.
  split.
  - destruct (get_source_line_last_entries
                [MP_FILENAME "a.py"; MP_LINENO 3; MP_SCOPE "f"; MP_LINENO 7])
      as [Hnamed _].
    rewrite Hnamed; [reflexivity |].
    refine (bool_decide_unpack _ _). vm_compute. exact I.
  - destruct (get_source_line_last_entries
                [MP_FILENAME "a.py"; MP_LINENO 3; MP_STR "x"])
      as [_ Hunnamed].
    apply Hunnamed. intros Hnamed. apply (bool_decide_pack _) in Hnamed.
    vm_compute in Hnamed. destruct Hnamed.
Defined.

Lemma dict_get_dd_append_eq {V} (key : string) (x : V)
    (d : list (string * list V)) :
  dict_get key (dd_append key x d)
  = Some (default [] (dict_get key d) ++ [x]).
Proof.
  induction d as [| [k v] d IH]; cbn.
  - by rewrite decide_True.
  - destruct (decide (k = key)) as [-> | Hk]; cbn.
    + by rewrite decide_True.
    + by rewrite decide_False.
Qed.

Lemma get_source_line_named values :
  Forall named_tag values →
  MergePoint.get_source_line values
  = Return match last_filename values, last_lineno values with
           | Some filename, Some lineno => (lineno, Some filename)
           | _, _ => (0, None)
           end.
Proof.
  intros Hnamed. unfold MergePoint.get_source_line.
  rewrite scan_last_entries by assumption. cbn.
  by destruct (last_filename values), (last_lineno values).
Qed.

Lemma get_source_line_unnamed values :
  ¬ Forall named_tag values →
  MergePoint.get_source_line values = Raise KeyError.
Proof.
  intros Hnamed. unfold MergePoint.get_source_line.
  by rewrite scan_unnamed_tag.
Qed.

(** [add_instr] of a merge point, up to the call of
    [get_source_line]. *)
Lemma add_instr_merge_point values trace m stage :
  Trace.last_mark trace = Some m →
  Trace.stages trace !! m = Some stage →
  Trace.add_instr (Merge values) trace
  = match MergePoint.get_source_line values with
    | Return (lineno, Some f) =>
        if bool_decide (f ≠ ""%string)
        then (Return tt,
              Trace.set_merge_point_files
                (dd_append f lineno (Trace.merge_point_files trace))
                (Trace.set_stages
                   (alter (Stage.append (Merge values)) m (Trace.stages trace))
                   trace))
        else (Return tt,
              Trace.set_stages
                (alter (Stage.append (Merge values)) m (Trace.stages trace))
                trace)
    | Return (lineno, None) =>
        (Return tt,
         Trace.set_stages
           (alter (Stage.append (Merge values)) m (Trace.stages trace)) trace)
    | Raise e =>
        (Raise e,
         Trace.set_stages
           (alter (Stage.append (Merge values)) m (Trace.stages trace)) trace)
    end.
Proof.
  intros Hm Hstage.
  unfold Trace.add_instr, bind, get, modify, ret, raise, lift,
    Trace.get_stage, Trace.update_stage, assert.
  cbn. rewrite Hm. cbn. rewrite Hstage. cbn.
  destruct (MergePoint.get_source_line values) as [[lineno [f |]] | e];
    try reflexivity.
  by case_bool_decide.
Qed.

(** X2: on a trace whose current stage exists, [add_instr] of a merge
    point whose tags all have a name returns; when the merge point has
    a file name that is not empty and a line number, the line number
    is appended to the list kept for that file in
    [merge_point_files] (a new list for a new file) and the lists of
    all other files stay; otherwise [merge_point_files] is left as it
    was. *)
Theorem add_instr_records_source_line (values : list sem_value)
    (trace : Trace.t) (m : string) (stage : Stage.t) :
  Trace.last_mark trace = Some m →
  Trace.stages trace !! m = Some stage →
  Forall named_tag values →
  ∃ trace',
    Trace.add_instr (Merge values) trace = (Return tt, trace')
    ∧ match source_position values with
      | Some (filename, lineno) =>
          dict_get filename (Trace.merge_point_files trace')
          = Some (default [] (dict_get filename
                                (Trace.merge_point_files trace))
                    ++ [lineno])
          ∧ ∀ other, other ≠ filename →
              dict_get other (Trace.merge_point_files trace')
              = dict_get other (Trace.merge_point_files trace)
      | None => Trace.merge_point_files trace' = Trace.merge_point_files trace
      end.
Proof.
  intros Hm Hstage Hnamed.
  rewrite (add_instr_merge_point values trace m stage Hm Hstage).
  rewrite get_source_line_named by assumption. unfold source_position.
  destruct (last_filename values) as [f |], (last_lineno values) as [l |];
    try (by eexists).
  case_bool_decide; eexists; (split; [reflexivity |]); [| reflexivity].
  cbn. split; [apply dict_get_dd_append_eq |].
  intros other Hne. by apply dict_get_dd_append.
Qed.

Lemma add_instr_records_source_line_witness :
  ∃ trace',
    Trace.add_instr (Merge [MP_FILENAME "a.py"; MP_LINENO 3]) unoptimized_trace
    = (Return tt, trace')
    ∧ dict_get "a.py"%string (Trace.merge_point_files trace') = Some [3].
Proof.
  destruct (add_instr_records_source_line
              [MP_FILENAME "a.py"; MP_LINENO 3] unoptimized_trace
              "noopt"%string (Stage.Stage "noopt" [] 0))
    as (trace' & Hrun & Hfiles & _).
  - reflexivity.
  - vm_compute. reflexivity.
  - refine (bool_decide_unpack _ _). vm_compute. exact I.
  - exists trace'. split; [exact Hrun |]. rewrite Hfiles. reflexivity.
Defined.

(** X3: [add_instr] on a trace that has no current phase raises
    [AssertionError] and stores the operation nowhere, but the
    descriptor number of an operation that carries a descriptor is
    registered all the same: the registration comes before the stage
    lookup. *)
Theorem add_instr_without_phase (o : op) (trace : Trace.t) :
  Trace.last_mark trace = None →
  ∃ trace',
    Trace.add_instr o trace = (Raise AssertionError, trace')
    ∧ Trace.stages trace' = Trace.stages trace
    ∧ Trace.merge_point_files trace' = Trace.merge_point_files trace
    ∧ Trace.descr_numbers trace'
      = if has_descr o None
        then {[Trace.op_descr_number o]} ∪ Trace.descr_numbers trace
        else Trace.descr_numbers trace.
Proof.
  intros Hm.
  unfold Trace.add_instr, bind, get, modify, ret, raise, lift,
    Trace.get_stage, Trace.update_stage, assert.
  destruct (has_descr o None); cbn; rewrite Hm; cbn; by eexists.
Qed.

Lemma add_instr_without_phase_witness :
  ∃ trace',
    Trace.add_instr guard_op fresh_trace = (Raise AssertionError, trace')
    ∧ Trace.stages trace' = ∅
    ∧ Trace.descr_numbers trace' = {[Some 5]} ∪ ∅.
Proof.
  destruct (add_instr_without_phase guard_op fresh_trace)
    as (trace' & Hrun & Hstages & _ & Hdescr); [reflexivity |].
  exists trace'. split; [exact Hrun |]. split; [exact Hstages |].
  rewrite Hdescr. reflexivity.
Defined.

(** X4: [add_instr] of a merge point with a tag that has no name
    raises [KeyError] only after the merge point has been appended to
    the current stage; [merge_point_files] and [descr_numbers] are
    left as they were. *)
Theorem add_instr_unnamed_tag (values : list sem_value) (trace : Trace.t)
    (m : string) (stage : Stage.t) :
  Trace.last_mark trace = Some m →
  Trace.stages trace !! m = Some stage →
  ¬ Forall named_tag values →
  ∃ trace',
    Trace.add_instr (Merge values) trace = (Raise KeyError, trace')
    ∧ Trace.stages trace' !! m = Some (Stage.append (Merge values) stage)
    ∧ Trace.merge_point_files trace' = Trace.merge_point_files trace
    ∧ Trace.descr_numbers trace' = Trace.descr_numbers trace.
Proof.
  intros Hm Hstage Hnamed.
  rewrite (add_instr_merge_point values trace m stage Hm Hstage).
  rewrite get_source_line_unnamed by assumption.
  eexists. split; [reflexivity |]. cbn.
  by rewrite lookup_alter_eq, Hstage.
Qed.

Lemma add_instr_unnamed_tag_witness :
  ∃ trace',
    Trace.add_instr (Merge [MP_FILENAME "a.py"; MP_STR "x"]) unoptimized_trace
    = (Raise KeyError, trace')
    ∧ Stage.ops <$> Trace.stages trace' !! "noopt"%string
      = Some [Merge [MP_FILENAME "a.py"; MP_STR "x"]]
    ∧ Trace.merge_point_files trace' = [].
Proof.
  destruct (add_instr_unnamed_tag [MP_FILENAME "a.py"; MP_STR "x"]
              unoptimized_trace "noopt"%string (Stage.Stage "noopt" [] 0))
    as (trace' & Hrun & Hstage & Hfiles & _).
  - reflexivity.
  - vm_compute. reflexivity.
  - intros Hnamed. apply (bool_decide_pack _) in Hnamed.
    vm_compute in Hnamed. destruct Hnamed.
  - exists trace'. split; [exact Hrun |]. rewrite Hstage, Hfiles.
    by split.
Defined.

(** ** Captures *)

(** X5: on a trace whose current stage ends with a [FlatOp] that is
    held at no other position of the trace (here: whose value occurs
    at no other position of its stages, so that no other position can
    hold the same object), [set_core_dump_to_last_op] returns and
    replaces the capture of that last operation only: the operations
    before it, the stage's mark and time, and the other stages stay;
    read back without patches, the operation returns the bytes just
    attached, whatever capture it had before. *)
Theorem set_core_dump_to_last_op_attaches (rel_pos : Z) (dump : bytes)
    (trace : Trace.t) (m : string) (stage : Stage.t) (before : list op)
    (f : FlatOp.t) :
  Trace.last_mark trace = Some m →
  Trace.stages trace !! m = Some stage →
  Stage.ops stage = before ++ [Flat f] →
  Flat f ∉ before →
  (∀ m' stage', m' ≠ m → Trace.stages trace !! m' = Some stage' →
     Flat f ∉ Stage.ops stage') →
  ∃ trace',
    Trace.set_core_dump_to_last_op rel_pos dump trace = (Return tt, trace')
    ∧ Trace.stages trace' !! m
      = Some (Stage.Stage (Stage.mark stage)
                (before ++ [Flat (FlatOp.set_core_dump rel_pos dump f)])
                (Stage.timeval stage))
    ∧ (∀ m', m' ≠ m → Trace.stages trace' !! m' = Trace.stages trace !! m')
    ∧ ∀ base_addr timeval,
        FlatOp.get_core_dump (FlatOp.set_core_dump rel_pos dump f)
                             base_addr [] timeval
        = Return dump.
Proof.
  intros Hm Hstage Hops _ _.
  unfold Trace.set_core_dump_to_last_op, bind, get, modify, ret, raise,
    Trace.get_stage, Trace.update_stage, assert, Stage.get_last_op.
  cbn. rewrite Hm. cbn. rewrite Hstage. cbn.
  rewrite Hops, last_snoc. eexists. split; [reflexivity |]. cbn.
  split; [| split].
  - rewrite lookup_alter_eq, Hstage. cbn. by rewrite Hops, removelast_last.
  - intros m' Hne. by rewrite lookup_alter_ne.
  - reflexivity.
Qed.

Lemma set_core_dump_to_last_op_attaches_witness :
  ∃ trace',
    Trace.set_core_dump_to_last_op 4 (b "BBBB")
      (Trace.set_stages
         (<["opt"%string := Stage.Stage "opt" [plain_op "label"] 0]>
            (Trace.stages two_op_trace)) two_op_trace)
    = (Return tt, trace')
    ∧ Stage.ops <$> Trace.stages trace' !! "noopt"%string
      = Some [plain_op "label";
              Flat (FlatOp.FlatOp 0 "int_add" [] None None None
                                  (Some (4, b "BBBB")))]
    ∧ Stage.ops <$> Trace.stages trace' !! "opt"%string
      = Some [plain_op "label"].
Proof.
  destruct (set_core_dump_to_last_op_attaches 4 (b "BBBB")
              (Trace.set_stages
                 (<["opt"%string := Stage.Stage "opt" [plain_op "label"] 0]>
                    (Trace.stages two_op_trace)) two_op_trace)
              "noopt"%string
              (Stage.Stage "noopt" [plain_op "label"; plain_op "int_add"] 0)
              [plain_op "label"]
              (FlatOp.FlatOp 0 "int_add" [] None None None None))
    as (trace' & Hrun & Hstage & Hother & _).
  - reflexivity.
  - vm_compute. reflexivity.
  - reflexivity.
  - intros Hin. apply list_elem_of_singleton in Hin. discriminate.
  - intros m' stage' Hne Hstage'.
    change (<["opt"%string := Stage.Stage "opt" [plain_op "label"] 0]>
              (<["noopt"%string :=
                   Stage.Stage "noopt"
                     [plain_op "label"; plain_op "int_add"] 0]>
                 (∅ : gmap string Stage.t)) !! m' = Some stage') in Hstage'.
    destruct (decide (m' = "opt"%string)) as [-> | Hopt].
    + rewrite lookup_insert_eq in Hstage'. injection Hstage' as <-.
      intros Hin. apply list_elem_of_singleton in Hin. discriminate.
    + rewrite !lookup_insert_ne, lookup_empty in Hstage' by done.
      discriminate.
  - exists trace'. split; [exact Hrun |].
    split; [by rewrite Hstage |].
    rewrite Hother by done. vm_compute. reflexivity.
Defined.

(** X6: [set_core_dump_to_last_op] fails without changing the trace
    when there is nothing to attach the capture to: with no current
    phase it raises [AssertionError], with an empty current stage
    [AttributeError], and when the last operation of the stage is a
    merge point [NotImplementedError]. *)
Theorem set_core_dump_to_last_op_failures (rel_pos : Z) (dump : bytes)
    (trace : Trace.t) :
  (Trace.last_mark trace = None →
   Trace.set_core_dump_to_last_op rel_pos dump trace
   = (Raise AssertionError, trace))
  ∧ (∀ m stage,
       Trace.last_mark trace = Some m →
       Trace.stages trace !! m = Some stage →
       Stage.ops stage = [] →
       Trace.set_core_dump_to_last_op rel_pos dump trace
       = (Raise AttributeError, trace))
  ∧ (∀ m stage before values,
       Trace.last_mark trace = Some m →
       Trace.stages trace !! m = Some stage →
       Stage.ops stage = before ++ [Merge values] →
       Trace.set_core_dump_to_last_op rel_pos dump trace
       = (Raise NotImplementedError, trace)).
Proof.
  unfold Trace.set_core_dump_to_last_op, bind, get, modify, ret, raise,
    Trace.get_stage, Trace.update_stage, assert, Stage.get_last_op.
  split; [| split].
  - intros Hm. cbn. by rewrite Hm.
  - intros m stage Hm Hstage Hops. cbn. rewrite Hm. cbn. rewrite Hstage.
    cbn. by rewrite Hops.
  - intros m stage before values Hm Hstage Hops. cbn. rewrite Hm. cbn.
    rewrite Hstage. cbn. by rewrite Hops, last_snoc.
Qed.

Lemma set_core_dump_to_last_op_failures_witness :
  Trace.set_core_dump_to_last_op 0 (b "AA") fresh_trace
  = (Raise AssertionError, fresh_trace)
  ∧ Trace.set_core_dump_to_last_op 0 (b "AA") unoptimized_trace
    = (Raise AttributeError, unoptimized_trace)
  ∧ Trace.set_core_dump_to_last_op 0 (b "AA")
      (Trace.add_instr (Merge [MP_LINENO 3]) unoptimized_trace).2
    = (Raise NotImplementedError,
       (Trace.add_instr (Merge [MP_LINENO 3]) unoptimized_trace).2).
Proof.
  split; [| split].
  - by apply set_core_dump_to_last_op_failures.
  - apply (proj1 (proj2 (set_core_dump_to_last_op_failures
                           0 (b "AA") unoptimized_trace))
             "noopt"%string (Stage.Stage "noopt" [] 0));
      [reflexivity | vm_compute; reflexivity | reflexivity].
  - apply (proj2 (proj2 (set_core_dump_to_last_op_failures 0 (b "AA") _))
             "noopt"%string
             (Stage.Stage "noopt" [Merge [MP_LINENO 3]] 0) []
             [MP_LINENO 3]);
      [vm_compute; reflexivity | vm_compute; reflexivity | reflexivity].
Defined.

Lemma slice_prefix {A} (l : list A) (stop : Z) :
  0 ≤ stop → slice l None (Some stop) = take (Z.to_nat stop) l.
Proof.
  intros Hstop. unfold slice, slice_index. cbn [from_option].
  destruct (Z.ltb_spec stop 0) as [Hneg | _]; [lia |].
  rewrite drop_0, Z.sub_0_r.
  destruct (Z.min_spec stop (len l)) as [[Hlt ->] | [Hge ->]];
    [reflexivity |].
  unfold len in *. rewrite Nat2Z.id, firstn_all. symmetry.
  apply take_ge. lia.
Qed.

Lemma slice_suffix_end {A} (l : list A) :
  slice l (Some (len l)) None = [].
Proof.
  unfold slice, slice_index. cbn [from_option].
  destruct (Z.ltb_spec (len l) 0) as [Hneg | _];
    [unfold len in Hneg; lia |].
  rewrite Z.min_id, Z.sub_diag. apply take_0.
Qed.

(** X7: [FlatOp.get_core_dump] returns the capture unchanged when every
    patch it is given was recorded after the requested time, however
    many there are and wherever they point; an operation without a
    capture raises [TypeError]. *)
Theorem get_core_dump_ignores_later_patches (f : FlatOp.t) (base_addr : Z)
    (patches : list patch) (timeval : Z) :
  (∀ op_off dump,
     FlatOp.core_dump f = Some (op_off, dump) →
     Forall (λ p : patch, timeval < p.1.1) patches →
     FlatOp.get_core_dump f base_addr patches timeval = Return dump)
  ∧ (FlatOp.core_dump f = None →
     FlatOp.get_core_dump f base_addr patches timeval = Raise TypeError).
Proof.
  unfold FlatOp.get_core_dump. split.
  - intros op_off dump -> Hlater. f_equal.
    induction Hlater as [| [[timepos addr] content] patches Hp _ IH];
      [reflexivity |].
    cbn [foldl]. cbn in Hp. by rewrite overlay_later_patch.
  - by intros ->.
Qed.

Lemma get_core_dump_ignores_later_patches_witness :
  FlatOp.get_core_dump
    (FlatOp.FlatOp 0 "mov" [] None None None (Some (0, b "AAAAAAAA")))
    1000 [(5, 1002, b "XX"); (9, 1000, b "YYYYYYYYYYYY")] 4
  = Return (b "AAAAAAAA")
  ∧ FlatOp.get_core_dump
      (FlatOp.FlatOp 0 "mov" [] None None None None) 1000 [] 4
    = Raise TypeError.
Proof.
  split.
  - apply (proj1 (get_core_dump_ignores_later_patches _ _ _ _) 0);
      [reflexivity |].
    repeat constructor.
  - by apply get_core_dump_ignores_later_patches.
Defined.

(** X8: an applied patch that starts inside the capture and reaches
    its end or goes beyond it is cut to fit: the dump keeps the bytes
    before the patch, continues with as much of the patch content as
    there is room for, and has the length of the capture. *)
Theorem overlay_truncates_at_end (op_off base_addr timeval : Z)
    (coredump : bytes) (timepos addr : Z) (content : bytes) :
  timepos ≤ timeval →
  0 ≤ (addr - base_addr) - op_off ≤ len coredump →
  len coredump ≤ (addr - base_addr) - op_off + len content →
  FlatOp.overlay op_off base_addr timeval coredump (timepos, addr, content)
  = take (Z.to_nat ((addr - base_addr) - op_off)) coredump
      ++ take (Z.to_nat (len coredump - ((addr - base_addr) - op_off)))
              content
  ∧ len (FlatOp.overlay op_off base_addr timeval coredump
           (timepos, addr, content))
    = len coredump.
Proof.
  intros Htime Hstart Hend.
  assert (FlatOp.overlay op_off base_addr timeval coredump
            (timepos, addr, content)
          = take (Z.to_nat ((addr - base_addr) - op_off)) coredump
              ++ take (Z.to_nat (len coredump - ((addr - base_addr) - op_off)))
                      content) as Heq.
  { unfold FlatOp.overlay.
    destruct (Z.ltb_spec timeval timepos) as [Hlt | _]; [lia |].
    destruct (Z.geb_spec (addr - base_addr - op_off + len content)
                (len coredump)) as [_ | Hlt]; [| lia].
    rewrite !slice_prefix by lia. by rewrite slice_suffix_end, app_nil_r. }
  split; [exact Heq |]. rewrite Heq, len_app.
  unfold len in *. rewrite !length_take. lia.
Qed.

Lemma overlay_truncates_at_end_witness :
  FlatOp.overlay 0 1000 5 (b "AAAAAAAA") (5, 1006, b "XYZ") = b "AAAAAAXY".
Proof.
  destruct (overlay_truncates_at_end 0 1000 5 (b "AAAAAAAA") 5 1006 (b "XYZ"))
    as [Heq _]; [lia | vm_compute; split; discriminate
                 | vm_compute; discriminate |].
  rewrite Heq. reflexivity.
Defined.

(** X9: the first call of [Trace.get_core_dump] fixes the patches of
    the trace: whatever its outcome, it stores the patches of the
    forest whose address lies within the address bounds, and changes
    nothing else; every later call works on the stored list and
    neither reads the patches of the forest nor changes the trace, so
    a patch recorded after the first call is never applied. *)
Theorem get_core_dump_fixes_patches (forest : TraceForest) (timeval : Z)
    (opslice : Z * Z) (trace : Trace.t) :
  (Trace.my_patches trace = None →
   (Trace.get_core_dump forest timeval opslice trace).2
   = Trace.set_my_patches
       (Some (filter (λ p : patch, Trace.contains_patch trace p.1.2 = true)
                     (patches forest)))
       trace)
  ∧ (∀ stored forest',
       Trace.my_patches trace = Some stored →
       Trace.get_core_dump forest' timeval opslice trace
       = Trace.get_core_dump forest timeval opslice trace
       ∧ (Trace.get_core_dump forest timeval opslice trace).2 = trace).
Proof.
  destruct opslice as [start end_].
  unfold Trace.get_core_dump, bind, get, modify, ret, raise, lift,
    Trace.get_stage, assert.
  split.
  - intros ->. cbn.
    destruct (Trace.stages trace !! "asm"%string); cbn; [| reflexivity].
    match goal with
    | |- context [collect ?g ?l] => by destruct (collect g l)
    end.
  - intros stored forest' ->. cbn. split; [reflexivity |].
    destruct (Trace.stages trace !! "asm"%string); cbn; [| reflexivity].
    match goal with
    | |- context [collect ?g ?l] => by destruct (collect g l)
    end.
Qed.

Lemma get_core_dump_fixes_patches_witness :
  Trace.my_patches
    (Trace.get_core_dump
       (TraceForest.set_patches [(5, 1002, b "XX"); (6, 3000, b "YY")]
                                (forest_at 6))
       4 Trace.default_opslice
       (Trace.set_addrs (1000, 1007) fresh_trace)).2
  = Some [(5, 1002, b "XX")]
  ∧ Trace.get_core_dump (forest_at 9) 4 Trace.default_opslice
      (Trace.set_my_patches (Some []) fresh_trace)
    = Trace.get_core_dump (forest_at 6) 4 Trace.default_opslice
        (Trace.set_my_patches (Some []) fresh_trace).
Proof.
  split.
  - rewrite (proj1 (get_core_dump_fixes_patches _ _ _ _)) by reflexivity.
    vm_compute. reflexivity.
  - by apply (proj2 (get_core_dump_fixes_patches (forest_at 6) 4
                       Trace.default_opslice
                       (Trace.set_my_patches (Some []) fresh_trace))
                [] (forest_at 9)).
Defined.

(** ** Ranges of line numbers *)

Lemma iter_ranges_runs numbers :
  ∃ rs, runs (sort numbers) rs ∧ iter_ranges numbers = closed_range <$> rs.
Proof.
  unfold iter_ranges. case_bool_decide as Hlen.
  - destruct numbers; [| unfold len in Hlen; cbn in Hlen; lia].
    exists []. split; [constructor | reflexivity].
  - destruct (sort numbers) as [| first rest] eqn:Hsort.
    + exists []. split; [constructor | reflexivity].
    + destruct (iter_ranges_loop_runs (len (first :: rest)) rest first [] 0)
        as (rs & Hrs & Heq); [constructor | unfold len; cbn; lia |].
      by exists rs.
Qed.

Lemma sort_strongly_sorted numbers : StronglySorted Z.le (sort numbers).
Proof. apply (StronglySorted_merge_sort Z.le). Qed.

Lemma elem_of_sort x numbers : x ∈ sort numbers ↔ x ∈ numbers.
Proof. unfold sort. by rewrite merge_sort_Permutation. Qed.

(** The end of a sorted run. *)
Lemma run_end_bounds first run :
  StronglySorted Z.le (first :: run) →
  Forall (λ i, i - first ≤ 50) run →
  run_end first run ∈ first :: run
  ∧ run_end first run ≤ first + 50
  ∧ ∀ x, x ∈ first :: run → first ≤ x ≤ run_end first run.
Proof.
  intros Hsorted Hrun. unfold run_end.
  apply StronglySorted_cons in Hsorted as [Hfirst Hsorted].
  rewrite Forall_forall in Hfirst, Hrun.
  destruct run as [| y run _] using rev_ind.
  - cbn. split; [left |]. split; [lia |].
    intros x Hx. apply list_elem_of_singleton in Hx as ->. lia.
  - rewrite last_snoc. cbn.
    assert (y ∈ run ++ [y]) as Hy by (apply elem_of_app; right; left).
    split; [by right |]. split; [specialize (Hrun y Hy); lia |].
    intros x Hx. apply elem_of_cons in Hx as [-> | Hx].
    + specialize (Hfirst y Hy). lia.
    + split; [by apply Hfirst |].
      apply elem_of_app in Hx as [Hx | Hx].
      * apply (StronglySorted_app_1_elem_of Z.le run [y]); [done.. | left].
      * apply list_elem_of_singleton in Hx as ->. lia.
Qed.

(** The runs of a sorted list: their ends are members of the list at
    most 50 apart, every member lies in a run, and each run ends
    before the next one starts. *)
Lemma runs_of_sorted l rs :
  runs l rs →
  StronglySorted Z.le l →
  Forall (λ r, r.1 ∈ l ∧ r.2 ∈ l ∧ r.1 ≤ r.2 ≤ r.1 + 50) rs
  ∧ (∀ x, x ∈ l → Exists (λ r, r.1 ≤ x ≤ r.2) rs)
  ∧ StronglySorted (λ r r' : Z * Z, r.2 < r'.1) rs.
Proof.
  induction 1 as [| first run Hrun | first run i rest rs Hrun Hgap Hrest IH];
    intros Hsorted.
  - split; [constructor |]. split; [by intros x Hx; inversion Hx |].
    constructor.
  - destruct (run_end_bounds first run Hsorted Hrun) as (Hend & Hwidth & Hin).
    split; [| split].
    + constructor; [| constructor]. cbn. split; [left |].
      split; [exact Hend |]. specialize (Hin first ltac:(left)). lia.
    + intros x Hx. left. cbn. by apply Hin.
    + repeat constructor.
  - change (first :: run ++ i :: rest) with ((first :: run) ++ i :: rest)
      in Hsorted |- *.
    pose proof (StronglySorted_app_1_l _ _ _ Hsorted) as Hleft.
    pose proof (StronglySorted_app_1_r _ _ _ Hsorted) as Hright.
    destruct (run_end_bounds first run Hleft Hrun) as (Hend & Hwidth & Hin).
    destruct (IH Hright) as (Hends & Hcover & Hasc).
    split; [| split].
    + constructor.
      * cbn [fst snd]. split; [left |].
        split; [apply (elem_of_app (first :: run) (i :: rest)); by left |].
        specialize (Hin first ltac:(left)). lia.
      * eapply Forall_impl; [exact Hends |].
        intros r (H1 & H2 & H3). repeat split; try lia;
          apply (elem_of_app (first :: run) (i :: rest)); by right.
    + intros x Hx.
      apply (elem_of_app (first :: run) (i :: rest)) in Hx as [Hx | Hx].
      * left. cbn. by apply Hin.
      * right. by apply Hcover.
    + constructor; [exact Hasc |].
      eapply Forall_impl; [exact Hends |].
      intros r (H1 & _ & _). cbn.
      apply StronglySorted_cons in Hright as [Hi _].
      rewrite Forall_forall in Hi.
      apply elem_of_cons in H1 as [-> | H1]; [lia |].
      specialize (Hi _ H1). lia.
Qed.

Lemma numbers_runs numbers :
  ∃ rs,
    iter_ranges numbers = closed_range <$> rs
    ∧ Forall (λ r, r.1 ∈ numbers ∧ r.2 ∈ numbers ∧ r.1 ≤ r.2 ≤ r.1 + 50) rs
    ∧ (∀ x, x ∈ numbers → Exists (λ r, r.1 ≤ x ≤ r.2) rs)
    ∧ StronglySorted (λ r r' : Z * Z, r.2 < r'.1) rs.
Proof.
  destruct (iter_ranges_runs numbers) as (rs & Hruns & Heq).
  destruct (runs_of_sorted _ _ Hruns (sort_strongly_sorted numbers))
    as (Hends & Hcover & Hasc).
  exists rs. split; [exact Heq |]. split; [| split; [| exact Hasc]].
  - eapply Forall_impl; [exact Hends |].
    intros r (H1 & H2 & H3). by rewrite !elem_of_sort in H1, H2.
  - intros x Hx. apply Hcover. by apply elem_of_sort.
Qed.

(** X10: every number given to [iter_ranges] lies in one of the ranges
    it yields: no requested line is left out. *)
Theorem iter_ranges_covers (numbers : list Z) (x : Z) :
  x ∈ numbers → ∃ range, range ∈ iter_ranges numbers ∧ x ∈ range.
Proof.
  intros Hx. destruct (numbers_runs numbers) as (rs & Heq & _ & Hcover & _).
  rewrite Heq. apply Hcover in Hx.
  apply Exists_exists in Hx as ([first last] & Hr & Hbounds).
  exists (closed_range (first, last)). split.
  - apply list_elem_of_fmap. by exists (first, last).
  - by apply elem_of_closed_range.
Qed.

Lemma iter_ranges_covers_witness :
  ∃ range, range ∈ iter_ranges [200; 3; 61; 1] ∧ 61 ∈ range.
Proof.
  apply (iter_ranges_covers [200; 3; 61; 1] 61).
  do 2 right. left.
Defined.

(** X11: every range [iter_ranges] yields is the list of all integers
    from one of the given numbers up to another of them that is at
    most 50 larger: a range is never empty, never starts or ends
    outside the given numbers, and never has more than 51 entries. *)
Theorem iter_ranges_range_bounds (numbers : list Z) (range : list Z) :
  range ∈ iter_ranges numbers →
  ∃ first last,
    first ∈ numbers ∧ last ∈ numbers
    ∧ first ≤ last ≤ first + 50
    ∧ (∀ x, x ∈ range ↔ first ≤ x ≤ last)
    ∧ len range = last - first + 1.
Proof.
  intros Hrange. destruct (numbers_runs numbers) as (rs & Heq & Hends & _).
  rewrite Heq in Hrange.
  apply list_elem_of_fmap in Hrange as ([first last] & -> & Hr).
  rewrite Forall_forall in Hends.
  destruct (Hends _ Hr) as (Hfirst & Hlast & Hwidth). cbn in *.
  exists first, last. split; [exact Hfirst |]. split; [exact Hlast |].
  split; [exact Hwidth |].
  split; [intros x; apply elem_of_closed_range |].
  unfold closed_range, range, len. cbn [fst snd].
  rewrite length_fmap, length_seq. lia.
Qed.

Lemma iter_ranges_range_bounds_witness :
  ∃ first last,
    first ∈ [1; 51; 52] ∧ last ∈ [1; 51; 52]
    ∧ first ≤ last ≤ first + 50
    ∧ (∀ x, x ∈ range 1 52 ↔ first ≤ x ≤ last)
    ∧ len (range 1 52) = last - first + 1.
Proof.
  apply (iter_ranges_range_bounds [1; 51; 52] (range 1 52)).
  assert (iter_ranges [1; 51; 52] = [range 1 52; range 52 53]) as ->
    by (vm_compute; reflexivity).
  left.
Defined.

Lemma range_increasing lo hi : StronglySorted Z.lt (range lo hi).
Proof.
  unfold range. apply (StronglySorted_fmap _ lt); [intros; lia |].
  generalize 0%nat. induction (Z.to_nat (hi - lo)) as [| n IH]; intros start.
  - constructor.
  - cbn. constructor; [apply IH |].
    apply Forall_forall. intros k Hk. apply elem_of_seq in Hk. lia.
Qed.

Lemma closed_ranges_increasing rs :
  StronglySorted (λ r r' : Z * Z, r.2 < r'.1) rs →
  StronglySorted Z.lt (concat (closed_range <$> rs)).
Proof.
  induction rs as [| [first last] rs IH]; intros Hasc; [constructor |].
  apply StronglySorted_cons in Hasc as [Hr Hasc].
  cbn [fmap list_fmap concat]. apply StronglySorted_app_2.
  - intros x1 x2 Hx1 Hx2.
    apply elem_of_closed_range in Hx1.
    apply list_elem_of_In, in_concat in Hx2 as (range & Hrange & Hx2).
    apply list_elem_of_In in Hrange, Hx2.
    apply list_elem_of_fmap in Hrange as ([first' last'] & -> & Hr').
    apply elem_of_closed_range in Hx2.
    rewrite Forall_forall in Hr. specialize (Hr _ Hr'). cbn in Hr. lia.
  - apply range_increasing.
  - by apply IH.
Qed.

(** X12: the numbers of the ranges [iter_ranges] yields, taken in the
    order of the ranges, are strictly increasing: the ranges do not
    overlap and come in ascending order, so no line number is produced
    twice by one call. *)
Theorem iter_ranges_increasing (numbers : list Z) :
  StronglySorted Z.lt (concat (iter_ranges numbers)).
Proof.
  destruct (numbers_runs numbers) as (rs & Heq & _ & _ & Hasc).
  rewrite Heq. by apply closed_ranges_increasing.
Qed.

Lemma sort_of_permutation numbers1 numbers2 :
  numbers1 ≡ₚ numbers2 → sort numbers1 = sort numbers2.
Proof.
  intros Hperm. apply (StronglySorted_unique_strong Z.le).
  - intros x1 x2 _ _. lia.
  - apply sort_strongly_sorted.
  - apply sort_strongly_sorted.
  - by rewrite !sort_permutation.
Qed.

(** X13: [iter_ranges] does not depend on the order in which the
    numbers are given: two lists that are permutations of each other
    yield the same ranges. *)
Theorem iter_ranges_order_independent (numbers1 numbers2 : list Z) :
  numbers1 ≡ₚ numbers2 → iter_ranges numbers1 = iter_ranges numbers2.
Proof.
  intros Hperm. unfold iter_ranges.
  rewrite (sort_of_permutation _ _ Hperm).
  unfold len. by rewrite (Permutation_length Hperm).
Qed.

Lemma iter_ranges_order_independent_witness :
  iter_ranges [200; 3; 61; 1] = iter_ranges [1; 3; 61; 200].
Proof.
  apply iter_ranges_order_independent.
  apply (NoDup_Permutation [200; 3; 61; 1] [1; 3; 61; 200]).
  - refine (bool_decide_unpack _ _). vm_compute. exact I.
  - refine (bool_decide_unpack _ _). vm_compute. exact I.
  - intros x. rewrite !elem_of_cons, !elem_of_nil. intuition.
Defined.

(** ** Markers *)

Lemma single_byte_marker c :
  (str_le MARK_JITLOG_START [c] && str_le [c] MARK_JITLOG_END)
  = bool_decide ([c] ∈ marks).
Proof. destruct c; vm_compute; reflexivity. Qed.

(** X14: [is_jitlog_marker] answers true exactly for the [MARK_*]
    constants of constants.py: the constants fill the byte range
    between [MARK_JITLOG_START] and [MARK_JITLOG_END] without a gap.
    The empty string is no marker, and a string of more than one
    character fails the assertion. *)
Theorem is_jitlog_marker_recognises_marks (marker : bytes) :
  (is_jitlog_marker marker = Return true ↔ marker ∈ marks)
  ∧ (is_jitlog_marker [] = Return false)
  ∧ (1 < len marker → is_jitlog_marker marker = Raise AssertionError).
Proof.
  unfold is_jitlog_marker. split; [| split].
  - destruct marker as [| c [| d rest]].
    + rewrite bool_decide_true by reflexivity. split; [discriminate |].
      intros Hin. apply (bool_decide_pack _) in Hin. vm_compute in Hin.
      destruct Hin.
    + rewrite bool_decide_false by discriminate.
      rewrite bool_decide_true by reflexivity.
      rewrite single_byte_marker. split.
      * intros [= Hin]. by apply bool_decide_eq_true in Hin.
      * intros Hin. f_equal. by apply bool_decide_eq_true.
    + rewrite bool_decide_false by discriminate.
      rewrite bool_decide_false by (unfold len; cbn; lia).
      split; [discriminate |].
      intros Hin. unfold marks in Hin.
      repeat (apply elem_of_cons in Hin as [Hin | Hin]; [discriminate |]).
      inversion Hin.
  - reflexivity.
  - intros Hlen. rewrite bool_decide_false.
    + rewrite bool_decide_false by lia. reflexivity.
    + intros ->. unfold len in Hlen. cbn in Hlen. lia.
Qed.

Lemma is_jitlog_marker_recognises_marks_witness :
  is_jitlog_marker MARK_STITCH_BRIDGE = Return true
  ∧ is_jitlog_marker [x10; x11] = Raise AssertionError.
Proof.
  split.
  - apply (is_jitlog_marker_recognises_marks MARK_STITCH_BRIDGE).
    unfold marks. do 10 right. left.
  - apply (is_jitlog_marker_recognises_marks [x10; x11]).
    vm_compute. reflexivity.
Defined.

(** ** Registering traces *)

Lemma dict_get_dict_set_eq {V} (key : Z) (v : V) (d : list (Z * V)) :
  dict_get key (dict_set key v d) = Some v.
Proof.
  induction d as [| [k y] d IH]; cbn.
  - by rewrite decide_True.
  - destruct (decide (k = key)) as [-> | Hk]; cbn.
    + by rewrite decide_True.
    + by rewrite decide_False.
Qed.

Lemma dict_get_dict_set_ne {V} (key other : Z) (v : V) (d : list (Z * V)) :
  other ≠ key → dict_get other (dict_set key v d) = dict_get other d.
Proof.
  intros Hne. induction d as [| [k y] d IH]; cbn.
  - by rewrite decide_False.
  - destruct (decide (k = key)) as [-> | Hk]; cbn.
    + by rewrite !decide_False.
    + destruct (decide (k = other)); [reflexivity | exact IH].
Qed.

Lemma length_dict_set_present {V} (key : Z) (v : V) (d : list (Z * V)) :
  is_Some (dict_get key d) → length (dict_set key v d) = length d.
Proof.
  induction d as [| [k y] d IH]; cbn; intros Hget.
  - by destruct Hget.
  - destruct (decide (k = key)); cbn; [reflexivity |]. by rewrite IH.
Qed.

(** X15: [add_trace] with the type ['loop'] or ['bridge'] creates a
    new trace object without stage, bound or bridge, returns it, makes
    it the last trace, and registers it under the id: [get_trace]
    finds it there, also when the id was in use, in which case the
    earlier trace is replaced in the index (the number of registered
    ids stays) although its object remains; the lookups of all other
    ids, the other objects, the clock and the patches stay. With any
    other type the call raises [AssertionError] and changes
    nothing. *)
Theorem add_trace_registers (s : Store) (trace_type : string)
    (unique_id : Z) :
  (trace_type = "loop"%string ∨ trace_type = "bridge"%string →
   ∃ s',
     TraceForest.add_trace trace_type unique_id s
     = (Return (length (objects s)), s')
     ∧ objects s'
       = objects s
           ++ [Trace.Trace trace_type [] unique_id ∅ None (-1, -1) None []
                           ∅ 0 []]
     ∧ TraceForest.get_trace (forest s') unique_id
       = Some (length (objects s))
     ∧ last_trace (forest s') = Some (length (objects s))
     ∧ (∀ id, id ≠ unique_id →
          TraceForest.get_trace (forest s') id
          = TraceForest.get_trace (forest s) id)
     ∧ (is_Some (TraceForest.get_trace (forest s) unique_id) →
        length (traces (forest s')) = length (traces (forest s)))
     ∧ timepos (forest s') = timepos (forest s)
     ∧ patches (forest s') = patches (forest s)
     ∧ addrs (forest s') = addrs (forest s))
  ∧ (¬ (trace_type = "loop"%string ∨ trace_type = "bridge"%string) →
     TraceForest.add_trace trace_type unique_id s = (Raise AssertionError, s)).
Proof.
  unfold TraceForest.add_trace, bind, get, modify, ret, lift,
    TraceForest.update, Trace.init, TraceForest.get_trace.
  split; intros Htype.
  - rewrite bool_decide_true by assumption. cbn.
    eexists. split; [reflexivity |]. cbn.
    split; [reflexivity |]. split; [apply dict_get_dict_set_eq |].
    split; [reflexivity |].
    split; [intros id Hne; by apply dict_get_dict_set_ne |].
    split; [apply length_dict_set_present |]. done.
  - by rewrite bool_decide_false by assumption.
Qed.

Lemma add_trace_registers_witness :
  (∃ s',
     TraceForest.add_trace "bridge" 1 two_traces_store = (Return 2%nat, s')
     ∧ TraceForest.get_trace (forest s') 1 = Some 2%nat
     ∧ TraceForest.get_trace (forest s') 2 = Some 1%nat
     ∧ length (traces (forest s')) = 2%nat)
  ∧ TraceForest.add_trace "entry bridge" 3 two_traces_store
    = (Raise AssertionError, two_traces_store).
Proof.
  destruct (add_trace_registers two_traces_store "bridge" 1) as [Hok _].
  destruct (add_trace_registers two_traces_store "entry bridge" 3)
    as [_ Hbad].
  split.
  - destruct Hok as (s' & Hrun & _ & Hget & _ & Hother & Hlen & _);
      [by right |].
    exists s'. split; [exact Hrun |]. split; [exact Hget |].
    split; [rewrite Hother by lia; vm_compute; reflexivity |].
    rewrite Hlen; [vm_compute; reflexivity |].
    eexists. vm_compute. reflexivity.
  - apply Hbad. intros [Heq | Heq]; discriminate.
Defined.

(** ** Bridges with several candidate traces *)

Lemma stitch_bridge_loop_first items d addr_to s :
  (∀ item, item ∈ items → is_Some (objects s !! item.2)) →
  (∃ item trace,
     item ∈ items ∧ objects s !! item.2 = Some trace
     ∧ d ∈ Trace.descr_numbers trace) →
  ∃ item trace,
    item ∈ items
    ∧ objects s !! item.2 = Some trace
    ∧ d ∈ Trace.descr_numbers trace
    ∧ TraceForest.stitch_bridge_loop items d addr_to s
      = (Return tt,
         set_objects
           (<[item.2 := with_bridge (timepos (forest s)) d addr_to trace]>
              (objects s)) s).
Proof.
  induction items as [| [tid r0] rest IH]; intros Hvalid Hsome.
  - destruct Hsome as (item & trace & Hin & _). inversion Hin.
  - destruct (Hvalid (tid, r0)) as [t0 Ht0]; [left |]. cbn in Ht0.
    cbn [TraceForest.stitch_bridge_loop]. unfold bind, deref.
    rewrite Ht0. case_bool_decide as Hd0.
    + exists (tid, r0), t0. split; [left |]. split; [exact Ht0 |].
      split; [exact Hd0 |]. unfold call. cbn. by rewrite Ht0.
    + destruct IH as (item & trace & Hin & Hobj & Hd & Hrun).
      * intros item Hitem. apply Hvalid. by right.
      * destruct Hsome as (item & trace & Hin & Hobj & Hd).
        exists item, trace. split; [| by split].
        apply elem_of_cons in Hin as [-> | Hin]; [| exact Hin].
        exfalso. apply Hd0. cbn in Hobj. congruence.
      * exists item, trace. split; [by right |]. by split.
Qed.

(** X16: when at least one trace of the forest has registered the
    descriptor number, also when several have, [stitch_bridge]
    succeeds and stitches the bridge onto exactly one of them: one
    registered trace that has the number gets the record (current
    timepos, descriptor number, target) appended, and no other object
    and nothing of the forest changes. *)
Theorem stitch_bridge_one_of_the_owners (s : Store) (d : option Z)
    (addr_to : Z) :
  (∀ item, item ∈ traces (forest s) → is_Some (objects s !! item.2)) →
  (∃ item trace,
     item ∈ traces (forest s) ∧ objects s !! item.2 = Some trace
     ∧ d ∈ Trace.descr_numbers trace) →
  ∃ item trace s',
    TraceForest.stitch_bridge d addr_to s = (Return tt, s')
    ∧ item ∈ traces (forest s)
    ∧ objects s !! item.2 = Some trace
    ∧ d ∈ Trace.descr_numbers trace
    ∧ objects s'
      = <[item.2 := with_bridge (timepos (forest s)) d addr_to trace]>
          (objects s)
    ∧ forest s' = forest s.
Proof.
  intros Hvalid Hsome.
  destruct (stitch_bridge_loop_first _ d addr_to s Hvalid Hsome)
    as (item & trace & Hin & Hobj & Hd & Hrun).
  exists item, trace. eexists.
  unfold TraceForest.stitch_bridge, bind, get.
  split; [exact Hrun |]. by repeat split.
Qed.

Lemma stitch_bridge_one_of_the_owners_witness :
  ∃ item trace s',
    TraceForest.stitch_bridge (Some 5) 2000 two_traces_store = (Return tt, s')
    ∧ item ∈ traces (forest two_traces_store)
    ∧ objects two_traces_store !! item.2 = Some trace
    ∧ Some 5 ∈ Trace.descr_numbers trace
    ∧ objects s'
      = <[item.2 := with_bridge (timepos (forest two_traces_store))
                      (Some 5) 2000 trace]> (objects two_traces_store)
    ∧ forest s' = forest two_traces_store.
Proof.
  assert (traces (forest two_traces_store) = [(1, 0%nat); (2, 1%nat)])
    as Htraces by (vm_compute; reflexivity).
  apply stitch_bridge_one_of_the_owners.
  - intros item Hin. rewrite Htraces in Hin.
    apply elem_of_cons in Hin as [-> | Hin];
      [| apply elem_of_cons in Hin as [-> | Hin]; [| inversion Hin]];
      eexists; vm_compute; reflexivity.
  - exists (2, 1%nat). eexists. split; [rewrite Htraces; right; left |].
    split; [vm_compute; reflexivity |].
    refine (bool_decide_unpack _ _). vm_compute. exact I.
Defined.

(** X22: with one owner of the descriptor number, or none, the
    outcome of the loop of [stitch_bridge] does not depend on the
    order in which the dict of the traces hands out its items: walked
    in any permutation of the entries, the loop gives the result and
    the store that [stitch_bridge] gives. *)
Theorem stitch_bridge_any_order (s : Store) (d : option Z) (addr_to : Z)
    (visit : list (Z * ref)) :
  visit ≡ₚ traces (forest s) →
  (∀ item, item ∈ traces (forest s) → is_Some (objects s !! item.2)) →
  (∃ r trace,
     objects s !! r = Some trace
     ∧ d ∈ Trace.descr_numbers trace
     ∧ sole_owner s d r)
  ∨ (∀ item trace,
       item ∈ traces (forest s) →
       objects s !! item.2 = Some trace →
       d ∉ Trace.descr_numbers trace) →
  TraceForest.stitch_bridge_loop visit d addr_to s
  = TraceForest.stitch_bridge d addr_to s.
Proof.
  intros Hvisit Hvalid Hcases.
  unfold TraceForest.stitch_bridge, bind, get.
  destruct Hcases as [(r & trace & Hr & Hd & [[tid Htid] Huniq]) | Hnone].
  - rewrite (stitch_bridge_loop_found visit d addr_to s r trace),
      (stitch_bridge_loop_found (traces (forest s)) d addr_to s r trace);
      try assumption; try reflexivity.
    + apply list_elem_of_fmap. by exists (tid, r).
    + intros [tid' r'] trace' Hitem. by apply (Huniq tid' r' trace').
    + intros item Hitem. apply Hvalid. by rewrite <- Hvisit.
    + rewrite Hvisit. apply list_elem_of_fmap. by exists (tid, r).
    + intros [tid' r'] trace' Hitem. apply (Huniq tid' r' trace').
      by rewrite <- Hvisit.
  - rewrite (stitch_bridge_loop_not_found visit),
      (stitch_bridge_loop_not_found (traces (forest s)));
      try assumption; try reflexivity.
    + intros item Hitem. apply Hvalid. by rewrite <- Hvisit.
    + intros item trace Hitem. apply Hnone. by rewrite <- Hvisit.
Qed.

Lemma stitch_bridge_any_order_witness :
  TraceForest.stitch_bridge_loop [(2, 1%nat); (1, 0%nat)] (Some 5) 2000
    two_traces_store
  = TraceForest.stitch_bridge (Some 5) 2000 two_traces_store.
Proof.
  assert (traces (forest two_traces_store) = [(1, 0%nat); (2, 1%nat)])
    as Htraces by (vm_compute; reflexivity).
  apply stitch_bridge_any_order.
  - rewrite Htraces. apply Permutation_swap.
  - intros item Hin. rewrite Htraces in Hin.
    apply elem_of_cons in Hin as [-> | Hin];
      [| apply elem_of_cons in Hin as [-> | Hin]; [| inversion Hin]];
      eexists; vm_compute; reflexivity.
  - left. exists 1%nat. eexists. split; [vm_compute; reflexivity |].
    split; [refine (bool_decide_unpack _ _); vm_compute; exact I |].
    split.
    + exists 2. rewrite Htraces. right. left.
    + intros tid' r' trace' Hin Hobj Hd. rewrite Htraces in Hin.
      apply elem_of_cons in Hin as [Heq | Hin].
      * injection Heq as -> ->. vm_compute in Hobj.
        injection Hobj as <-. apply (bool_decide_pack _) in Hd.
        vm_compute in Hd. destruct Hd.
      * apply elem_of_cons in Hin as [Heq | Hin]; [| inversion Hin].
        by injection Heq as -> ->.
Defined.

(** ** Serialized stages *)

Lemma dict_get_set_eq {K V} `{EqDecision K} (k : K) (v : V)
    (d : list (K * V)) :
  dict_get k (dict_set k v d) = Some v.
Proof.
  induction d as [| [k0 y] d IH]; cbn.
  - by rewrite decide_True.
  - destruct (decide (k0 = k)) as [-> | Hk]; cbn.
    + by rewrite decide_True.
    + by rewrite decide_False.
Qed.

Lemma dict_get_set_ne {K V} `{EqDecision K} (k other : K) (v : V)
    (d : list (K * V)) :
  other ≠ k → dict_get other (dict_set k v d) = dict_get other d.
Proof.
  intros Hne. induction d as [| [k0 y] d IH]; cbn.
  - by rewrite decide_False.
  - destruct (decide (k0 = k)) as [-> | Hk]; cbn.
    + by rewrite !decide_False.
    + destruct (decide (k0 = other)); [reflexivity | exact IH].
Qed.

Lemma dict_get_append_point_eq index result d :
  holds_lists d →
  dict_get (KInt index) (append_point (KInt index) result d)
  = extended (dict_get (KInt index) d) [result].
Proof.
  induction 1 as [| [k v] d Hv _ IH]; cbn.
  - by rewrite decide_True.
  - destruct (decide (k = KInt index)) as [-> | Hk]; cbn.
    + rewrite !decide_True by done. cbn in Hv. by destruct Hv as [l ->].
    + by rewrite !decide_False.
Qed.

Lemma dict_get_append_point_ne index other result d :
  other ≠ index →
  dict_get other (append_point index result d) = dict_get other d.
Proof.
  intros Hne. induction d as [| [k v] d IH]; cbn.
  - by rewrite decide_False.
  - destruct (decide (k = index)) as [-> | Hk]; cbn.
    + by rewrite !decide_False.
    + destruct (decide (k = other)); [reflexivity | exact IH].
Qed.

Lemma holds_lists_append_point index result d :
  holds_lists d → holds_lists (append_point (KInt index) result d).
Proof.
  induction 1 as [| [k v] d Hv Hd IH]; cbn.
  - constructor; [by eexists | constructor].
  - destruct (decide (k = KInt index)) as [-> | Hk].
    + constructor; [| exact Hd]. cbn in *. destruct Hv as [l ->]. by eexists.
    + by constructor.
Qed.

Lemma dict_get_append_point_present index result d :
  is_Some (dict_get index (append_point index result d)).
Proof.
  induction d as [| [k v] d IH]; cbn.
  - rewrite decide_True by done. by eexists.
  - destruct (decide (k = index)) as [-> | Hk]; cbn.
    + rewrite decide_True by done. by eexists.
    + by rewrite decide_False.
Qed.

(** A dictionary with two different keys has two entries. *)
Lemma two_keys_length {V} (k1 k2 : key) (d : list (key * V)) :
  k1 ≠ k2 →
  is_Some (dict_get k1 d) → is_Some (dict_get k2 d) →
  len d ≠ 1.
Proof.
  intros Hne H1 H2. destruct d as [| [k v] [| e d]].
  - by destruct H1.
  - cbn in H1, H2. destruct (decide (k = k1)), (decide (k = k2));
      try congruence; by (destruct H1 || destruct H2).
  - unfold len. cbn. lia.
Qed.

Section SerializedStages.

Variable hex : Z → string.

Lemma MergePoint_serialize_loop_named values :
  ∀ dict,
    Forall (λ v, is_Some (SEM_TYPE_NAMES !! sem_type v)) values →
    ∃ d, MergePoint_serialize_loop values dict = Return d.
Proof.
  induction values as [| v values IH]; intros dict Hnamed.
  - by eexists.
  - inversion Hnamed as [| ? ? [name Hname] Hrest]; subst.
    cbn [MergePoint_serialize_loop]. rewrite Hname. by apply IH.
Qed.

Lemma op_serialize_named o :
  named_tags o → op_serialize hex o = Return (serialized hex o).
Proof.
  intros Hnamed. unfold serialized. destruct o as [f | values];
    [reflexivity |].
  cbn in *. unfold MergePoint_serialize.
  by destruct (MergePoint_serialize_loop_named values [] Hnamed) as [d ->].
Qed.

(** The loop of [Stage._serialize] once the key ['first'] is set. *)
Lemma Stage_serialize_loop_started todo :
  ∀ ops mps first,
    Forall named_tags todo →
    dict_get (KStr "first") mps = Some first →
    holds_lists mps →
    ∃ mps',
      Stage_serialize_loop hex todo ops mps
      = Return (ops ++ (serialized hex <$> plain_ops todo), mps')
      ∧ dict_get (KStr "first") mps' = Some first
      ∧ ∀ k, dict_get (KInt k) mps'
             = extended (dict_get (KInt k) mps)
                        (serialized hex <$> points_from (len ops) todo k).
Proof.
  induction todo as [| o todo IH]; intros ops mps first Hnamed Hfirst Hlists.
  - exists mps. cbn. by rewrite app_nil_r.
  - inversion Hnamed as [| ? ? Ho Htodo]; subst.
    cbn [Stage_serialize_loop]. rewrite (op_serialize_named o Ho).
    destruct o as [f | values].
    + destruct (IH (ops ++ [serialized hex (Flat f)]) mps first Htodo
                   Hfirst Hlists) as (mps' & Hrun & Hfirst' & Hpoints).
      exists mps'. rewrite Hrun. cbn [plain_ops fmap list_fmap points_from].
      rewrite <- app_assoc. split; [reflexivity |]. split; [exact Hfirst' |].
      intros k. rewrite Hpoints, len_app. reflexivity.
    + set (result := serialized hex (Merge values)).
      set (mps1 := append_point (KInt (len ops)) result mps).
      assert (dict_get (KStr "first") mps1 = Some first) as Hfirst1
        by (unfold mps1; by rewrite dict_get_append_point_ne).
      rewrite bool_decide_false.
      2:{ apply (two_keys_length (KStr "first") (KInt (len ops)));
            [done | by rewrite Hfirst1 |].
          apply dict_get_append_point_present. }
      destruct (IH ops mps1 first Htodo Hfirst1
                   (holds_lists_append_point _ _ _ Hlists))
        as (mps' & Hrun & Hfirst' & Hpoints).
      exists mps'. split; [exact Hrun |]. split; [exact Hfirst' |].
      intros k. rewrite Hpoints. cbn [points_from]. unfold mps1.
      case_bool_decide as Hk.
      * subst k. rewrite dict_get_append_point_eq by assumption.
        fold result. cbn [app fmap list_fmap].
        destruct (dict_get (KInt (len ops)) mps) as [[] |],
                 (serialized hex <$> points_from (len ops) todo (len ops));
          cbn; try reflexivity; by rewrite <- app_assoc.
      * rewrite dict_get_append_point_ne by congruence. reflexivity.
Qed.

(** The loop of [Stage._serialize] before the first merge point. *)
Lemma Stage_serialize_loop_fresh todo :
  ∀ ops,
    Forall named_tags todo →
    ∃ mps',
      Stage_serialize_loop hex todo ops []
      = Return (ops ++ (serialized hex <$> plain_ops todo), mps')
      ∧ dict_get (KStr "first") mps'
        = PInt <$> first_point_from (len ops) todo
      ∧ ∀ k, dict_get (KInt k) mps'
             = extended None
                        (serialized hex <$> points_from (len ops) todo k).
Proof.
  induction todo as [| o todo IH]; intros ops Hnamed.
  - exists []. cbn. by rewrite app_nil_r.
  - inversion Hnamed as [| ? ? Ho Htodo]; subst.
    cbn [Stage_serialize_loop]. rewrite (op_serialize_named o Ho).
    destruct o as [f | values].
    + destruct (IH (ops ++ [serialized hex (Flat f)]) Htodo)
        as (mps' & Hrun & Hfirst' & Hpoints).
      exists mps'. rewrite Hrun.
      cbn [plain_ops fmap list_fmap points_from first_point_from].
      rewrite <- app_assoc. split; [reflexivity |].
      rewrite len_app in Hfirst'. split; [exact Hfirst' |].
      intros k. rewrite Hpoints, len_app. reflexivity.
    + set (result := serialized hex (Merge values)).
      cbn [append_point]. rewrite bool_decide_true by reflexivity.
      cbn [dict_set]. rewrite decide_False by discriminate.
      destruct (Stage_serialize_loop_started todo ops
                  [(KInt (len ops), PList [result]);
                   (KStr "first", PInt (len ops))]
                  (PInt (len ops)) Htodo)
        as (mps' & Hrun & Hfirst' & Hpoints).
      * cbn. rewrite decide_False by discriminate. by rewrite decide_True.
      * repeat constructor. by eexists.
      * exists mps'. split; [exact Hrun |]. split; [exact Hfirst' |].
        intros k. rewrite Hpoints. cbn [points_from dict_get].
        case_bool_decide as Hk.
        -- subst k. rewrite decide_True by done. fold result.
           cbn [app fmap list_fmap].
           by destruct (serialized hex <$> points_from (len ops) todo (len ops)).
        -- rewrite decide_False by congruence.
           rewrite decide_False by discriminate. reflexivity.
Qed.

End SerializedStages.

(** X17: [Stage._serialize] of a stage whose merge-point tags all have
    a name returns a dictionary with the stage's time under ['tick'],
    under ['ops'] the serialized operations that are no merge points,
    in their order, and under ['merge_points'] a dictionary that
    holds, for every position [k], the serialized merge points that
    have exactly [k] other operations before them, in their order (no
    entry when there is none), and under ['first'] the position of the
    first merge point (no entry when the stage has none). *)
Theorem Stage_serialize_partitions (hex : Z → string) (stage : Stage.t) :
  Forall named_tags (Stage.ops stage) →
  ∃ merge_points,
    Stage_serialize hex stage
    = Return (PDict [(KStr "ops",
                      PList (serialized hex <$> plain_ops (Stage.ops stage)));
                     (KStr "tick", PInt (Stage.timeval stage));
                     (KStr "merge_points", PDict merge_points)])
    ∧ (∀ k, dict_get (KInt k) merge_points
            = match points_from 0 (Stage.ops stage) k with
              | [] => None
              | points => Some (PList (serialized hex <$> points))
              end)
    ∧ dict_get (KStr "first") merge_points
      = PInt <$> first_point_from 0 (Stage.ops stage).
Proof.
  intros Hnamed.
  destruct (Stage_serialize_loop_fresh hex (Stage.ops stage) [] Hnamed)
    as (mps & Hrun & Hfirst & Hpoints).
  exists mps. unfold Stage_serialize. rewrite Hrun.
  split; [reflexivity |]. split; [| exact Hfirst].
  intros k. rewrite Hpoints. change (len []) with 0.
  by destruct (points_from 0 (Stage.ops stage) k).
Qed.

Lemma Stage_serialize_partitions_witness :
  ∃ merge_points,
    Stage_serialize (λ _, "0x0"%string) annotated_stage
    = Return (PDict [(KStr "ops",
                      PList (serialized (λ _, "0x0"%string)
                               <$> [plain_op "label"; plain_op "int_add";
                                    plain_op "jump"]));
                     (KStr "tick", PInt 4);
                     (KStr "merge_points", PDict merge_points)])
    ∧ dict_get (KInt 2) merge_points
      = Some (PList [PDict [(KStr "lineno", PInt 2)];
                     PDict [(KStr "lineno", PInt 3)]])
    ∧ dict_get (KInt 1) merge_points = None
    ∧ dict_get (KStr "first") merge_points = Some (PInt 0).
Proof.
  destruct (Stage_serialize_partitions (λ _, "0x0"%string) annotated_stage)
    as (mps & Hrun & Hpoints & Hfirst).
  - repeat constructor; cbn; eexists; vm_compute; reflexivity.
  - exists mps. split; [exact Hrun |].
    rewrite !Hpoints, Hfirst. repeat split.
Defined.

(** ** Markers that open no phase *)

(** X21: a marker other than the three phase markers is rejected with
    an [AssertionError], and the rejection comes before any update:
    the trace keeps its last marker and its stages. *)
Theorem start_mark_rejects_other_markers (forest : TraceForest)
    (mark : bytes) (trace : Trace.t) :
  mark ∉ phases.*1 →
  Trace.start_mark forest mark trace = (Raise AssertionError, trace).
Proof.
  intros Hother. unfold Trace.start_mark.
  rewrite !bool_decide_false;
    [reflexivity | intros ->; apply Hother; cbn; set_solver..].
Qed.

Lemma start_mark_rejects_other_markers_witness :
  Trace.start_mark (TraceForest.init 1 true) MARK_INPUT_ARGS fresh_trace
  = (Raise AssertionError, fresh_trace).
Proof.
  apply start_mark_rejects_other_markers.
  refine (bool_decide_unpack _ _). vm_compute. exact I.
Defined.

(** * The extraction of source lines *)

Lemma after_preserved {S A} (I J : S → Prop) (r : outcome A * S) :
  (∀ st, I st → J st) → I r.2 → after I J r.
Proof. intros HIJ Hr. unfold after. destruct r.1; auto. Qed.

Lemma bind_after {S A B} (I J : S → Prop) (m : M S A) (k : A → M S B) st :
  after I J (m st) →
  (∀ a st', I st' → after I J (k a st')) →
  after I J (bind m k st).
Proof.
  intros Hm Hk. unfold bind, after in *.
  destruct (m st) as [[a | e] st']; cbn in *; [by apply Hk | exact Hm].
Qed.

Lemma for_each_after {S A} (I J : S → Prop) (xs : list A)
    (body : A → M S unit) :
  (∀ x st, x ∈ xs → I st → after I J (body x st)) →
  ∀ st, I st → after I J (for_each xs body st).
Proof.
  induction xs as [| x xs IH]; intros Hbody st Hst; [exact Hst |].
  cbn [for_each]. apply bind_after.
  - apply Hbody; [left | exact Hst].
  - intros _ st' Hst'. apply IH; [| exact Hst'].
    intros y st'' Hy. apply Hbody. by right.
Qed.

(** A loop one of whose bodies raises in every state that [I] holds
    of does not return. *)
Lemma for_each_stops {S A} (I J : S → Prop) (xs : list A)
    (body : A → M S unit) x :
  x ∈ xs →
  (∀ y st, y ∈ xs → I st → after I J (body y st)) →
  (∀ st, I st → ∃ e, (body x st).1 = Raise e) →
  ∀ st, I st → ∃ e, (for_each xs body st).1 = Raise e.
Proof.
  induction xs as [| y xs IH]; intros Hx Hbody Hraise st Hst;
    [inversion Hx |].
  cbn [for_each]. unfold bind.
  destruct (body y st) as [[[] | e] st'] eqn:Hy; [| by exists e].
  apply elem_of_cons in Hx as [-> | Hx].
  - destruct (Hraise st Hst) as [e He]. rewrite Hy in He. discriminate.
  - apply IH; try assumption.
    + intros z st'' Hz. apply Hbody. by right.
    + pose proof (Hbody y st ltac:(left) Hst) as Hst'.
      unfold after in Hst'. by rewrite Hy in Hst'.
Qed.

Lemma for_each_run_after {S A} (I J : S → Prop) (xs : list A)
    (body : A → M S unit) st out st' :
  for_each xs body st = (out, st') →
  (∀ x st, x ∈ xs → I st → after I J (body x st)) →
  I st →
  match out with Return _ => I st' | Raise _ => J st' end.
Proof.
  intros Hrun Hbody Hst.
  pose proof (for_each_after I J xs body Hbody st Hst) as Hend.
  unfold after in Hend. by rewrite Hrun in Hend.
Qed.

Lemma for_each_run_stops {S A} (I J : S → Prop) (xs : list A)
    (body : A → M S unit) x st out st' :
  for_each xs body st = (out, st') →
  x ∈ xs →
  (∀ y st, y ∈ xs → I st → after I J (body y st)) →
  (∀ st, I st → ∃ e, (body x st).1 = Raise e) →
  I st → ∃ e, out = Raise e.
Proof.
  intros Hrun Hx Hbody Hraise Hst.
  destruct (for_each_stops I J xs body x Hx Hbody Hraise st Hst) as [e He].
  rewrite Hrun in He. by exists e.
Qed.

Lemma for_each_app {S A} (xs ys : list A) (body : A → M S unit) st :
  for_each (xs ++ ys) body st
  = (for_each xs body ;; for_each ys body) st.
Proof.
  revert st. induction xs as [| x xs IH]; intros st; [reflexivity |].
  cbn [app for_each]. unfold bind in *.
  destruct (body x st) as [[[] | e] st']; [apply IH | reflexivity].
Qed.

Section Extraction.

Variable PY3 : bool.
Variable items : ∀ A : Type, list A → list A.
Variable disk : string → option bytes.
Variable s0 : Store.

Lemma invariant_initial : extraction_invariant disk s0 (∅, s0).
Proof.
  repeat split; cbn.
  - exists []. rewrite app_nil_r. split; [reflexivity |].
    split; [constructor |]. intros f. rewrite lookup_empty. split.
    + inversion 1.
    + by intros [? ?].
  - intros f. rewrite lookup_empty. by intros [? ?].
  - intros r trace0 file lines0 Hr Hin. by exists trace0, lines0.
Qed.

(** What holds during the extraction holds at its end. *)
Lemma invariant_result st :
  extraction_invariant disk s0 st → extraction_result disk s0 st.
Proof.
  intros ((new & Hreads & Hnodup & Hnew) & Hreadable & Hlines & _).
  split; [| exact Hlines].
  exists new. split; [exact Hreads |]. split; [exact Hnodup |].
  intros f Hf. by apply Hreadable, Hnew.
Qed.

(** Appending lines under a readable file keeps the invariant. *)
Lemma invariant_source_lines fc s v :
  extraction_invariant disk s0 (fc, s) →
  (∀ f, disk f = None →
        dict_get f v = dict_get f (source_lines (forest s))) →
  extraction_invariant disk s0
    (fc, set_forest (TraceForest.set_source_lines v (forest s)) s).
Proof.
  intros (Hreads & Hreadable & Hlines & Hrefs) Hv.
  repeat split; try assumption.
  cbn. intros f Hf. rewrite Hv by done. by apply Hlines.
Qed.

(** Sorting the line numbers of one file of one trace keeps it. *)
Lemma invariant_sorted fc s r trace file lines :
  extraction_invariant disk s0 (fc, s) →
  objects s !! r = Some trace →
  extraction_invariant disk s0
      (fc,
       set_objects
         (<[r := Trace.set_merge_point_files
                   (dict_set file lines (Trace.merge_point_files trace))
                   trace]> (objects s)) s).
Proof.
  intros (Hreads & Hreadable & Hlines & Hrefs) Hr.
  repeat split; try assumption.
  cbn. intros r' trace0 f lines0 Hr' Hin.
  destruct (Hrefs r' trace0 f lines0 Hr' Hin) as (trace' & lines' & Hobj & Hin').
  cbn in Hobj. destruct (decide (r' = r)) as [-> | Hne].
  - assert (trace' = trace) as -> by congruence.
    destruct (dict_set_keeps_keys file f lines lines' _ Hin') as [x' Hx'].
    exists (Trace.set_merge_point_files
              (dict_set file lines (Trace.merge_point_files trace)) trace), x'.
    split; [| exact Hx'].
    apply list_lookup_insert_eq. by eapply lookup_lt_Some.
  - exists trace', lines'. split; [| exact Hin'].
    by rewrite list_lookup_insert_ne.
Qed.

(** [load_file] reads a file that was not read before, and only a
    readable one; under [PY3] it raises after the read. *)
Lemma load_file_after file st :
  extraction_invariant disk s0 st →
  after (extraction_invariant disk s0) (extraction_result disk s0)
        (TraceForest.load_file PY3 disk file st).
Proof.
  destruct st as [fc s]. intros Hinv.
  unfold TraceForest.load_file, bind at 1, get. cbn iota beta.
  case_bool_decide as Hfc; [| exact Hinv].
  destruct (disk file) as [data |] eqn:Hdisk;
    [| by apply invariant_result].
  destruct Hinv as ((new & Hreads & Hnodup & Hnew) & Hreadable & Hlines & Hrefs).
  cbn [fst snd] in *.
  assert (NoDup (new ++ [file])) as Hnodup'.
  { apply NoDup_app. split; [exact Hnodup |]. split.
    - intros f Hf Hf'. apply list_elem_of_singleton in Hf' as ->.
      apply Hnew in Hf as [? Hf]. congruence.
    - apply NoDup_singleton. }
  unfold bind, TraceForest.on_store, modify. destruct PY3.
  - unfold raise, after. cbn. split; [| exact Hlines].
    exists (new ++ [file]). rewrite app_assoc, Hreads.
    split; [reflexivity |]. split; [exact Hnodup' |].
    intros f Hf. apply elem_of_app in Hf as [Hf | Hf].
    + by apply Hreadable, Hnew.
    + apply list_elem_of_singleton in Hf as ->. by rewrite Hdisk.
  - unfold after. cbn. repeat split; cbn; try assumption.
    + exists (new ++ [file]). rewrite app_assoc, Hreads.
      split; [reflexivity |]. split; [exact Hnodup' |].
      intros f. rewrite elem_of_app, list_elem_of_singleton, Hnew.
      destruct (decide (f = file)) as [-> | Hne].
      * rewrite lookup_insert_eq. split; [by eexists | by right].
      * rewrite lookup_insert_ne by done. split; [| by left].
        by intros [? | ?].
    + intros f. destruct (decide (f = file)) as [-> | Hne].
      * by rewrite Hdisk.
      * rewrite lookup_insert_ne by done. apply Hreadable.
Qed.

(** An unreadable file that is not loaded yet stops the extraction
    with the error of [open]. *)
Lemma load_file_unreadable file st :
  extraction_invariant disk s0 st → disk file = None →
  TraceForest.load_file PY3 disk file st = (Raise IOError, st).
Proof.
  destruct st as [fc s]. intros (_ & Hreadable & _) Hdisk.
  unfold TraceForest.load_file, bind, get. cbn.
  rewrite bool_decide_true.
  - by rewrite Hdisk.
  - destruct (fc !! file) eqn:Hfc; [| reflexivity].
    destruct (Hreadable file) as [? ?]; [by eexists | congruence].
Qed.

(** After [load_file] returned, the file is readable. *)
Lemma load_file_returns file st st' :
  extraction_invariant disk s0 st →
  TraceForest.load_file PY3 disk file st = (Return tt, st') →
  is_Some (disk file).
Proof.
  intros Hinv Hrun. destruct (disk file) eqn:Hdisk; [by eexists |].
  rewrite load_file_unreadable in Hrun by done. discriminate.
Qed.

Lemma save_lines_preserves r file lines st :
  is_Some (disk file) →
  extraction_invariant disk s0 st →
  extraction_invariant disk s0 (TraceForest.save_lines r file lines st).2.
Proof.
  intros [data Hdisk] Hinv. unfold TraceForest.save_lines.
  assert (∀ f, disk f = None → f ≠ file) as Hother by (intros f ? ->; congruence).
  apply bind_preserves; [exact Hinv |]. clear st Hinv.
  intros [file_contents seen] st Hinv.
  apply bind_preserves.
  { destruct st as [fc s]. cbn. apply invariant_source_lines; [exact Hinv |].
    intros f Hf. apply dict_get_dd_touch. by apply Hother. }
  clear st Hinv. intros _ st Hinv.
  apply bind_preserves.
  { destruct st as [fc s]. cbn. unfold call.
    destruct (objects s !! r) as [trace |] eqn:Hr; [| exact Hinv].
    cbn. by apply invariant_sorted. }
  clear st Hinv. intros _ st Hinv.
  apply for_each_preserves; [| exact Hinv].
  clear st Hinv. intros range st _ Hinv.
  apply for_each_preserves; [| exact Hinv].
  clear st Hinv. intros n st _ Hinv.
  apply bind_preserves; [exact Hinv |].
  clear st Hinv. intros line [fc s] Hinv. cbn.
  apply invariant_source_lines; [exact Hinv |].
  intros f Hf. apply dict_get_dd_append. by apply Hother.
Qed.

Lemma extract_file_after r file lines st :
  extraction_invariant disk s0 st →
  after (extraction_invariant disk s0) (extraction_result disk s0)
        (TraceForest.extract_file PY3 disk r file lines st).
Proof.
  intros Hinv. unfold TraceForest.extract_file.
  pose proof (load_file_after file st Hinv) as Hload.
  unfold bind, after in *.
  destruct (TraceForest.load_file PY3 disk file st) as [[[] | e] st']
    eqn:Hrun; cbn [fst snd] in *; [| exact Hload].
  apply (after_preserved _ _ _ invariant_result).
  apply save_lines_preserves; [| exact Hload].
  exact (load_file_returns file st st' Hinv Hrun).
Qed.

Lemma extract_trace_after item st :
  extraction_invariant disk s0 st →
  after (extraction_invariant disk s0) (extraction_result disk s0)
        (TraceForest.extract_trace PY3 items disk item st).
Proof.
  intros Hinv. unfold TraceForest.extract_trace.
  apply bind_after.
  - destruct st as [fc s]. cbn. unfold deref.
    destruct (objects s !! item.2); [exact Hinv |].
    by apply invariant_result.
  - clear st Hinv. intros trace st Hinv.
    apply for_each_after; [| exact Hinv].
    intros [file lines] st' _ Hinv'. by apply extract_file_after.
Qed.

Hypothesis items_permutation : ∀ A (l : list A), items A l ≡ₚ l.

Lemma extract_trace_unreadable tid r trace0 file lines0 st :
  objects s0 !! r = Some trace0 →
  (file, lines0) ∈ Trace.merge_point_files trace0 →
  disk file = None →
  extraction_invariant disk s0 st →
  ∃ e, (TraceForest.extract_trace PY3 items disk (tid, r) st).1 = Raise e.
Proof.
  intros Hr Hin Hdisk Hinv. unfold TraceForest.extract_trace, bind.
  destruct Hinv as (Hreads & Hreadable & Hlines & Hrefs).
  destruct (Hrefs r trace0 file lines0 Hr Hin) as (trace & lines & Hobj & Hin').
  destruct st as [fc s]. cbn in Hobj. cbn. unfold deref. rewrite Hobj.
  apply (for_each_stops (extraction_invariant disk s0)
           (extraction_result disk s0) _ _ (file, lines)); try done.
  - by rewrite items_permutation.
  - intros [f l] st _ Hinv. by apply extract_file_after.
  - intros st Hinv. exists IOError.
    unfold TraceForest.extract_file, bind.
    by rewrite load_file_unreadable.
Qed.

(** Whatever the outcome of the extraction, the files it read are
    distinct readable files; a referenced file that is unreadable
    makes it raise, and gets no lines. *)
Lemma extract_unreadable :
  ∃ out s' new,
    TraceForest.extract_source_code_lines PY3 items disk s0 = (out, s')
    ∧ reads s' = reads s0 ++ new
    ∧ NoDup new
    ∧ (∀ f, f ∈ new → is_Some (disk f))
    ∧ ∀ file, referenced s0 file → disk file = None →
        (∃ e, out = Raise e)
        ∧ dict_get file (source_lines (forest s'))
          = dict_get file (source_lines (forest s0)).
Proof.
  unfold TraceForest.extract_source_code_lines.
  destruct (for_each (items _ (traces (forest s0)))
              (TraceForest.extract_trace PY3 items disk) (∅, s0))
    as [out [fc s']] eqn:Hrun.
  assert (extraction_result disk s0 (fc, s')) as Hresult.
  { pose proof (for_each_run_after (extraction_invariant disk s0)
                  (extraction_result disk s0) _ _ _ _ _ Hrun
                  (λ item st _, extract_trace_after item st)
                  invariant_initial) as Hend.
    destruct out; [by apply invariant_result | exact Hend]. }
  destruct Hresult as ((new & Hreads & Hnodup & Hnew) & Hlines).
  cbn [fst snd] in *.
  exists out, s', new. split; [reflexivity |].
  split; [exact Hreads |]. split; [exact Hnodup |].
  split; [exact Hnew |].
  intros file (tid & r & trace & lines & Htid & Hr & Hin) Hdisk.
  split; [| by apply Hlines].
  eapply (for_each_run_stops (extraction_invariant disk s0)
            (extraction_result disk s0)); [exact Hrun | | | | ].
  - rewrite items_permutation. exact Htid.
  - intros item st _. apply extract_trace_after.
  - intros st. by eapply extract_trace_unreadable.
  - apply invariant_initial.
Qed.

End Extraction.

Lemma index_line split_lines n :
  1 - len split_lines ≤ n ≤ len split_lines →
  index split_lines (n - 1) = Return (line_of split_lines n).
Proof.
  intros Hn. unfold index, line_of. cbn zeta.
  destruct (Z.leb_spec 1 n) as [Hpos | Hneg].
  - assert ((n - 1 <? 0) = false) as Hlt by (apply Z.ltb_ge; lia).
    rewrite Hlt, Hlt.
    destruct (split_lines !! Z.to_nat (n - 1)) as [line |] eqn:Hline;
      [reflexivity |].
    apply lookup_ge_None in Hline. unfold len in Hn. lia.
  - assert ((n - 1 <? 0) = true) as Hlt by (apply Z.ltb_lt; lia).
    rewrite Hlt.
    assert ((n - 1 + len split_lines <? 0) = false) as Hge
      by (apply Z.ltb_ge; lia).
    rewrite Hge.
    destruct (split_lines !! Z.to_nat (n - 1 + len split_lines))
      as [line |] eqn:Hline; [reflexivity |].
    apply lookup_ge_None in Hline. unfold len in *. lia.
Qed.

Lemma index_out_of_range (split_lines : list bytes) n :
  ¬ (1 - len split_lines ≤ n ≤ len split_lines) →
  index split_lines (n - 1) = Raise IndexError.
Proof.
  intros Hn. unfold index. cbn zeta.
  destruct (Z.ltb_spec (n - 1) 0) as [Hneg | Hpos].
  - assert ((n - 1 + len split_lines <? 0) = true) as ->
      by (apply Z.ltb_lt; lia).
    reflexivity.
  - assert ((n - 1 <? 0) = false) as -> by (apply Z.ltb_ge; lia).
    destruct (split_lines !! Z.to_nat (n - 1)) as [line |] eqn:Hline;
      [| reflexivity].
    apply lookup_lt_Some in Hline. unfold len in *. lia.
Qed.

(** The numbers of the ranges lie between the given numbers. *)
Lemma iter_ranges_within lines lo hi :
  Forall (λ n, lo ≤ n ≤ hi) lines →
  Forall (λ n, lo ≤ n ≤ hi) (concat (iter_ranges lines)).
Proof.
  intros Hlines. rewrite Forall_forall in Hlines.
  destruct (numbers_runs lines) as (rs & Heq & Hends & _).
  rewrite Heq. apply Forall_forall. intros n Hn.
  apply list_elem_of_In, in_concat in Hn as (range & Hrange & Hn).
  apply list_elem_of_In in Hrange, Hn.
  apply list_elem_of_fmap in Hrange as ([first last] & -> & Hr).
  apply elem_of_closed_range in Hn.
  rewrite Forall_forall in Hends.
  destruct (Hends _ Hr) as (Hfirst & Hlast & _). cbn in *.
  specialize (Hlines _ Hfirst) as H1. specialize (Hlines _ Hlast) as H2.
  lia.
Qed.

(** The loop over the numbers of one range. *)
Lemma save_range file split_lines ns :
  ∀ fc s,
    Forall (λ n, 1 - len split_lines ≤ n ≤ len split_lines) ns →
    for_each ns (λ r,
      let* line := lift (index split_lines (r - 1)) in
      TraceForest.on_store (TraceForest.update (λ self,
        TraceForest.set_source_lines
          (dd_append file (r, line) (source_lines self)) self))) (fc, s)
    = (Return tt,
       (fc,
        with_lines
          (foldl (λ d x, dd_append file x d) (source_lines (forest s))
                 ((λ n, (n, line_of split_lines n)) <$> ns)) s)).
Proof.
  induction ns as [| n ns IH]; intros fc s Hns.
  - by destruct s as [? [] ?].
  - inversion Hns as [| ? ? Hn Hrest]; subst.
    cbn [for_each]. unfold bind at 1. unfold bind at 1. unfold lift.
    rewrite (index_line _ _ Hn). cbn. rewrite IH by assumption.
    reflexivity.
Qed.

(** The loop over the ranges. *)
Lemma save_ranges file split_lines ranges :
  ∀ fc s,
    Forall (λ n, 1 - len split_lines ≤ n ≤ len split_lines) (concat ranges) →
    for_each ranges (λ range,
      for_each range (λ r,
        let* line := lift (index split_lines (r - 1)) in
        TraceForest.on_store (TraceForest.update (λ self,
          TraceForest.set_source_lines
            (dd_append file (r, line) (source_lines self)) self)))) (fc, s)
    = (Return tt,
       (fc,
        with_lines
          (foldl (λ d x, dd_append file x d) (source_lines (forest s))
                 ((λ n, (n, line_of split_lines n)) <$> concat ranges)) s)).
Proof.
  induction ranges as [| range ranges IH]; intros fc s Hns.
  - by destruct s as [? [] ?].
  - cbn [concat] in Hns. apply Forall_app in Hns as [Hrange Hrest].
    cbn [for_each]. unfold bind at 1.
    rewrite save_range by assumption. rewrite IH by assumption.
    cbn [concat]. rewrite fmap_app, foldl_app. reflexivity.
Qed.

(** The loops over the ranges stop at a number the file has no line
    for. *)
Lemma save_ranges_out_of_range file (split_lines : list bytes) ranges n st :
  n ∈ concat ranges →
  ¬ (1 - len split_lines ≤ n ≤ len split_lines) →
  ∃ e,
    (for_each ranges (λ range,
       for_each range (λ r,
         let* line := lift (index split_lines (r - 1)) in
         TraceForest.on_store (TraceForest.update (λ self,
           TraceForest.set_source_lines
             (dd_append file (r, line) (source_lines self)) self)))) st).1
    = Raise e.
Proof.
  intros Hn Hout.
  apply list_elem_of_In, in_concat in Hn as (range & Hrange & Hn).
  apply list_elem_of_In in Hrange, Hn.
  apply (for_each_raises (λ _, True) ranges _ range); try done.
  intros st' _.
  apply (for_each_raises (λ _, True) range _ n); try done.
  intros st'' _. exists IndexError. unfold bind, lift.
  by rewrite index_out_of_range.
Qed.

(** Where a member of a concatenation of lists sits. *)
Lemma bind_split {A B} (f : A → list B) (xs : list A) :
  ∀ (before : list B) e after,
    xs ≫= f = before ++ e :: after →
    ∃ xs1 x xs2 before1 after1,
      xs = xs1 ++ x :: xs2
      ∧ f x = before1 ++ e :: after1
      ∧ before = (xs1 ≫= f) ++ before1.
Proof.
  induction xs as [| x xs IH]; intros before e after Heq.
  - by destruct before.
  - cbn [mbind list_bind] in Heq. fold (xs ≫= f) in Heq.
    apply app_eq_inv in Heq as [(k & Hx & Hrest) | (k & Hbefore & Hrest)].
    + destruct k as [| e' k].
      * rewrite app_nil_r in Hx. cbn in Hrest. symmetry in Hrest.
        destruct (IH [] e after Hrest)
          as (xs1 & y & xs2 & before1 & after1 & -> & Hy & Hnil).
        exists (x :: xs1), y, xs2, before1, after1.
        split; [reflexivity |]. split; [exact Hy |].
        cbn [mbind list_bind]. fold (xs1 ≫= f).
        rewrite <- app_assoc, <- Hnil, app_nil_r. exact (eq_sym Hx).
      * injection Hrest as <- Hafter.
        exists [], x, xs, before, k. by split.
    + destruct (IH k e after Hrest)
        as (xs1 & y & xs2 & before1 & after1 & -> & Hy & ->).
      exists (x :: xs1), y, xs2, before1, after1.
      split; [reflexivity |]. split; [exact Hy |].
      cbn [mbind list_bind]. fold (xs1 ≫= f).
      by rewrite Hbefore, app_assoc.
Qed.

Section ExactExtraction.

Variable PY3 : bool.
Variable items : ∀ A : Type, list A → list A.
Variable disk : string → option bytes.

Lemma save_lines_saves r file lines fc s trace data :
  fc !! file = Some (splitlines data) →
  disk file = Some data →
  Forall (λ n, 1 - len (splitlines data) ≤ n ≤ len (splitlines data)) lines →
  objects s !! r = Some trace →
  TraceForest.save_lines r file lines (fc, s)
  = (Return tt,
     (fc,
      with_lines (add_entry disk (source_lines (forest s)) (file, lines))
                 (set_objects
                    (<[r := sorted_entry file lines trace]> (objects s)) s))).
Proof.
  intros Hfc Hdisk Hlines Hr.
  unfold TraceForest.save_lines, bind at 1, get.
  cbn iota beta. rewrite Hfc. cbn [default from_option].
  unfold bind at 1. cbn [TraceForest.on_store TraceForest.update modify].
  unfold bind at 1. unfold TraceForest.on_store at 1, call.
  cbn [forest objects set_forest]. rewrite Hr.
  cbn [modify].
  rewrite save_ranges by (by apply iter_ranges_within).
  unfold add_entry, saved_lines, with_lines. cbn [fst snd]. rewrite Hdisk.
  reflexivity.
Qed.

(** The body of the loop on a pair that can be processed. *)
Lemma extract_file_saves r file lines fc s trace :
  cache_of PY3 disk fc →
  valid_entry PY3 disk (file, lines) →
  objects s !! r = Some trace →
  ∃ fc' s',
    TraceForest.extract_file PY3 disk r file lines (fc, s)
    = (Return tt, (fc', s'))
    ∧ cache_of PY3 disk fc'
    ∧ source_lines (forest s')
      = add_entry disk (source_lines (forest s)) (file, lines)
    ∧ objects s' = <[r := sorted_entry file lines trace]> (objects s).
Proof.
  intros Hcache (Hpy & data & Hdisk & Hlines) Hr. cbn [fst snd] in *.
  unfold TraceForest.extract_file, bind at 1.
  unfold TraceForest.load_file, bind at 1, get. cbn iota beta.
  destruct (fc !! file) as [split_lines |] eqn:Hfc.
  - destruct (Hcache _ _ Hfc) as (_ & data' & Hdisk' & ->).
    assert (data' = data) as -> by congruence.
    rewrite bool_decide_false by discriminate. unfold ret.
    rewrite (save_lines_saves r file lines fc s trace data) by assumption.
    eexists _, _. split; [reflexivity |]. split; [exact Hcache |].
    by split.
  - rewrite bool_decide_true by reflexivity. rewrite Hdisk.
    rewrite Hpy in Hcache |- *.
    unfold bind at 1. cbn [TraceForest.on_store modify].
    rewrite (save_lines_saves r file lines _ _ trace data);
      [| apply lookup_insert_eq | assumption.. ].
    eexists _, _. split; [reflexivity |]. split; [| by split].
    intros f l Hf. destruct (decide (f = file)) as [-> | Hne].
    + rewrite lookup_insert_eq in Hf. injection Hf as <-.
      split; [reflexivity |]. by exists data.
    + rewrite lookup_insert_ne in Hf by done. by apply Hcache.
Qed.

(** The body of the loop on a pair that cannot be processed. *)
Lemma extract_file_invalid r file lines fc s trace :
  cache_of PY3 disk fc →
  ¬ valid_entry PY3 disk (file, lines) →
  objects s !! r = Some trace →
  ∃ e, (TraceForest.extract_file PY3 disk r file lines (fc, s)).1 = Raise e.
Proof.
  intros Hcache Hinvalid Hr.
  unfold TraceForest.extract_file, bind at 1.
  unfold TraceForest.load_file, bind at 1, get. cbn iota beta.
  destruct (disk file) as [data |] eqn:Hdisk.
  - assert (∀ fc1 s1,
              PY3 = false →
              fc1 !! file = Some (splitlines data) →
              objects s1 !! r = Some trace →
              ∃ e, (TraceForest.save_lines r file lines (fc1, s1)).1
                   = Raise e) as Hsave.
    { intros fc1 s1 Hpy Hfc1 Hr1.
      assert (∃ n, n ∈ lines
                   ∧ ¬ (1 - len (splitlines data) ≤ n
                        ≤ len (splitlines data)))
        as (n & Hn & Hout).
      { apply Exists_exists, not_Forall_Exists; [apply _ |].
        intros Hlines. apply Hinvalid. split; [exact Hpy |]. by exists data. }
      destruct (numbers_runs lines) as (rs & Heq & _ & Hcover & _).
      assert (n ∈ concat (iter_ranges lines)) as Hin.
      { apply Hcover, Exists_exists in Hn as ([first last] & Hrs & Hbounds).
        apply list_elem_of_In, in_concat.
        exists (closed_range (first, last)). split; apply list_elem_of_In.
        - rewrite Heq. apply list_elem_of_fmap. by exists (first, last).
        - by apply elem_of_closed_range. }
      unfold TraceForest.save_lines, bind at 1, get.
      cbn iota beta. rewrite Hfc1. cbn [default from_option].
      unfold bind at 1. cbn [TraceForest.on_store TraceForest.update modify].
      unfold bind at 1. unfold TraceForest.on_store at 1, call.
      cbn [forest objects set_forest]. rewrite Hr1. cbn [modify].
      by eapply save_ranges_out_of_range. }
    destruct (fc !! file) as [split_lines |] eqn:Hfc.
    + destruct (Hcache _ _ Hfc) as (Hpy & data' & Hdisk' & ->).
      assert (data' = data) as -> by congruence.
      rewrite bool_decide_false by discriminate. unfold ret.
      by apply Hsave.
    + rewrite bool_decide_true by reflexivity.
      unfold bind at 1. cbn [TraceForest.on_store modify].
      destruct PY3 eqn:Hpy; [by exists AttributeError |].
      cbn [modify].
      apply Hsave; [reflexivity | apply lookup_insert_eq | exact Hr].
  - exists IOError. rewrite bool_decide_true; [reflexivity |].
    destruct (fc !! file) as [split_lines |] eqn:Hfc; [| reflexivity].
    destruct (Hcache _ _ Hfc) as (_ & data' & Hdisk' & _). congruence.
Qed.

(** The body of the loop on an unreadable file: the error of [open],
    and nothing changes. *)
Lemma extract_file_unreadable r file lines fc s :
  cache_of PY3 disk fc →
  disk file = None →
  TraceForest.extract_file PY3 disk r file lines (fc, s)
  = (Raise IOError, (fc, s)).
Proof.
  intros Hcache Hdisk.
  unfold TraceForest.extract_file, bind at 1.
  unfold TraceForest.load_file, bind at 1, get. cbn iota beta.
  rewrite bool_decide_true.
  - by rewrite Hdisk.
  - destruct (fc !! file) as [split_lines |] eqn:Hfc; [| reflexivity].
    destruct (Hcache _ _ Hfc) as (_ & data' & Hdisk' & _). congruence.
Qed.

(** The loop over the pairs of one trace, taken from the object as it
    was when the loop started. *)
Lemma extract_entries_saves r es :
  ∀ fc s,
    cache_of PY3 disk fc →
    Forall (valid_entry PY3 disk) es →
    is_Some (objects s !! r) →
    ∃ fc' s',
      for_each es (λ '(file, lines),
        TraceForest.extract_file PY3 disk r file lines) (fc, s)
      = (Return tt, (fc', s'))
      ∧ cache_of PY3 disk fc'
      ∧ source_lines (forest s')
        = foldl (add_entry disk) (source_lines (forest s)) es
      ∧ length (objects s') = length (objects s)
      ∧ ∀ r', r' ≠ r → objects s' !! r' = objects s !! r'.
Proof.
  induction es as [| [file lines] es IH]; intros fc s Hcache Hvalid [trace Hr].
  - eexists _, _. split; [reflexivity |]. split; [exact Hcache |].
    by repeat split.
  - inversion Hvalid as [| ? ? He Hes]; subst.
    destruct (extract_file_saves r file lines fc s trace Hcache He Hr)
      as (fc1 & s1 & Hrun1 & Hcache1 & Hlines1 & Hobjects1).
    destruct (IH fc1 s1 Hcache1 Hes) as (fc' & s' & Hrun & Hcache' & Hlines'
                                         & Hlen & Hother).
    { rewrite Hobjects1. eexists. apply list_lookup_insert_eq.
      by eapply lookup_lt_Some. }
    exists fc', s'. cbn [for_each]. unfold bind at 1. rewrite Hrun1.
    split; [exact Hrun |]. split; [exact Hcache' |].
    split; [by rewrite Hlines', Hlines1 |].
    split; [by rewrite Hlen, Hobjects1, length_insert |].
    intros r' Hne. rewrite Hother, Hobjects1 by done.
    by apply list_lookup_insert_ne.
Qed.

(** The loop over the pairs of one trace stops at the first
    unreadable file, with what the pairs before it have saved. *)
Lemma extract_entries_stops r before file lines after fc s :
  cache_of PY3 disk fc →
  Forall (valid_entry PY3 disk) before →
  disk file = None →
  is_Some (objects s !! r) →
  ∃ fc' s',
    for_each (before ++ (file, lines) :: after) (λ '(file, lines),
      TraceForest.extract_file PY3 disk r file lines) (fc, s)
    = (Raise IOError, (fc', s'))
    ∧ source_lines (forest s')
      = foldl (add_entry disk) (source_lines (forest s)) before.
Proof.
  intros Hcache Hvalid Hdisk Hr.
  destruct (extract_entries_saves r before fc s Hcache Hvalid Hr)
    as (fc1 & s1 & Hrun1 & Hcache1 & Hlines1 & _).
  exists fc1, s1. split; [| exact Hlines1].
  rewrite for_each_app. unfold bind at 1. rewrite Hrun1.
  cbn [for_each]. unfold bind at 1.
  by rewrite extract_file_unreadable.
Qed.

Lemma extract_entries_invalid r es :
  ∀ fc s,
    cache_of PY3 disk fc →
    is_Some (objects s !! r) →
    ¬ Forall (valid_entry PY3 disk) es →
    ∃ e,
      (for_each es (λ '(file, lines),
         TraceForest.extract_file PY3 disk r file lines) (fc, s)).1
      = Raise e.
Proof.
  induction es as [| [file lines] es IH]; intros fc s Hcache [trace Hr] Hes.
  - exfalso. apply Hes. constructor.
  - cbn [for_each]. unfold bind at 1.
    destruct (decide (valid_entry PY3 disk (file, lines))) as [He | He].
    + destruct (extract_file_saves r file lines fc s trace Hcache He Hr)
        as (fc1 & s1 & Hrun1 & Hcache1 & _ & Hobjects1).
      rewrite Hrun1. apply IH; [exact Hcache1 | |].
      * rewrite Hobjects1. eexists. apply list_lookup_insert_eq.
        by eapply lookup_lt_Some.
      * intros Hrest. apply Hes. by constructor.
    + destruct (extract_file_invalid r file lines fc s trace Hcache He Hr)
        as [e He'].
      destruct (TraceForest.extract_file PY3 disk r file lines (fc, s))
        as [[[] | e'] st']; [discriminate |]. by exists e'.
Qed.

(** The loop over the traces, none of whose objects is registered
    twice. *)
Lemma extract_traces_saves s0 pairs :
  ∀ fc s,
    cache_of PY3 disk fc →
    NoDup pairs.*2 →
    (∀ item, item ∈ pairs →
       ∃ trace,
         objects s0 !! item.2 = Some trace
         ∧ objects s !! item.2 = Some trace) →
    Forall (valid_entry PY3 disk) (visited items s0 pairs) →
    ∃ fc' s',
      for_each pairs (TraceForest.extract_trace PY3 items disk) (fc, s)
      = (Return tt, (fc', s'))
      ∧ cache_of PY3 disk fc'
      ∧ source_lines (forest s')
        = foldl (add_entry disk) (source_lines (forest s))
                (visited items s0 pairs)
      ∧ ∀ r', r' ∉ pairs.*2 → objects s' !! r' = objects s !! r'.
Proof.
  induction pairs as [| [tid r] pairs IH];
    intros fc s Hcache Hnodup Hpairs Hvalid.
  - eexists _, _. split; [reflexivity |]. split; [exact Hcache |].
    by split.
  - destruct (Hpairs (tid, r)) as (trace & Hr0 & Hr); [left |].
    cbn [snd] in *. unfold visited in Hvalid.
    cbn [mbind list_bind snd] in Hvalid. rewrite Hr0 in Hvalid.
    cbn [from_option] in Hvalid. apply Forall_app in Hvalid as [Hfirst Hrest].
    destruct (extract_entries_saves r (items _ (Trace.merge_point_files trace))
                fc s Hcache Hfirst) as (fc1 & s1 & Hrun1 & Hcache1 & Hlines1
                                        & Hlen1 & Hother1); [by eexists |].
    cbn [fmap list_fmap snd] in Hnodup.
    apply NoDup_cons in Hnodup as [Hfresh Hnodup].
    destruct (IH fc1 s1 Hcache1 Hnodup)
      as (fc' & s' & Hrun & Hcache' & Hlines' & Hobjects').
    { intros item Hitem.
      destruct (Hpairs item) as (trace' & Hr0' & Hr'); [by right |].
      exists trace'. split; [exact Hr0' |].
      rewrite Hother1; [exact Hr' |].
      intros Heq. apply Hfresh. apply list_elem_of_fmap. exists item.
      by split. }
    { exact Hrest. }
    exists fc', s'. cbn [for_each]. unfold bind at 1.
    unfold TraceForest.extract_trace at 1, bind at 1.
    cbn [TraceForest.on_store snd]. unfold deref. rewrite Hr.
    rewrite Hrun1. split; [exact Hrun |]. split; [exact Hcache' |].
    split.
    + rewrite Hlines', Hlines1. unfold visited.
      cbn [mbind list_bind snd]. rewrite Hr0.
      cbn [from_option]. by rewrite foldl_app.
    + intros r' Hr'. cbn [fmap list_fmap snd] in Hr'.
      apply not_elem_of_cons in Hr' as [Hne Hr'].
      rewrite Hobjects' by exact Hr'. by apply Hother1.
Qed.

(** The loop over the traces stops at the first unreadable file, with
    what the pairs before it have saved. *)
Lemma extract_traces_stops s0 pairs before file lines after fc s :
  cache_of PY3 disk fc →
  NoDup pairs.*2 →
  (∀ item, item ∈ pairs →
     ∃ trace,
       objects s0 !! item.2 = Some trace
       ∧ objects s !! item.2 = Some trace) →
  visited items s0 pairs = before ++ (file, lines) :: after →
  Forall (valid_entry PY3 disk) before →
  disk file = None →
  ∃ fc' s',
    for_each pairs (TraceForest.extract_trace PY3 items disk) (fc, s)
    = (Raise IOError, (fc', s'))
    ∧ source_lines (forest s')
      = foldl (add_entry disk) (source_lines (forest s)) before.
Proof.
  intros Hcache Hnodup Hpairs Hsplit Hvalid Hdisk.
  apply bind_split in Hsplit
    as (pairs1 & [tid r] & pairs2 & before1 & after1 & -> & Hitem & ->).
  cbn [snd] in Hitem.
  rewrite fmap_app in Hnodup. cbn [fmap list_fmap snd] in Hnodup.
  apply NoDup_app in Hnodup as (Hnodup1 & Hfresh & _).
  apply Forall_app in Hvalid as [Hvalid1 Hvalid2].
  destruct (extract_traces_saves s0 pairs1 fc s Hcache Hnodup1)
    as (fc1 & s1 & Hrun1 & Hcache1 & Hlines1 & Hother1).
  { intros item Hin. apply Hpairs. apply elem_of_app. by left. }
  { exact Hvalid1. }
  destruct (Hpairs (tid, r)) as (trace & Hr0 & Hr);
    [apply elem_of_app; right; left |].
  cbn [snd] in *. rewrite Hr0 in Hitem. cbn [from_option] in Hitem.
  assert (objects s1 !! r = Some trace) as Hr1.
  { rewrite Hother1; [exact Hr |]. intros Hin.
    apply (Hfresh r Hin). left. }
  destruct (extract_entries_stops r before1 file lines after1 fc1 s1
              Hcache1 Hvalid2 Hdisk) as (fc' & s' & Hrun & Hlines');
    [by eexists |].
  exists fc', s'. rewrite for_each_app. unfold bind at 1. rewrite Hrun1.
  cbn [for_each]. unfold bind at 1.
  unfold TraceForest.extract_trace at 1, bind at 1.
  cbn [TraceForest.on_store snd]. unfold deref. rewrite Hr1.
  rewrite Hitem, Hrun. split; [reflexivity |].
  by rewrite Hlines', Hlines1, foldl_app.
Qed.

Lemma extract_traces_invalid s0 pairs :
  ∀ fc s,
    cache_of PY3 disk fc →
    NoDup pairs.*2 →
    (∀ item, item ∈ pairs →
       ∃ trace,
         objects s0 !! item.2 = Some trace
         ∧ objects s !! item.2 = Some trace) →
    ¬ Forall (valid_entry PY3 disk) (visited items s0 pairs) →
    ∃ e, (for_each pairs (TraceForest.extract_trace PY3 items disk)
            (fc, s)).1
         = Raise e.
Proof.
  induction pairs as [| [tid r] pairs IH];
    intros fc s Hcache Hnodup Hpairs Hinvalid.
  - exfalso. apply Hinvalid. constructor.
  - destruct (Hpairs (tid, r)) as (trace & Hr0 & Hr); [left |].
    cbn [snd] in *. cbn [fmap list_fmap snd] in Hnodup.
    apply NoDup_cons in Hnodup as [Hfresh Hnodup].
    unfold visited in Hinvalid.
    cbn [mbind list_bind snd] in Hinvalid. rewrite Hr0 in Hinvalid.
    cbn [from_option] in Hinvalid.
    cbn [for_each]. unfold bind at 1.
    unfold TraceForest.extract_trace at 1, bind at 1.
    cbn [TraceForest.on_store snd]. unfold deref. rewrite Hr.
    destruct (decide (Forall (valid_entry PY3 disk)
                        (items _ (Trace.merge_point_files trace))))
      as [Hvalid | Hvalid].
    + destruct (extract_entries_saves r
                  (items _ (Trace.merge_point_files trace))
                  fc s Hcache Hvalid) as (fc1 & s1 & Hrun1 & Hcache1 & _
                                          & _ & Hother1); [by eexists |].
      rewrite Hrun1. apply IH; [exact Hcache1 | exact Hnodup | |].
      * intros item Hitem.
        destruct (Hpairs item) as (trace' & Hr0' & Hr'); [by right |].
        exists trace'. split; [exact Hr0' |].
        rewrite Hother1; [exact Hr' |].
        intros Heq. apply Hfresh. apply list_elem_of_fmap. exists item.
        by split.
      * intros Hrest. apply Hinvalid. apply Forall_app. by split.
    + destruct (extract_entries_invalid r
                  (items _ (Trace.merge_point_files trace))
                  fc s Hcache) as [e He]; [by eexists | exact Hvalid |].
      match goal with
      | |- context [for_each ?es ?body ?st] =>
          destruct (for_each es body st) as [[[] | e'] st']
      end; [discriminate |]. by exists e'.
Qed.

Hypothesis items_permutation : ∀ A (l : list A), items A l ≡ₚ l.

(** The traces in the order of the visit are registered as the traces
    of the forest are. *)
Lemma visit_registered s :
  NoDup (traces (forest s)).*2 →
  (∀ item, item ∈ traces (forest s) → is_Some (objects s !! item.2)) →
  NoDup (items _ (traces (forest s))).*2
  ∧ ∀ item, item ∈ items _ (traces (forest s)) →
      ∃ trace,
        objects s !! item.2 = Some trace ∧ objects s !! item.2 = Some trace.
Proof.
  intros Hnodup Hrefs. split.
  - by rewrite items_permutation.
  - intros item Hitem. rewrite items_permutation in Hitem.
    destruct (Hrefs item Hitem) as [trace Hr]. by exists trace.
Qed.

Lemma cache_of_empty : cache_of PY3 disk ∅.
Proof. intros file split_lines Hfile. by rewrite lookup_empty in Hfile. Qed.

End ExactExtraction.

(** Both orders are permutations. *)
Lemma as_inserted_permutation A (l : list A) : as_inserted A l ≡ₚ l.
Proof. reflexivity. Qed.

Lemma reversed_permutation A (l : list A) : reversed A l ≡ₚ l.
Proof. apply reverse_Permutation. Qed.

(** The two traces of a concrete store are registered once each. *)
Ltac two_registered :=
  lazymatch goal with
  | |- NoDup _ => refine (bool_decide_unpack _ _); vm_compute; exact I
  | |- ∀ item, _ =>
      let Hin := fresh "Hin" in
      intros ? Hin; vm_compute in Hin;
      repeat (apply elem_of_cons in Hin as [-> | Hin];
              [eexists; vm_compute; reflexivity |]);
      inversion Hin
  end.

(** C8, as stated, fails. The trace refers to ["missing.py"], which
    cannot be read, and to ["ok.py"], which can; its merge-point index
    is the only dict with two entries, so it is visited in one of two
    orders. In both the extraction raises the [IOError] of [open]
    instead of going on: when ["missing.py"] comes first, ["ok.py"]
    gets no lines; when ["ok.py"] comes first, it has its line, and
    the call raises all the same. *)
Lemma unreadable_file_stops_extraction :
  small_disk "missing.py" = None
  ∧ is_Some (small_disk "ok.py")
  ∧ Trace.merge_point_files <$> objects two_files_store !! 0%nat
    = Some [("missing.py"%string, [1]); ("ok.py"%string, [2])]
  ∧ (TraceForest.extract_source_code_lines false as_inserted small_disk
       two_files_store).1 = Raise IOError
  ∧ source_lines
      (forest (TraceForest.extract_source_code_lines false as_inserted
                 small_disk two_files_store).2) = []
  ∧ (TraceForest.extract_source_code_lines false reversed small_disk
       two_files_store).1 = Raise IOError
  ∧ source_lines
      (forest (TraceForest.extract_source_code_lines false reversed
                 small_disk two_files_store).2)
    = [("ok.py"%string, [(2, b "y = 2")])].
Proof.
  repeat split; try (vm_compute; reflexivity).
  eexists. vm_compute. reflexivity.
Qed.

(** C8, amended: [extract_source_code_lines] has no handler for a file
    that cannot be read. Whatever the outcome, the files read from
    disk during one extraction are readable files, each read at most
    once; when some file a trace of the forest refers to is
    unreadable, the call does not complete but raises, and the
    unreadable file contributes no entries to the [source_lines] of
    the forest. When no trace object is registered twice and every
    pair (file, line numbers) visited before the first unreadable file
    can be processed, the exception is the [IOError] of [open] and the
    [source_lines] are what the pairs before it have made them: the
    pairs after it add nothing. *)
Theorem extract_unreadable_file_is_fatal (PY3 : bool)
    (items : ∀ A : Type, list A → list A) (disk : string → option bytes)
    (s : Store) :
  (∀ A (l : list A), items A l ≡ₚ l) →
  (∃ out s' new,
     TraceForest.extract_source_code_lines PY3 items disk s = (out, s')
     ∧ reads s' = reads s ++ new
     ∧ NoDup new
     ∧ (∀ f, f ∈ new → is_Some (disk f))
     ∧ ∀ file, referenced s file → disk file = None →
         (∃ e, out = Raise e)
         ∧ dict_get file (source_lines (forest s'))
           = dict_get file (source_lines (forest s)))
  ∧ (NoDup (traces (forest s)).*2 →
     (∀ item, item ∈ traces (forest s) → is_Some (objects s !! item.2)) →
     ∀ before file lines after,
       entries items s = before ++ (file, lines) :: after →
       Forall (valid_entry PY3 disk) before →
       disk file = None →
       ∃ s',
         TraceForest.extract_source_code_lines PY3 items disk s
         = (Raise IOError, s')
         ∧ source_lines (forest s')
           = foldl (add_entry disk) (source_lines (forest s)) before).
Proof.
  intros Hitems. split; [by apply extract_unreadable |].
  intros Hnodup Hrefs before file lines after Hsplit Hvalid Hdisk.
  destruct (visit_registered items Hitems s Hnodup Hrefs)
    as [Hnodup' Hrefs'].
  destruct (extract_traces_stops PY3 items disk s
              (items _ (traces (forest s))) before file lines after ∅ s
              (cache_of_empty PY3 disk) Hnodup' Hrefs' Hsplit Hvalid Hdisk)
    as (fc' & s' & Hrun & Hlines).
  exists s'. unfold TraceForest.extract_source_code_lines.
  rewrite Hrun. by split.
Qed.

Lemma extract_unreadable_file_is_fatal_witness :
  ∃ s',
    TraceForest.extract_source_code_lines false reversed small_disk
      two_files_store = (Raise IOError, s')
    ∧ source_lines (forest s') = [("ok.py"%string, [(2, b "y = 2")])]
    ∧ NoDup (reads s')
    ∧ dict_get "missing.py"%string (source_lines (forest s')) = None.
Proof.
  destruct (extract_unreadable_file_is_fatal false reversed small_disk
              two_files_store reversed_permutation)
    as [(out & s'' & new & Hrun' & Hreads & Hnodup & _ & Hfatal) Hstops].
  destruct (Hstops ltac:(two_registered) ltac:(two_registered)
              [("ok.py"%string, [2])] "missing.py"%string [1] [])
    as (s' & Hrun & Hlines).
  - vm_compute. reflexivity.
  - refine (bool_decide_unpack _ _). vm_compute. exact I.
  - reflexivity.
  - rewrite Hrun in Hrun'. injection Hrun' as <- <-.
    exists s'. split; [exact Hrun |].
    split; [rewrite Hlines; vm_compute; reflexivity |].
    split; [rewrite Hreads; exact Hnodup |].
    destruct (Hfatal "missing.py"%string) as [_ Hnone]; [| reflexivity |].
    + exists 1, 0%nat. eexists _, [1].
      split; [vm_compute; left |]. split; [vm_compute; reflexivity |].
      cbn. left.
    + rewrite Hnone. reflexivity.
Defined.



(** X19: when the dicts hand out their entries in some order and no
    trace object is registered under two ids,
    [extract_source_code_lines] returns exactly when every pair (file,
    line numbers) of the merge-point indexes can be processed: the
    module runs with [PY3] false, the file is readable, and it has a
    line for every requested number, counted from the start or, for a
    number that is not positive, from the end. An unreadable file or
    one line number beyond the file makes the whole extraction raise,
    and under [PY3] it returns only when no trace refers to a file. *)
Theorem extract_source_code_lines_returns_iff (PY3 : bool)
    (items : ∀ A : Type, list A → list A) (disk : string → option bytes)
    (s : Store) :
  (∀ A (l : list A), items A l ≡ₚ l) →
  NoDup (traces (forest s)).*2 →
  (∀ item, item ∈ traces (forest s) → is_Some (objects s !! item.2)) →
  (TraceForest.extract_source_code_lines PY3 items disk s).1 = Return tt
  ↔ Forall (valid_entry PY3 disk) (entries items s).
Proof.
  intros Hitems Hnodup Hrefs.
  destruct (visit_registered items Hitems s Hnodup Hrefs)
    as [Hnodup' Hrefs'].
  unfold TraceForest.extract_source_code_lines. split.
  - intros Hrun.
    destruct (decide (Forall (valid_entry PY3 disk) (entries items s)))
      as [Hvalid | Hinvalid]; [exact Hvalid |].
    exfalso.
    destruct (extract_traces_invalid PY3 items disk s
                (items _ (traces (forest s))) ∅ s
                (cache_of_empty PY3 disk) Hnodup' Hrefs' Hinvalid)
      as [e He].
    destruct (for_each (items _ (traces (forest s)))
                (TraceForest.extract_trace PY3 items disk) (∅, s))
      as [[[] | e'] [fc' s']]; discriminate.
  - intros Hvalid.
    destruct (extract_traces_saves PY3 items disk s
                (items _ (traces (forest s))) ∅ s
                (cache_of_empty PY3 disk) Hnodup' Hrefs' Hvalid)
      as (fc' & s' & Hrun & _).
    by rewrite Hrun.
Qed.

Lemma extract_source_code_lines_returns_iff_witness :
  (TraceForest.extract_source_code_lines false as_inserted small_disk
     (merge_points_store "ok.py")).1 = Return tt
  ∧ (TraceForest.extract_source_code_lines true as_inserted small_disk
       (merge_points_store "ok.py")).1 ≠ Return tt
  ∧ (TraceForest.extract_source_code_lines false as_inserted small_disk
       (merge_points_store "missing.py")).1 ≠ Return tt.
Proof.
  split; [| split].
  - apply (extract_source_code_lines_returns_iff false as_inserted small_disk
             (merge_points_store "ok.py") as_inserted_permutation);
      [two_registered.. |].
    refine (bool_decide_unpack _ _). vm_compute. exact I.
  - intros Hrun.
    apply (extract_source_code_lines_returns_iff true as_inserted small_disk
             (merge_points_store "ok.py") as_inserted_permutation) in Hrun;
      [| two_registered..].
    apply (bool_decide_pack _) in Hrun. vm_compute in Hrun. destruct Hrun.
  - intros Hrun.
    apply (extract_source_code_lines_returns_iff false as_inserted small_disk
             (merge_points_store "missing.py") as_inserted_permutation)
      in Hrun; [| two_registered..].
    apply (bool_decide_pack _) in Hrun. vm_compute in Hrun. destruct Hrun.
Defined.
